(** * Glow Wizard MVP backend: validation and photo-metadata pipeline

    A shallow embedding of the backend modules [profile-processor.js],
    [data-validator.js], [photo-analyzer.js], [recommendation-engine.js],
    [auth-middleware.js] and [server.js], followed by the properties of
    the specification that were checked against them, and by further
    properties of the modules that the code itself shows.

    Conventions of the embedding.
    - A JavaScript string is a [string]; every character stands for one
      code unit in the range U+0000..U+00FF.
    - A JavaScript number is a [number]: NaN, the two infinities, or the
      exact value [m * 10^e].  Arithmetic is exact: rounding to binary64
      is not modelled, and the two zeros are identified.  The embedding
      and the runtime agree on every decimal of at most 15 significant
      digits within the binary64 range.  Beyond it the runtime rounds,
      and gives Infinity from about 1.8e308 on, where the embedding keeps
      the exact value: a property that depends on the value of a number
      is stated for the range in which the two agree, or in a form that
      holds of both.
    - Code that can throw returns a [result]; code that talks to the
      network or reads the clock threads an abstract [World]. *)

From Stdlib Require Import String Ascii List ZArith Lia Bool Reals Lra Sorted.
Import ListNotations.

Set Warnings "-register-all".

Local Open Scope string_scope.
Local Open Scope Z_scope.

(* ===================================================================== *)
(** * Part I: the embedding                                              *)
(* ===================================================================== *)

(** ** The JavaScript runtime the modules rely on *)

Module Js.

(** *** Errors and results *)

Record error := mkError {
  err_name : string;
  err_message : string;
  err_code : option string;              (* [error.code], set by axios *)
  err_response : option (Z * string);    (* [error.response]: status, statusText *)
  err_status : option Z                  (* [error.status], set by the OpenAI client *)
}.

Definition Error (msg : string) : error := mkError "Error" msg None None None.
Definition TypeError (msg : string) : error := mkError "TypeError" msg None None None.

Inductive result (A : Type) : Type :=
| Ok (a : A)
| Throw (e : error).
Arguments Ok {A} a.
Arguments Throw {A} e.

Definition bind {A B} (r : result A) (k : A -> result B) : result B :=
  match r with
  | Ok a => k a
  | Throw e => Throw e
  end.

Notation "x <- c ;; k" := (bind c (fun x => k))
  (at level 61, c at next level, right associativity).

(** *** Strings *)

Notation "a ==? b" := (String.eqb a b) (at level 70, no associativity).

Definition code (c : ascii) : Z := Z.of_N (N_of_ascii c).
Definition char_of (n : Z) : ascii := ascii_of_N (Z.to_N n).

(** WhiteSpace and LineTerminator code units below U+0100. *)
Definition is_white (c : ascii) : bool :=
  let n := code c in
  ((9 <=? n) && (n <=? 13)) || (n =? 32) || (n =? 160).

Fixpoint trimStart (s : string) : string :=
  match s with
  | String c r => if is_white c then trimStart r else s
  | EmptyString => EmptyString
  end.

(** [trimEnd] keeps a character when it is not white space or when
    something is kept after it. *)
Fixpoint trimEnd (s : string) : string :=
  match s with
  | String c r =>
      match trimEnd r with
      | EmptyString => if is_white c then EmptyString else String c EmptyString
      | t => String c t
      end
  | EmptyString => EmptyString
  end.

Definition trim (s : string) : string := trimEnd (trimStart s).

Definition lower_char (c : ascii) : ascii :=
  let n := code c in
  if ((65 <=? n) && (n <=? 90))
     || ((192 <=? n) && (n <=? 222) && negb (n =? 215))
  then char_of (n + 32) else c.

Fixpoint toLowerCase (s : string) : string :=
  match s with
  | String c r => String (lower_char c) (toLowerCase r)
  | EmptyString => EmptyString
  end.

Definition str_length (s : string) : Z := Z.of_nat (String.length s).

Definition startsWith (s p : string) : bool := String.prefix p s.

(** [s.includes(p)] *)
Fixpoint includes (s p : string) : bool :=
  String.prefix p s ||
  match s with
  | String _ r => includes r p
  | EmptyString => false
  end.

(** [l.push(x)] *)
Definition push {A} (l : list A) (x : A) : list A := (l ++ [x])%list.

Fixpoint join (sep : string) (l : list string) : string :=
  match l with
  | [] => ""
  | [x] => x
  | x :: r => x ++ sep ++ join sep r
  end.

Fixpoint drop (n : nat) (s : string) : string :=
  match n, s with
  | O, _ => s
  | S k, String _ r => drop k r
  | S _, EmptyString => EmptyString
  end.

Fixpoint take (n : nat) (s : string) : string :=
  match n, s with
  | O, _ => EmptyString
  | S k, String c r => String c (take k r)
  | S _, EmptyString => EmptyString
  end.

Fixpoint zeros (n : nat) : string :=
  match n with
  | O => EmptyString
  | S k => String "0" (zeros k)
  end.

(** *** Numbers *)

Inductive number :=
| NaN
| Inf (neg : bool)
| Fin (m e : Z).                          (* m * 10^e *)

(** Canonical form: no factor 10 left in the mantissa, zero is [Fin 0 0]. *)
Fixpoint strip10 (fuel : nat) (m e : Z) : Z * Z :=
  match fuel with
  | O => (m, e)
  | S f =>
      if m =? 0 then (0, 0)
      else if m mod 10 =? 0 then strip10 f (m / 10) (e + 1)
      else (m, e)
  end.

Definition fuel_of (m : Z) : nat := S (Z.to_nat (Z.log2 (Z.abs m))).

Definition mkFin (m e : Z) : number :=
  let '(m', e') := strip10 (fuel_of m) m e in Fin m' e'.

Definition of_Z (z : Z) : number := mkFin z 0.

Definition canon (x : number) : number :=
  match x with
  | Fin m e => mkFin m e
  | _ => x
  end.

Definition isNaN (x : number) : bool :=
  match x with NaN => true | _ => false end.

(** Comparison of [m1 * 10^e1] with [m2 * 10^e2] on a common exponent. *)
Definition cmp_fin (m1 e1 m2 e2 : Z) : comparison :=
  let e := Z.min e1 e2 in
  (m1 * 10 ^ (e1 - e)) ?= (m2 * 10 ^ (e2 - e)).

(** [x < y]; false as soon as one side is NaN. *)
Definition lt (x y : number) : bool :=
  match x, y with
  | NaN, _ | _, NaN => false
  | Inf true, Inf true => false
  | Inf true, _ => true
  | _, Inf true => false
  | Inf false, _ => false
  | _, Inf false => true
  | Fin m1 e1, Fin m2 e2 =>
      match cmp_fin m1 e1 m2 e2 with Lt => true | _ => false end
  end.

Definition gt (x y : number) : bool := lt y x.

(** [x >= y] *)
Definition ge (x y : number) : bool :=
  match x, y with
  | NaN, _ | _, NaN => false
  | _, _ => negb (lt x y)
  end.

(** [x === y] on numbers *)
Definition num_eq (x y : number) : bool :=
  match x, y with
  | NaN, _ | _, NaN => false
  | Inf a, Inf b => Bool.eqb a b
  | Fin m1 e1, Fin m2 e2 =>
      match cmp_fin m1 e1 m2 e2 with Eq => true | _ => false end
  | _, _ => false
  end.

(** ToBoolean on a number: false for zero and NaN. *)
Definition num_truthy (x : number) : bool :=
  match x with
  | NaN => false
  | Inf _ => true
  | Fin m _ => negb (m =? 0)
  end.

(** *** Decimal digits *)

Definition is_digit (c : ascii) : bool :=
  let n := code c in (48 <=? n) && (n <=? 57).

Definition digit_val (c : ascii) : Z := code c - 48.
Definition digit_char (d : Z) : ascii := char_of (d + 48).

Fixpoint digits_val (s : string) (acc : Z) : Z :=
  match s with
  | String c r => digits_val r (acc * 10 + digit_val c)
  | EmptyString => acc
  end.

Fixpoint digits_aux (fuel : nat) (m : Z) (acc : string) : string :=
  match fuel with
  | O => acc
  | S f =>
      let acc' := String (digit_char (m mod 10)) acc in
      if m <? 10 then acc' else digits_aux f (m / 10) acc'
  end.

(** The decimal digits of a non-negative integer, most significant first. *)
Definition to_digits (m : Z) : string := digits_aux (fuel_of m) m "".

Fixpoint span_digits (s : string) : string * string :=
  match s with
  | String c r =>
      if is_digit c
      then let '(d, t) := span_digits r in (String c d, t)
      else (EmptyString, s)
  | EmptyString => (EmptyString, EmptyString)
  end.

(** *** Number::toString (radix 10)

    With [k] digits [ds] and the decimal point after the [n]-th digit. *)
Definition exponent_part (x : Z) : string :=
  String "e" (String (if x <? 0 then "-"%char else "+"%char) (to_digits (Z.abs x))).

Definition format_pos (ds : string) (n : Z) : string :=
  let k := str_length ds in
  if (k <=? n) && (n <=? 21) then ds ++ zeros (Z.to_nat (n - k))
  else if (0 <? n) && (n <=? 21) then
    take (Z.to_nat n) ds ++ "." ++ drop (Z.to_nat n) ds
  else if (-6 <? n) && (n <=? 0) then
    "0." ++ zeros (Z.to_nat (- n)) ++ ds
  else if k =? 1 then ds ++ exponent_part (n - 1)
  else take 1 ds ++ "." ++ drop 1 ds ++ exponent_part (n - 1).

Definition numToString (x : number) : string :=
  match canon x with
  | NaN => "NaN"
  | Inf false => "Infinity"
  | Inf true => "-Infinity"
  | Fin m e =>
      if m =? 0 then "0"
      else
        let ds := to_digits (Z.abs m) in
        let body := format_pos ds (str_length ds + e) in
        if m <? 0 then String "-" body else body
  end.

(** An integer inside a template literal. *)
Definition show (z : Z) : string := numToString (of_Z z).

(** *** parseFloat on a string *)

Definition split_sign (s : string) : bool * string :=
  match s with
  | String "-" r => (true, r)
  | String "+" r => (false, r)
  | _ => (false, s)
  end.

(** The exponent of an ExponentPart at the head of [s], 0 when there is none. *)
Definition parse_exponent (s : string) : Z :=
  match s with
  | String c r =>
      if (code c =? 101) || (code c =? 69) then
        let '(neg, r') := split_sign r in
        let '(ds, _) := span_digits r' in
        match ds with
        | EmptyString => 0
        | _ => if neg then - digits_val ds 0 else digits_val ds 0
        end
      else 0
  | EmptyString => 0
  end.

Definition parse_decimal (s : string) : option (Z * Z) :=
  let '(ip, r1) := span_digits s in
  let '(fp, r2) :=
    match r1 with
    | String "." r => span_digits r
    | _ => (EmptyString, r1)
    end in
  match ip, fp with
  | EmptyString, EmptyString => None
  | _, _ => Some (digits_val (ip ++ fp) 0,
                  parse_exponent r2 - str_length fp)
  end.

Definition parseFloat_str (s : string) : number :=
  let '(neg, r) := split_sign (trimStart s) in
  if startsWith r "Infinity" then Inf neg
  else match parse_decimal r with
       | Some (m, e) => mkFin (if neg then - m else m) e
       | None => NaN
       end.

(** *** parseInt on a string *)

Definition radix_digit (c : ascii) : option Z :=
  let n := code c in
  if (48 <=? n) && (n <=? 57) then Some (n - 48)
  else if (97 <=? n) && (n <=? 122) then Some (n - 87)
  else if (65 <=? n) && (n <=? 90) then Some (n - 55)
  else None.

(** Value of the longest prefix of digits below radix [R]; [None] when
    that prefix is empty. *)
Fixpoint radix_prefix (R : Z) (s : string) (acc : option Z) : option Z :=
  match s with
  | String c r =>
      match radix_digit c with
      | Some d =>
          if d <? R
          then radix_prefix R r (Some (match acc with Some a => a | None => 0 end * R + d))
          else acc
      | None => acc
      end
  | EmptyString => acc
  end.

Definition strip_hex_prefix (s : string) : option string :=
  match s with
  | String "0" (String c r) =>
      if (code c =? 120) || (code c =? 88) then Some r else None
  | _ => None
  end.

(** [parseInt(s, radix)]; [radix = None] stands for an omitted radix.
    The digits are read exactly, however many: the runtime gives the
    nearest binary64 number, which is the same up to 15 digits, still a
    whole number beyond, and Infinity from about 1.8e308 on. *)
Definition parseInt_str (s : string) (radix : option Z) : number :=
  let '(neg, r) := split_sign (trimStart s) in
  let R0 := match radix with Some R => R | None => 0 end in
  if negb (R0 =? 0) && ((R0 <? 2) || (36 <? R0)) then NaN
  else
    let '(R, body) :=
      if (R0 =? 0) || (R0 =? 16) then
        match strip_hex_prefix r with
        | Some r' => (16, r')
        | None => ((if R0 =? 0 then 10 else R0), r)
        end
      else (R0, r) in
    match radix_prefix R body None with
    | Some v => of_Z (if neg then - v else v)
    | None => NaN
    end.

(** *** Values

    The values a parsed JSON body can hold, and [undefined].  Functions,
    symbols and host objects never occur in them. *)

Inductive value :=
| VUndefined
| VNull
| VBool (b : bool)
| VNum (x : number)
| VStr (s : string)
| VArr (items : list value)
| VObj (fields : list (string * value)).

Definition typeof (v : value) : string :=
  match v with
  | VUndefined => "undefined"
  | VBool _ => "boolean"
  | VNum _ => "number"
  | VStr _ => "string"
  | VNull | VArr _ | VObj _ => "object"
  end.

(** ToBoolean *)
Definition truthy (v : value) : bool :=
  match v with
  | VUndefined | VNull => false
  | VBool b => b
  | VNum x => num_truthy x
  | VStr s => negb (s ==? "")
  | VArr _ | VObj _ => true
  end.

Definition isArray (v : value) : bool :=
  match v with VArr _ => true | _ => false end.

Definition is_nullish (v : value) : bool :=
  match v with VUndefined | VNull => true | _ => false end.

Fixpoint lookup (k : string) (fs : list (string * value)) : option value :=
  match fs with
  | [] => None
  | (k', v) :: r => if k' ==? k then Some v else lookup k r
  end.

(** [k in v] for a property name that no prototype defines. *)
Definition has (k : string) (v : value) : bool :=
  match v with
  | VObj fs => match lookup k fs with Some _ => true | None => false end
  | _ => false
  end.

(** [v[k]] under the same proviso, on an object or an array. *)
Definition get (v : value) (k : string) : value :=
  match v with
  | VObj fs => match lookup k fs with Some x => x | None => VUndefined end
  | _ => VUndefined
  end.

(** [o[k] = v]: an existing property keeps its place. *)
Fixpoint set (k : string) (v : value) (fs : list (string * value))
  : list (string * value) :=
  match fs with
  | [] => [(k, v)]
  | (k', v') :: r => if k' ==? k then (k, v) :: r else (k', v') :: set k v r
  end.

(** [v[k]] where [v] may be anything: reading a property of [undefined]
    or [null] throws. *)
Definition get_prop (v : value) (k : string) : result value :=
  match v with
  | VUndefined =>
      Throw (TypeError ("Cannot read properties of undefined (reading '" ++ k ++ "')"))
  | VNull =>
      Throw (TypeError ("Cannot read properties of null (reading '" ++ k ++ "')"))
  | _ => Ok (get v k)
  end.

(** ToString.  An object whose own [toString] property shadows the
    inherited method has no primitive value, since that property cannot
    hold a function. *)
Fixpoint ToString (v : value) : result string :=
  match v with
  | VUndefined => Ok "undefined"
  | VNull => Ok "null"
  | VBool true => Ok "true"
  | VBool false => Ok "false"
  | VNum x => Ok (numToString x)
  | VStr s => Ok s
  | VArr items =>
      ss <- (fix each (l : list value) : result (list string) :=
               match l with
               | [] => Ok []
               | x :: r =>
                   s <- (if is_nullish x then Ok "" else ToString x) ;;
                   ss <- each r ;;
                   Ok (s :: ss)
               end) items ;;
      Ok (join "," ss)
  | VObj fs =>
      match lookup "toString" fs with
      | Some _ => Throw (TypeError "Cannot convert object to primitive value")
      | None => Ok "[object Object]"
      end
  end.

(** The method call [v.toString()]. *)
Definition toString (v : value) : result string :=
  match v with
  | VUndefined =>
      Throw (TypeError "Cannot read properties of undefined (reading 'toString')")
  | VNull =>
      Throw (TypeError "Cannot read properties of null (reading 'toString')")
  | VObj fs =>
      match lookup "toString" fs with
      | Some _ => Throw (TypeError "toString is not a function")
      | None => Ok "[object Object]"
      end
  | _ => ToString v
  end.

Definition parseInt (v : value) (radix : option Z) : result number :=
  s <- ToString v ;; Ok (parseInt_str s radix).

Definition parseFloat (v : value) : result number :=
  s <- ToString v ;; Ok (parseFloat_str s).

(** [allowed.includes(v)] for an array of strings. *)
Definition includes_value (allowed : list string) (v : value) : bool :=
  match v with
  | VStr s => existsb (String.eqb s) allowed
  | _ => false
  end.

(** [items.join(sep)] *)
Definition join_values (sep : string) (items : list value) : result string :=
  ss <- (fix each (l : list value) : result (list string) :=
           match l with
           | [] => Ok []
           | x :: r =>
               s <- (if is_nullish x then Ok "" else ToString x) ;;
               ss <- each r ;;
               Ok (s :: ss)
           end) items ;;
  Ok (join sep ss).

End Js.

(** ** profile-processor.js *)

Module ProfileProcessor.
Import Js.

Record field := mkField {
  key : string;
  type : string;
  minLength : option Z;
  min : option Z;
  max : option Z;
  allowed : option (list string);
  isArrayField : bool
}.

Definition requiredFields : list field :=
  [ mkField "name" "string" (Some 1) None None None false;
    mkField "age" "number" None (Some 13) (Some 120) None false;
    mkField "skinType" "string" None None None
      (Some ["dry"; "oily"; "combination"; "normal"; "sensitive"]) false;
    mkField "concerns" "object" None None None
      (Some ["acne"; "wrinkles"; "redness"; "dryness"; "dark spots"; "sensitivity"]) true;
    mkField "location" "string" (Some 2) None None None false ].

(** What [validateProfileData] returns: [true], or [{valid: false, errors}]. *)
Inductive validation :=
| Valid
| Invalid (errors : list string).

(** The five [if] statements of the loop body, in order. *)

Definition check_string (f : field) (value : value) (errors : list string)
  : list string :=
  if (f.(type) ==? "string") && negb (typeof value ==? "string")
  then push errors ("Field " ++ f.(key) ++ " must be a string.")
  else errors.

Definition check_number (f : field) (value : value) (errors : list string)
  : list string :=
  if f.(type) ==? "number" then
    match value with
    | VNum x =>
        if isNaN x
        then push errors ("Field " ++ f.(key) ++ " must be a number.")
        else
          let errors :=
            match f.(min) with
            | Some lo =>
                if lt x (of_Z lo)
                then push errors ("Field " ++ f.(key) ++ " must be at least "
                                  ++ show lo ++ ".")
                else errors
            | None => errors
            end in
          match f.(max) with
          | Some hi =>
              if gt x (of_Z hi)
              then push errors ("Field " ++ f.(key) ++ " must be at most "
                                ++ show hi ++ ".")
              else errors
          | None => errors
          end
    | _ => push errors ("Field " ++ f.(key) ++ " must be a number.")
    end
  else errors.

Definition check_array (f : field) (value : value) (errors : list string)
  : result (list string) :=
  if (f.(type) ==? "object") && f.(isArrayField) then
    match value with
    | VArr items =>
        match f.(allowed) with
        | Some al =>
            let invalid := filter (fun v => negb (includes_value al v)) items in
            match invalid with
            | [] => Ok errors
            | _ =>
                s <- join_values ", " invalid ;;
                Ok (push errors ("Field " ++ f.(key)
                                 ++ " contains invalid values: " ++ s ++ "."))
            end
        | None => Ok errors
        end
    | _ => Ok (push errors ("Field " ++ f.(key) ++ " must be an array."))
    end
  else Ok errors.

Definition check_allowed (f : field) (value : value) (errors : list string)
  : list string :=
  match f.(allowed) with
  | Some al =>
      if (f.(type) ==? "string") && negb (includes_value al value)
      then push errors ("Field " ++ f.(key) ++ " must be one of: "
                        ++ join ", " al ++ ".")
      else errors
  | None => errors
  end.

Definition check_min_length (f : field) (value : value) (errors : list string)
  : list string :=
  match f.(minLength), value with
  | Some n, VStr s =>
      if negb (n =? 0) && (str_length s <? n)
      then push errors ("Field " ++ f.(key) ++ " must be at least "
                        ++ show n ++ " characters.")
      else errors
  | _, _ => errors
  end.

Definition is_missing (value : value) : bool :=
  is_nullish value
  || ((typeof value ==? "string")
      && match value with VStr s => trim s ==? "" | _ => false end).

(** One turn of the loop over [requiredFields]. *)
Definition check_field (profileData : value) (f : field) (errors : list string)
  : result (list string) :=
  let value := get profileData f.(key) in
  if is_missing value
  then Ok (push errors ("Missing required field: " ++ f.(key)))
  else
    let errors := check_string f value errors in
    let errors := check_number f value errors in
    errors <- check_array f value errors ;;
    let errors := check_allowed f value errors in
    let errors := check_min_length f value errors in
    Ok errors.

Fixpoint check_fields (profileData : value) (fs : list field) (errors : list string)
  : result (list string) :=
  match fs with
  | [] => Ok errors
  | f :: r =>
      errors <- check_field profileData f errors ;;
      check_fields profileData r errors
  end.

Definition validateProfileData (profileData : value) : result validation :=
  if negb (truthy profileData) || negb (typeof profileData ==? "object")
  then Ok (Invalid ["Profile data must be an object."])
  else
    errors <- check_fields profileData requiredFields [] ;;
    match errors with
    | [] => Ok Valid
    | _ => Ok (Invalid errors)
    end.

(** The three numeric keys share one shape: assign the parsed number,
    then overwrite it with [null] when it is NaN. *)
Definition assign_parsed (k : string) (parsed : result number)
    (processed : list (string * value)) : result (list (string * value)) :=
  n <- parsed ;;
  let processed := set k (VNum n) processed in
  Ok (if isNaN n then set k VNull processed else processed).

Definition processQuestionnaireAnswers (answers : value) : result value :=
  if negb (truthy answers) || negb (typeof answers ==? "object")
  then Ok (VObj [("error", VStr "Answers must be an object.")])
  else
    let processed := [] in
    processed <-
      (if has "hydration" answers
       then assign_parsed "hydration"
              (parseInt (get answers "hydration") (Some 10)) processed
       else Ok processed) ;;
    processed <-
      (if has "sunExposure" answers
       then s <- toString (get answers "sunExposure") ;;
            Ok (set "sunExposure" (VStr (toLowerCase s)) processed)
       else Ok processed) ;;
    processed <-
      (if has "sleepHours" answers
       then assign_parsed "sleepHours"
              (parseFloat (get answers "sleepHours")) processed
       else Ok processed) ;;
    processed <-
      (if has "stressLevel" answers
       then assign_parsed "stressLevel"
              (parseInt (get answers "stressLevel") (Some 10)) processed
       else Ok processed) ;;
    Ok (VObj (filter (fun kv => negb (is_nullish (snd kv))) processed)).

(** *** saveProfileToFirestore, getProfileFromFirestore, handleProfileError *)

(** What a Firestore call is rejected with; [error.code] is a status
    number as a rule. *)
Record firestore_error := mkFirestoreError {
  fe_code : value;
  fe_message : string
}.

Section Firestore.

Variable World : Type.

(** [process.env.NODE_ENV] *)
Variable NODE_ENV : option string.

(** [admin.firestore().collection('profiles').doc(id).set(data, {merge: true})],
    for whatever [id] the caller passes to [doc]. *)
Variable profiles_set : value -> value -> World -> (unit + firestore_error) * World.

(** [admin.firestore().collection('profiles').doc(id).get()]: the data of
    the document, [None] when it does not exist. *)
Variable profiles_get : string -> World -> (option value + firestore_error) * World.

(** [console.error(label, error)] *)
Variable console_error : string -> firestore_error -> World -> World.

Definition development : bool :=
  match NODE_ENV with
  | Some env => env ==? "development"
  | None => false
  end.

Definition handleProfileError (error : firestore_error) (w : World) : value * World :=
  let w := if development then console_error "Profile Processor Error:" error w else w in
  (VObj [("error", VStr "Profile processing error.");
         ("code", if truthy (fe_code error) then fe_code error else VNum (of_Z 500));
         ("message", if development then VStr (fe_message error) else VUndefined)],
   w).

Definition saveProfileToFirestore (profileData : value) (w : World) : value * World :=
  if negb (truthy profileData) || negb (typeof profileData ==? "object")
  then (VObj [("error", VStr "Invalid profile data.")], w)
  else if negb (truthy (get profileData "userId"))
  then (VObj [("error", VStr "Missing userId in profile data.")], w)
  else
    let '(written, w) := profiles_set (get profileData "userId") profileData w in
    match written with
    | inl _ => (VObj [("success", VBool true)], w)
    | inr error => handleProfileError error w
    end.

Definition getProfileFromFirestore (userId : value) (w : World) : value * World :=
  if negb (truthy userId) || negb (typeof userId ==? "string")
  then (VObj [("error", VStr "Invalid userId.")], w)
  else
    let '(doc, w) :=
      profiles_get (match userId with VStr id => id | _ => "" end) w in
    match doc with
    | inl None => (VNull, w)
    | inl (Some data) => (data, w)
    | inr error => handleProfileError error w
    end.

End Firestore.

Arguments handleProfileError {World} NODE_ENV console_error error w.
Arguments saveProfileToFirestore {World} NODE_ENV profiles_set console_error
  profileData w.
Arguments getProfileFromFirestore {World} NODE_ENV profiles_get console_error
  userId w.

End ProfileProcessor.

(** ** photo-analyzer.js *)

Module PhotoAnalyzer.
Import Js.

(** *** validatePhotoUrls *)

Record url_error := mkUrlError {
  ue_index : Z;
  ue_error : string;
  ue_message : string
}.

Record validated_photo := mkPhoto {
  originalUrl : string;
  index : Z;
  format : string
}.

(** The object [validatePhotoUrls] returns; an absent property is [None]. *)
Record url_validation := mkUrlValidation {
  uv_success : bool;
  uv_error : option string;
  uv_validatedUrls : option (list validated_photo);
  uv_errors : option (list url_error);
  uv_message : string
}.

Definition count {A} (l : list A) : Z := Z.of_nat (List.length l).

Definition detectImageFormat (url : string) : string :=
  let urlLowerCase := toLowerCase url in
  if includes urlLowerCase ".png" then "PNG"
  else if includes urlLowerCase ".webp" then "WebP"
  else if includes urlLowerCase ".jpeg" then "JPEG"
  else if includes urlLowerCase ".jpg" then "JPEG"
  else "UNKNOWN".

Definition supportedFormats : list string := [".jpg"; ".jpeg"; ".png"; ".webp"].

Section Validation.

(** [validator.isURL(url, urlOptions)] with the options of the source;
    the library is not part of the repository. *)
Variable isURL : string -> result bool.

(** The body of the [forEach] callback: the two accumulators after the
    element [url] at position [index]. *)
Definition validate_one (url : value) (index : Z)
    (acc : list validated_photo * list url_error)
  : list validated_photo * list url_error :=
  let '(validatedUrls, errors) := acc in
  let photo := "Photo " ++ show (index + 1) ++ ": " in
  match url with
  | VStr u =>
      if str_length (trim u) =? 0
      then (validatedUrls,
            push errors (mkUrlError index "INVALID_URL_FORMAT"
                         (photo ++ "URL must be a non-empty string")))
      else
        let trimmedUrl := trim u in
        match isURL trimmedUrl with
        | Throw validationError =>
            (validatedUrls,
             push errors (mkUrlError index "VALIDATION_ERROR"
                          (photo ++ err_message validationError)))
        | Ok false =>
            (validatedUrls,
             push errors (mkUrlError index "MALFORMED_URL"
                          (photo ++ "URL format is invalid")))
        | Ok true =>
            let urlLowerCase := toLowerCase trimmedUrl in
            let hasValidExtension :=
              existsb (fun format => includes urlLowerCase format) supportedFormats in
            if negb hasValidExtension
            then (validatedUrls,
                  push errors (mkUrlError index "UNSUPPORTED_FORMAT"
                               (photo ++ "Must be JPG, JPEG, PNG, or WebP format")))
            else (push validatedUrls
                    (mkPhoto trimmedUrl index (detectImageFormat trimmedUrl)),
                  errors)
        end
  | _ =>
      (validatedUrls,
       push errors (mkUrlError index "INVALID_URL_FORMAT"
                    (photo ++ "URL must be a non-empty string")))
  end.

Fixpoint validate_each (urls : list value) (index : Z)
    (acc : list validated_photo * list url_error)
  : list validated_photo * list url_error :=
  match urls with
  | [] => acc
  | url :: r => validate_each r (index + 1) (validate_one url index acc)
  end.

(** Nothing in the body reaches the outer [catch]. *)
Definition validatePhotoUrls (photoUrls : value) : url_validation :=
  match photoUrls with
  | VArr urls =>
      if count urls =? 0 then
        mkUrlValidation false (Some "EMPTY_ARRAY") None None
          "At least one photo URL must be provided"
      else if count urls >? 5 then
        mkUrlValidation false (Some "TOO_MANY_PHOTOS") None None
          "Maximum of 5 photos allowed per analysis"
      else
        let '(validatedUrls, errors) := validate_each urls 0 ([], []) in
        if count errors >? 0 then
          mkUrlValidation false (Some "VALIDATION_FAILED")
            (Some validatedUrls) (Some errors)
            (show (count errors) ++ " of " ++ show (count urls)
             ++ " photos failed validation")
        else
          mkUrlValidation true None (Some validatedUrls) None
            ("All " ++ show (count urls) ++ " photos validated successfully")
  | _ =>
      mkUrlValidation false (Some "INVALID_INPUT") None None
        "Photo URLs must be provided as an array"
  end.

End Validation.

(** *** estimateDimensions and assessImageQuality *)

Record dimensions := mkDimensions {
  width : number;
  height : number;
  aspectRatio : string;
  estimated : bool
}.

Record quality := mkQuality {
  score : Z;
  issues : list string;
  suitable : bool
}.

Record metadata := mkMetadata {
  md_url : string;
  md_contentType : string;
  md_fileSize : number;
  md_lastModified : option string;
  md_format : string;
  md_timestamp : string;
  md_dimensions : option dimensions;
  md_quality : option quality
}.

(** The integer nearest to the square root of [n / d] (halves upward),
    for [0 <= n] and [0 < d]: the floor of [sqrt (n / d) + 1/2]. *)
Definition round_sqrt (n d : Z) : Z := (Z.sqrt (4 * n / d) + 1) / 2.

(** [Math.round(Math.sqrt(x * p / q))] for positive integers [p], [q],
    computed exactly on a numerator and a denominator of [x * p / q].
    For a whole [x] the quotient [x * p / 3] is never a half-integer
    squared ([4 * x * p] is a multiple of 4 and [3 * (2 * k + 1)^2] is
    not), and up to the 10485760 bytes that [verifyPhotoAccessibility]
    lets through its root stays further from every half-integer than
    binary64 rounding can move it: there the runtime gives the same
    integer.  From about 1e31 on the runtime's result can differ, and
    from about 1.8e308 on it is Infinity. *)
Definition Math_round_sqrt_ratio (x : number) (p q : Z) : number :=
  match x with
  | NaN => NaN
  | Inf true => NaN
  | Inf false => Inf false
  | Fin m e =>
      if m <? 0 then NaN
      else of_Z (round_sqrt (m * p * 10 ^ Z.max e 0) (q * 10 ^ Z.max (- e) 0))
  end.

Definition estimateDimensions (fileSize : number) (format : string) : dimensions :=
  let compressionRatio :=
    if format ==? "PNG" then 6
    else if format ==? "WebP" then 12
    else if format ==? "JPEG" then 10
    else 10 in
  (* estimatedPixels = fileSize * compressionRatio / 3,
     estimatedSide = Math.sqrt(estimatedPixels) *)
  let roundedSide := Math_round_sqrt_ratio fileSize compressionRatio 3 in
  mkDimensions roundedSide roundedSide "1.00" true.

Definition add_issue (q : quality) (issue : string) (delta : Z) : quality :=
  mkQuality (score q + delta) (push (issues q) issue) (suitable q).

Definition add_score (q : quality) (delta : Z) : quality :=
  mkQuality (score q + delta) (issues q) (suitable q).

(** Check file size (optimal range: 100KB - 5MB) *)
Definition check_file_size (m : metadata) (q : quality) : quality :=
  if lt (md_fileSize m) (of_Z 100000)
  then add_issue q "File size may be too small for detailed analysis" (-10)
  else if gt (md_fileSize m) (of_Z 5000000)
  then add_issue q "File size is very large, may affect processing speed" (-5)
  else add_score q 20.

(** Check dimensions if available *)
Definition check_dimensions (m : metadata) (q : quality) : quality :=
  match md_dimensions m with
  | Some d =>
      if lt (width d) (of_Z 300) || lt (height d) (of_Z 300)
      then add_issue q "Image resolution may be too low for accurate analysis" (-15)
      else if ge (width d) (of_Z 800) && ge (height d) (of_Z 600)
      then add_score q 25
      else add_score q 15
  | None => q
  end.

(** Check image format *)
Definition check_format (m : metadata) (q : quality) : quality :=
  if (md_format m ==? "JPEG") || (md_format m ==? "PNG") then add_score q 10
  else if md_format m ==? "WebP" then add_score q 5
  else add_issue q "Image format may not be optimal for analysis" (-10).

(** The quality record as it stands before suitability is determined. *)
Definition raw_quality (m : metadata) : quality :=
  check_format m (check_dimensions m (check_file_size m (mkQuality 0 [] false))).

Definition assessImageQuality (m : metadata) : quality :=
  let q := raw_quality m in
  let suitable := (score q >=? 30) && (count (issues q) <? 3) in
  mkQuality (Z.max 0 (Z.min 100 (score q + 50))) (issues q) suitable.

(** *** The network and the clock *)

Record axios_response := mkResponse {
  rs_status : Z;
  rs_statusText : string;
  rs_headers : string -> option string
}.

(** What a HEAD request comes to before [validateStatus] is applied: a
    response, or a failure with the error axios raises for it. *)
Inductive axios_outcome :=
| Responded (r : axios_response)
| Failed (e : error).

Record accessibility := mkAccessibility {
  ac_accessible : bool;
  ac_contentType : option string;
  ac_contentLength : number;              (* NaN where the property is absent *)
  ac_lastModified : option string;
  ac_etag : option string;
  ac_error : option string;
  ac_statusCode : option Z;
  ac_message : string
}.

Record metadata_result := mkMetadataResult {
  mr_success : bool;
  mr_metadata : option metadata;
  mr_error : option string;
  mr_message : string;
  mr_url : option string
}.

Record formatted_photo := mkFormattedPhoto {
  fp_id : string;
  fp_url : string;
  fp_type : string;
  fp_format : string;
  fp_quality : quality;
  fp_dimensions : option dimensions;
  fp_fileSize : number;
  fp_contentType : string;
  aiCompatible : bool;
  processingNotes : list string
}.

Record processing_error := mkProcessingError {
  pe_url : string;
  pe_error : string;
  pe_message : string
}.

Record summary := mkSummary {
  totalPhotos : Z;
  processedPhotos : Z;
  failedPhotos : Z;
  aiCompatiblePhotos : Z;
  averageQuality : Z;
  recommendedForAnalysis : Z
}.

(** The object [formatPhotosForAI] returns. *)
Record format_result := mkFormatResult {
  fr_success : bool;
  fr_error : option string;
  fr_message : option string;
  fr_photos : list formatted_photo;
  fr_summary : option summary;
  fr_processingErrors : option (list processing_error);
  fr_timestamp : option string;
  readyForAI : option bool
}.

(** [Math.round(a / b)] for an integer [a] and a positive integer [b]. *)
Definition Math_round_div (a b : Z) : Z := (2 * a + b) / (2 * b).

Definition option_truthy (o : option string) : bool :=
  match o with
  | Some s => negb (s ==? "")
  | None => false
  end.

Section Network.

Variable World : Type.

(** [axios({method: 'head', url, timeout: 5000, maxRedirects: 3})] *)
Variable axios_head : string -> World -> axios_outcome * World.

(** [Date.now()] and [new Date().toISOString()] *)
Variable Date_now : World -> Z * World.
Variable Date_toISOString : World -> string * World.

Definition M (A : Type) : Type := World -> A * World.

Definition ret {A} (a : A) : M A := fun w => (a, w).

Definition mbind {A B} (c : M A) (k : A -> M B) : M B :=
  fun w => let '(a, w') := c w in k a w'.

Notation "x <~ c ;; k" := (mbind c (fun x => k))
  (at level 61, c at next level, right associativity).

(** The request with [validateStatus] applied: the response is returned
    when its status is 2xx and raised as an error otherwise. *)
Definition axios (url : string) : M (result axios_response) :=
  o <~ axios_head url ;;
  match o with
  | Responded r =>
      if (rs_status r >=? 200) && (rs_status r <? 300) then ret (Ok r)
      else ret (Throw (mkError "AxiosError"
                         ("Request failed with status code " ++ show (rs_status r))
                         (Some (if rs_status r <? 500
                                then "ERR_BAD_REQUEST" else "ERR_BAD_RESPONSE"))
                         (Some (rs_status r, rs_statusText r)) None))
  | Failed e => ret (Throw e)
  end.

(** The [try] block of [verifyPhotoAccessibility] once the response is there. *)
Definition check_response (response : axios_response) : result accessibility :=
  let contentType := rs_headers response "content-type" in
  if negb (option_truthy contentType)
     || negb (startsWith (match contentType with Some c => c | None => "" end) "image/")
  then Throw (Error ("Invalid content type: "
                     ++ match contentType with Some c => c | None => "undefined" end))
  else
    let contentLength :=
      parseInt_str (if option_truthy (rs_headers response "content-length")
                    then match rs_headers response "content-length" with
                         | Some l => l
                         | None => "0"
                         end
                    else "0") None in
    if num_eq contentLength (of_Z 0)
    then Throw (Error "Image file appears to be empty")
    else if lt contentLength (of_Z 1024) || gt contentLength (of_Z (10 * 1024 * 1024))
    then Throw (Error ("Image file size out of range: "
                       ++ numToString contentLength ++ " bytes"))
    else Ok (mkAccessibility true contentType contentLength
               (rs_headers response "last-modified") (rs_headers response "etag")
               None None "").

Definition verifyPhotoAccessibility (photoUrl : string) : M accessibility :=
  r <~ axios photoUrl ;;
  match (response <- r ;; check_response response) with
  | Ok a => ret a
  | Throw error =>
      match err_code error, err_response error with
      | Some "ECONNABORTED", _ =>
          ret (mkAccessibility false None NaN None None (Some "TIMEOUT") None
                 "Photo accessibility check timed out")
      | _, Some (status, statusText) =>
          ret (mkAccessibility false None NaN None None (Some "HTTP_ERROR") (Some status)
                 ("HTTP " ++ show status ++ ": " ++ statusText))
      | _, None =>
          ret (mkAccessibility false None NaN None None (Some "NETWORK_ERROR") None
                 (err_message error))
      end
  end.

Definition extractPhotoMetadata (photoUrl : string) : M metadata_result :=
  accessibilityCheck <~ verifyPhotoAccessibility photoUrl ;;
  if negb (ac_accessible accessibilityCheck)
  then
    let error := Error ("Photo not accessible: " ++ ac_message accessibilityCheck) in
    ret (mkMetadataResult false None (Some "METADATA_EXTRACTION_FAILED")
           (err_message error) (Some photoUrl))
  else
    timestamp <~ Date_toISOString ;;
    let contentType :=
      match ac_contentType accessibilityCheck with Some c => c | None => "" end in
    let format := detectImageFormat photoUrl in
    let dimensions :=
      if num_truthy (ac_contentLength accessibilityCheck)
         && option_truthy (ac_contentType accessibilityCheck)
      then Some (estimateDimensions (ac_contentLength accessibilityCheck) format)
      else None in
    let metadata :=
      mkMetadata photoUrl contentType (ac_contentLength accessibilityCheck)
        (ac_lastModified accessibilityCheck) format timestamp dimensions None in
    let metadata :=
      mkMetadata (md_url metadata) (md_contentType metadata) (md_fileSize metadata)
        (md_lastModified metadata) (md_format metadata) (md_timestamp metadata)
        (md_dimensions metadata) (Some (assessImageQuality metadata)) in
    ret (mkMetadataResult true (Some metadata) None "" None).

(** The body of the loop of [formatPhotosForAI] for one photo: the entry
    it pushes on [formattedPhotos], or the one it pushes on
    [processingErrors].  Nothing in it reaches the inner [catch]. *)
Definition process_photo (photo : validated_photo)
  : M (formatted_photo + processing_error) :=
  metadataResult <~ extractPhotoMetadata (originalUrl photo) ;;
  match mr_success metadataResult, mr_metadata metadataResult with
  | true, Some md =>
      now <~ Date_now ;;
      let q := match md_quality md with
               | Some q => q
               | None => mkQuality 0 [] false
               end in
      let notes := [] in
      let notes :=
        if score q <? 50
        then push notes "Low quality image - analysis may be limited"
        else notes in
      let notes :=
        if count (issues q) >? 0 then (notes ++ issues q)%list else notes in
      ret (inl (mkFormattedPhoto
                  ("photo_" ++ show now ++ "_" ++ show (index photo))
                  (originalUrl photo) "image_url" (md_format md) q
                  (md_dimensions md) (md_fileSize md) (md_contentType md)
                  (suitable q) notes))
  | _, _ =>
      ret (inr (mkProcessingError (originalUrl photo)
                  (match mr_error metadataResult with Some e => e | None => "" end)
                  (mr_message metadataResult)))
  end.

Definition format_one (photo : validated_photo)
    (acc : list formatted_photo * list processing_error)
  : M (list formatted_photo * list processing_error) :=
  let '(formattedPhotos, processingErrors) := acc in
  r <~ process_photo photo ;;
  match r with
  | inl formattedPhoto => ret (push formattedPhotos formattedPhoto, processingErrors)
  | inr failure => ret (formattedPhotos, push processingErrors failure)
  end.

Fixpoint format_each (photos : list validated_photo)
    (acc : list formatted_photo * list processing_error)
  : M (list formatted_photo * list processing_error) :=
  match photos with
  | [] => ret acc
  | photo :: r => acc' <~ format_one photo acc ;; format_each r acc'
  end.

Definition recommended (p : formatted_photo) : bool :=
  aiCompatible p && (score (fp_quality p) >=? 60).

Definition summarize (validatedPhotos : list validated_photo)
    (formattedPhotos : list formatted_photo)
    (processingErrors : list processing_error) : summary :=
  mkSummary
    (count validatedPhotos)
    (count formattedPhotos)
    (count processingErrors)
    (count (filter aiCompatible formattedPhotos))
    (if count formattedPhotos >? 0
     then Math_round_div
            (fold_left (fun sum p => sum + score (fp_quality p)) formattedPhotos 0)
            (count formattedPhotos)
     else 0)
    (count (filter recommended formattedPhotos)).

(** The argument is the array of photo objects that [validatePhotoUrls]
    builds; with it nothing reaches the outer [catch]. *)
Definition formatPhotosForAI (validatedPhotos : list validated_photo) : M format_result :=
  if count validatedPhotos =? 0 then
    ret (mkFormatResult false (Some "INVALID_INPUT")
           (Some "Validated photos array is required") [] None None None None)
  else
    acc <~ format_each validatedPhotos ([], []) ;;
    let '(formattedPhotos, processingErrors) := acc in
    let summary := summarize validatedPhotos formattedPhotos processingErrors in
    timestamp <~ Date_toISOString ;;
    ret (mkFormatResult true None None formattedPhotos (Some summary)
           (if count processingErrors >? 0 then Some processingErrors else None)
           (Some timestamp)
           (Some (recommendedForAnalysis summary >? 0))).

(** For the properties: whether the probe of each photo succeeds, in
    the world in which the loop reaches that photo. *)
Fixpoint accessible_flags (photos : list validated_photo) (w : World) : list bool :=
  match photos with
  | [] => []
  | photo :: r =>
      ac_accessible (fst (verifyPhotoAccessibility (originalUrl photo) w))
      :: accessible_flags r (snd (process_photo photo w))
  end.

(** The photos selected by a list of flags. *)
Fixpoint select {A} (keep : bool -> bool) (l : list A) (flags : list bool) : list A :=
  match l, flags with
  | x :: r, b :: bs => if keep b then x :: select keep r bs else select keep r bs
  | _, _ => []
  end.

End Network.

Arguments axios {World} axios_head url.
Arguments verifyPhotoAccessibility {World} axios_head photoUrl.
Arguments extractPhotoMetadata {World} axios_head Date_toISOString photoUrl.
Arguments process_photo {World} axios_head Date_now Date_toISOString photo.
Arguments format_one {World} axios_head Date_now Date_toISOString photo acc.
Arguments format_each {World} axios_head Date_now Date_toISOString photos acc.
Arguments formatPhotosForAI {World} axios_head Date_now Date_toISOString validatedPhotos.
Arguments accessible_flags {World} axios_head Date_now Date_toISOString photos w.

(** *** handlePhotoErrors *)

(** What reaches a [catch]: the error, with [error.config?.url] and
    [error.stack]. *)
Record caught := mkCaught {
  ct_error : error;
  ct_url : option string;
  ct_stack : option string
}.

(** The [details] of an error response. *)
Inductive details :=
| NoDetails                                     (* [null] *)
| Text (text : string)
| HttpDetails (statusCode : Z) (statusText : string) (url : option string)
| Origin (name : string) (stack : option string).

Record error_response := mkErrorResponse {
  er_success : bool;
  er_timestamp : string;
  er_module : string;
  er_error : string;
  er_message : string;
  er_details : details
}.

(** [error.code === c] *)
Definition code_is (e : error) (c : string) : bool :=
  match err_code e with
  | Some c' => c' ==? c
  | None => false
  end.

Section ErrorHandling.

Variable World : Type.
Variable Date_toISOString : World -> string * World.

(** [process.env.NODE_ENV] *)
Variable NODE_ENV : option string.

(** [console.error(label, errorResponse)] *)
Variable console_error : string -> error_response -> World -> World.

Definition development : bool :=
  match NODE_ENV with
  | Some env => env ==? "development"
  | None => false
  end.

Definition handlePhotoErrors (caught : caught) (w : World) : error_response * World :=
  let '(timestamp, w) := Date_toISOString w in
  let error := ct_error caught in
  let errorResponse :=
    mkErrorResponse false timestamp "photo-analyzer" "UNKNOWN_ERROR"
      "An unexpected error occurred during photo processing" NoDetails in
  let respond code message details :=
    mkErrorResponse (er_success errorResponse) (er_timestamp errorResponse)
      (er_module errorResponse) code message details in
  let errorResponse :=
    if code_is error "ECONNREFUSED" then
      respond "CONNECTION_REFUSED" "Unable to connect to photo URL"
        (Text "Check network connectivity and URL accessibility")
    else if code_is error "ENOTFOUND" then
      respond "URL_NOT_FOUND" "Photo URL domain not found"
        (Text "Verify the URL domain is correct and accessible")
    else if code_is error "ECONNABORTED" then
      respond "REQUEST_TIMEOUT" "Photo processing request timed out"
        (Text "Photo URL may be slow to respond or unavailable")
    else
      match err_response error with
      | Some (status, statusText) =>
          respond "HTTP_ERROR" ("HTTP " ++ show status ++ ": " ++ statusText)
            (HttpDetails status statusText (ct_url caught))
      | None =>
          if err_name error ==? "ValidationError" then
            respond "VALIDATION_ERROR" (err_message error)
              (Text "Input data validation failed")
          else if err_name error ==? "TypeError" then
            respond "TYPE_ERROR" "Invalid data type provided"
              (Text (err_message error))
          else
            respond (er_error errorResponse)
              (if err_message error ==? "" then "Unknown error occurred"
               else err_message error)
              (Origin (err_name error)
                 (if development then ct_stack caught else None))
      end in
  (errorResponse,
   if development then console_error "Photo Analyzer Error:" errorResponse w else w).

End ErrorHandling.

Arguments handlePhotoErrors {World} Date_toISOString NODE_ENV console_error caught w.

End PhotoAnalyzer.

(** ** data-validator.js *)

Module DataValidator.
Import Js.

(** The part of the Joi schema language that [validateAPIRequest] uses. *)
Inductive schema :=
| JString (alphanum : bool) (smin smax : option Z) (valid : option (list string))
| JArray (items : schema) (amax : option Z)
| JObject (keys : list (string * (schema * bool))).   (* key, schema, required *)

(** What [schema.validate(data)] returns: an object holding the value
    and, when the data does not fit the schema, the error. *)
Record joi_result := mkJoiResult {
  jr_value : value;
  jr_error : option string
}.

(** ToBoolean of that object: every object is truthy. *)
Definition joi_result_truthy (r : joi_result) : bool := true.

Definition api_schema : schema :=
  JObject
    [ ("userId", (JString true (Some 20) (Some 28) None, true));
      ("skinType", (JString false None None
                      (Some ["dry"; "oily"; "combination"; "sensitive"]), true));
      ("concerns", (JArray (JString false None (Some 50) None) (Some 5), true)) ].

Section Joi.

(** [schema.validate(data)]; the library is not part of the repository. *)
Variable Joi_validate : schema -> value -> joi_result.

Definition validateAPIRequest (data : value) : joi_result :=
  Joi_validate api_schema data.

End Joi.

(** A reading of [validate] under Joi's default options, for running the
    embedding: the first violation is reported, keys outside the schema
    are violations, and [undefined] fits every schema. *)
Definition is_alphanum (s : string) : bool :=
  forallb (fun c => match radix_digit c with Some _ => true | None => false end)
          (list_ascii_of_string s).

Definition first_error {A} (check : A -> option string) (l : list A) : option string :=
  fold_left (fun acc x => match acc with Some e => Some e | None => check x end) l None.

Fixpoint violation (sc : schema) (label : string) (v : value) : option string :=
  match sc, v with
  | _, VUndefined => None
  | JString alphanum smin smax valid, VStr s =>
      match valid with
      | Some al =>
          if existsb (String.eqb s) al then None
          else Some (label ++ " must be one of [" ++ join ", " al ++ "]")
      | None =>
          if s ==? "" then Some (label ++ " is not allowed to be empty")
          else if alphanum && negb (is_alphanum s)
          then Some (label ++ " must only contain alpha-numeric characters")
          else if match smin with Some n => str_length s <? n | None => false end
          then Some (label ++ " length is below the minimum")
          else if match smax with Some n => str_length s >? n | None => false end
          then Some (label ++ " length is above the maximum")
          else None
      end
  | JString _ _ _ _, _ => Some (label ++ " must be a string")
  | JArray items amax, VArr l =>
      match first_error (violation items (label ++ " item")) l with
      | Some e => Some e
      | None =>
          if match amax with Some n => Z.of_nat (List.length l) >? n | None => false end
          then Some (label ++ " must contain no more than the maximum of items")
          else None
      end
  | JArray _ _, _ => Some (label ++ " must be an array")
  | JObject keys, VObj fs =>
      match first_error
              (fun entry : string * (schema * bool) =>
                 let '(k, (sub, required)) := entry in
                 match lookup k fs with
                 | None | Some VUndefined =>
                     if required then Some (k ++ " is required") else None
                 | Some x => violation sub k x
                 end) keys with
      | Some e => Some e
      | None =>
          first_error
            (fun kv : string * value =>
               if existsb (fun entry : string * (schema * bool) => fst entry ==? fst kv) keys
               then None else Some (fst kv ++ " is not allowed")) fs
      end
  | JObject _, _ => Some (label ++ " must be of type object")
  end.

Definition joi_validate (sc : schema) (data : value) : joi_result :=
  mkJoiResult data (violation sc "value" data).

(** *** sanitizeUserInput *)

(** The [replace] of [sanitizeUserInput]: every double quote of [s]
    becomes [&quot;]. *)
Fixpoint replace_quotes (s : string) : string :=
  match s with
  | String c r =>
      if code c =? 34 then "&quot;" ++ replace_quotes r
      else String c (replace_quotes r)
  | EmptyString => EmptyString
  end.

Record sanitized := mkSanitized {
  stringInput : string;
  emailInput : value;
  urlInput : string
}.

(** [v || ''] *)
Definition or_empty (v : value) : value := if truthy v then v else VStr "".

Section Validator.

(** [validator.escape], [validator.normalizeEmail] and [validator.trim];
    the library is not part of the repository. *)
Variable validator_escape : value -> result string.
Variable validator_normalizeEmail : value -> result value.
Variable validator_trim : value -> result string.

Definition sanitizeUserInput (input : value) : result sanitized :=
  stringInput <- get_prop input "stringInput" ;;
  sanitized <- validator_escape (or_empty stringInput) ;;
  let sanitized := replace_quotes sanitized in
  emailInput <- get_prop input "emailInput" ;;
  emailInput <- validator_normalizeEmail (or_empty emailInput) ;;
  urlInput <- get_prop input "urlInput" ;;
  urlInput <- validator_trim (or_empty urlInput) ;;
  Ok (mkSanitized sanitized emailInput urlInput).

End Validator.

(** *** preventInjectionAttacks *)

Definition backslash : string := String (char_of 92) "".
Definition quote : string := String (char_of 34) "".

Definition hex_char (n : Z) : ascii :=
  if n <? 10 then char_of (48 + n) else char_of (87 + n).

(** QuoteJSONString, one code unit at a time. *)
Definition quote_char (c : ascii) : string :=
  let n := code c in
  if n =? 34 then backslash ++ quote
  else if n =? 92 then backslash ++ backslash
  else if n =? 8 then backslash ++ "b"
  else if n =? 12 then backslash ++ "f"
  else if n =? 10 then backslash ++ "n"
  else if n =? 13 then backslash ++ "r"
  else if n =? 9 then backslash ++ "t"
  else if n <? 32
  then backslash ++ "u00" ++ String (hex_char (n / 16)) (String (hex_char (n mod 16)) "")
  else String c "".

Fixpoint quote_body (s : string) : string :=
  match s with
  | String c r => quote_char c ++ quote_body r
  | EmptyString => EmptyString
  end.

Definition JSON_quote (s : string) : string := quote ++ quote_body s ++ quote.

(** [JSON.stringify(v)]; [None] stands for [undefined].  The fields of
    an object are taken in the order of the list, which is the order of
    enumeration for keys that are not array indices. *)
Fixpoint JSON_stringify (v : value) : option string :=
  match v with
  | VUndefined => None
  | VNull => Some "null"
  | VBool b => Some (if b then "true" else "false")
  | VNum x =>
      Some (match x with
            | Fin _ _ => numToString x
            | _ => "null"
            end)
  | VStr s => Some (JSON_quote s)
  | VArr items =>
      Some ("[" ++ join ","
                     (map (fun x => match JSON_stringify x with
                                    | Some t => t
                                    | None => "null"
                                    end) items)
            ++ "]")
  | VObj fields =>
      Some ("{" ++ join ","
                     (flat_map (fun kv => match JSON_stringify (snd kv) with
                                          | Some t => [JSON_quote (fst kv) ++ ":" ++ t]
                                          | None => []
                                          end) fields)
            ++ "}")
  end.

(** A word character of a regular expression without the [u] flag. *)
Definition is_word_char (c : ascii) : bool :=
  let n := code c in
  ((48 <=? n) && (n <=? 57)) || ((65 <=? n) && (n <=? 90))
  || ((97 <=? n) && (n <=? 122)) || (n =? 95).

(** [s] begins with [word], whatever the case of its letters; the rest
    of [s] is returned. *)
Fixpoint after_word (word s : string) : option string :=
  match word, s with
  | EmptyString, _ => Some s
  | String a word', String c s' =>
      if Ascii.eqb (lower_char c) a then after_word word' s' else None
  | String _ _, EmptyString => None
  end.

(** [\bword\b] at the start of [s], which [previous] precedes. *)
Definition whole_word (word : string) (previous : option ascii) (s : string) : bool :=
  negb (match previous with Some p => is_word_char p | None => false end)
  && match after_word word s with
     | Some (String next _) => negb (is_word_char next)
     | Some EmptyString => true
     | None => false
     end.

(** One of the alternatives of
    [/(\bSELECT\b|\bINSERT\b|\bDELETE\b|;|--)/gi] at the start of [s]. *)
Definition banned_here (previous : option ascii) (s : string) : bool :=
  whole_word "select" previous s || whole_word "insert" previous s
  || whole_word "delete" previous s
  || String.prefix ";" s || String.prefix "--" s.

(** [bannedPatterns.test(s)] on the fresh expression that each call
    evaluates: a match at some position of [s]. *)
Fixpoint banned_from (previous : option ascii) (s : string) : bool :=
  banned_here previous s
  || match s with
     | String c r => banned_from (Some c) r
     | EmptyString => false
     end.

Definition preventInjectionAttacks (input : value) : bool :=
  let text := match JSON_stringify input with
              | Some t => t
              | None => "undefined"
              end in
  negb (banned_from None text).

(** For the properties: [JSON.stringify] prints a string of [v] that
    satisfies [P], a property name or a value at any depth. *)
Inductive prints (P : string -> Prop) : value -> Prop :=
| prints_string (s : string) :
    P s -> prints P (VStr s)
| prints_item (items : list value) (x : value) :
    In x items -> prints P x -> prints P (VArr items)
| prints_key (fields : list (string * value)) (k : string) (x : value) :
    In (k, x) fields -> JSON_stringify x <> None -> P k ->
    prints P (VObj fields)
| prints_field (fields : list (string * value)) (k : string) (x : value) :
    In (k, x) fields -> prints P x -> prints P (VObj fields).

End DataValidator.

(** ** Calls that leave the process

    The server code runs against an abstract [World]; the calls it makes
    to its collaborators are recorded beside it, oldest first. *)

Module Effects.
Import Js.

Inductive call :=
| VerifyIdToken (idToken : string)
| GenerateRecommendations (userProfile photoAnalysis : value)
| OpenAIChatCompletion (prompt : string).

Record state (World : Type) := mkState {
  world : World;
  calls : list call
}.
Arguments mkState {World} world calls.
Arguments world {World} s.
Arguments calls {World} s.

Definition M (World A : Type) : Type := state World -> A * state World.

Definition ret {World A} (a : A) : M World A := fun s => (a, s).

Definition mbind {World A B} (c : M World A) (k : A -> M World B) : M World B :=
  fun s => let '(a, s') := c s in k a s'.

Notation "x <~ c ;; k" := (mbind c (fun x => k))
  (at level 61, c at next level, right associativity).

Definition record {World} (c : call) : M World unit :=
  fun s => (tt, mkState (world s) (push (calls s) c)).

Definition lift {World A} (f : World -> A * World) : M World A :=
  fun s => let '(a, w) := f (world s) in (a, mkState w (calls s)).

End Effects.

(** ** recommendation-engine.js *)

Module RecommendationEngine.
Import Js Effects.

Definition nl : string := String (char_of 10) "".
Definition dq : string := String (char_of 34) "".

(** [text.indexOf(c)] and [text.lastIndexOf(c)] for a single character. *)
Fixpoint indexOf (s : string) (c : ascii) : Z :=
  match s with
  | EmptyString => -1
  | String a r =>
      if Ascii.eqb a c then 0
      else let i := indexOf r c in if i <? 0 then -1 else i + 1
  end.

Fixpoint lastIndexOf (s : string) (c : ascii) : Z :=
  match s with
  | EmptyString => -1
  | String a r =>
      let i := lastIndexOf r c in
      if 0 <=? i then i + 1 else if Ascii.eqb a c then 0 else -1
  end.

(** [text.slice(from, to)] *)
Definition slice (s : string) (from to : Z) : string :=
  let len := str_length s in
  let clamp i := if i <? 0 then Z.max (len + i) 0 else Z.min i len in
  let a := clamp from in
  let b := clamp to in
  take (Z.to_nat (b - a)) (drop (Z.to_nat a) s).

Definition buildChainOfThoughtPrompt (profile photos : value) : result string :=
  skinType <- (v <- get_prop profile "skinType" ;; ToString v) ;;
  concerns <-
    (c <- get_prop profile "concerns" ;;
     match c with
     | VArr items => join_values ", " items
     | VUndefined =>
         Throw (TypeError "Cannot read properties of undefined (reading 'join')")
     | VNull =>
         Throw (TypeError "Cannot read properties of null (reading 'join')")
     | _ => Throw (TypeError "profile.concerns.join is not a function")
     end) ;;
  sensitivityLevel <- (v <- get_prop profile "sensitivityLevel" ;; ToString v) ;;
  ageGroup <- (v <- get_prop profile "ageGroup" ;; ToString v) ;;
  summary <-
    (v <- get_prop photos "summary" ;;
     if truthy v then ToString v else Ok "No significant findings detected") ;;
  Ok (nl
      ++ "  **User Profile Analysis**" ++ nl
      ++ "  Skin Type: " ++ skinType ++ nl
      ++ "  Primary Concerns: " ++ concerns ++ nl
      ++ "  Sensitivity Level: " ++ sensitivityLevel ++ nl
      ++ "  Age Group: " ++ ageGroup ++ nl
      ++ "  " ++ nl
      ++ "  **Photo Analysis**" ++ nl
      ++ "  " ++ summary ++ nl
      ++ "  " ++ nl
      ++ "  **Recommendation Steps**" ++ nl
      ++ "  1. Analyze skin type and concerns" ++ nl
      ++ "  2. Identify key ingredients to recommend" ++ nl
      ++ "  3. Suggest specific products from our approved list" ++ nl
      ++ "  4. Create morning/night routine" ++ nl
      ++ "  " ++ nl
      ++ "  **Required Output Format**" ++ nl
      ++ "  {" ++ nl
      ++ "    " ++ dq ++ "recommendations" ++ dq ++ ": [" ++ nl
      ++ "      {" ++ nl
      ++ "        " ++ dq ++ "category" ++ dq ++ ": "
                  ++ dq ++ "Cleanser|Moisturizer|Treatment" ++ dq ++ "," ++ nl
      ++ "        " ++ dq ++ "product" ++ dq ++ ": "
                  ++ dq ++ "Brand Name Product" ++ dq ++ "," ++ nl
      ++ "        " ++ dq ++ "ingredients" ++ dq ++ ": ["
                  ++ dq ++ "Hyaluronic Acid" ++ dq ++ ", "
                  ++ dq ++ "Niacinamide" ++ dq ++ "]," ++ nl
      ++ "        " ++ dq ++ "routine" ++ dq ++ ": "
                  ++ dq ++ "Morning|Night|Both" ++ dq ++ "," ++ nl
      ++ "        " ++ dq ++ "reasoning" ++ dq ++ ": "
                  ++ dq ++ "Explanation for this recommendation" ++ dq ++ nl
      ++ "      }" ++ nl
      ++ "    ]" ++ nl
      ++ "  }").

(** [handleAIError] never returns: this is the error it throws. *)
Definition handleAIError (err : error) : error :=
  match err_status err, err_code err with
  | Some 429, _ => Error "API_RATE_LIMIT: Please wait before making new requests"
  | _, Some "ETIMEDOUT" => Error "API_TIMEOUT: Response took too long"
  | _, _ => Error ("API_ERROR: " ++ err_message err)
  end.

Section Engine.

Variable World : Type.

(** [openai.chat.completions.create(...)] for the prompt, down to
    [response.choices[0].message.content]. *)
Variable openai_create : string -> World -> result string * World.

(** [JSON.parse] *)
Variable JSON_parse : string -> result value.

Definition parseAIResponse (responseText : string) : result value :=
  let attempt :=
    let jsonStart := indexOf responseText "{" in
    let jsonEnd := lastIndexOf responseText "}" + 1 in
    let cleanJson := slice responseText jsonStart jsonEnd in
    result <- JSON_parse cleanJson ;;
    recommendations <- get_prop result "recommendations" ;;
    if negb (truthy recommendations) || negb (isArray recommendations)
    then Throw (Error "Invalid response format from AI")
    else Ok result in
  match attempt with
  | Ok result => Ok result
  | Throw error => Throw (Error ("RESPONSE_PARSE_ERROR: " ++ err_message error))
  end.

Definition generateRecommendations (userProfile photoAnalysis : value)
  : M World (result value) :=
  _ <~ record (GenerateRecommendations userProfile photoAnalysis) ;;
  match buildChainOfThoughtPrompt userProfile photoAnalysis with
  | Throw error => ret (Throw (handleAIError error))
  | Ok prompt =>
      _ <~ record (OpenAIChatCompletion prompt) ;;
      response <~ lift (openai_create prompt) ;;
      match (content <- response ;; parseAIResponse content) with
      | Ok result => ret (Ok result)
      | Throw error => ret (Throw (handleAIError error))
      end
  end.

End Engine.

Arguments generateRecommendations {World} openai_create JSON_parse
  userProfile photoAnalysis.

End RecommendationEngine.

(** ** auth-middleware.js *)

Module AuthMiddleware.
Import Js Effects.

Record request := mkRequest {
  authorization : option string;          (* [req.headers.authorization] *)
  body : value;
  user : value
}.

Record response := mkResponse {
  status : Z;
  payload : value
}.

(** A middleware either hands the request on or ends it with a response. *)
Inductive outcome :=
| Next (req : request)
| Respond (res : response).

Record decoded_token := mkDecodedToken {
  uid : value;
  email : value;
  auth_time : value
}.

(** The text before the first occurrence of [sep] in [s]. *)
Fixpoint before (sep s : string) : string :=
  if String.prefix sep s then EmptyString
  else match s with
       | String c r => String c (before sep r)
       | EmptyString => EmptyString
       end.

(** [s.split(sep)[1]] for a string that starts with [sep]. *)
Definition split_second (s sep : string) : string :=
  before sep (drop (String.length sep) s).

Section Auth.

Variable World : Type.

(** [admin.auth().verifyIdToken(idToken)] *)
Variable verifyIdToken : string -> World -> result decoded_token * World.

Definition requireAuth (req : request) : M World outcome :=
  match authorization req with
  | Some authHeader =>
      if negb (startsWith authHeader "Bearer ")
      then ret (Respond (mkResponse 401
                           (VObj [("error", VStr "Missing Authorization header")])))
      else
        let idToken := trim (split_second authHeader "Bearer ") in
        _ <~ record (VerifyIdToken idToken) ;;
        r <~ lift (verifyIdToken idToken) ;;
        match r with
        | Ok decodedToken =>
            ret (Next (mkRequest (authorization req) (body req)
                         (VObj [("uid", uid decodedToken);
                                ("email", email decodedToken);
                                ("authTime", auth_time decodedToken)])))
        | Throw _ =>
            ret (Respond (mkResponse 401 (VObj [("error", VStr "Invalid token")])))
        end
  | None =>
      ret (Respond (mkResponse 401
                      (VObj [("error", VStr "Missing Authorization header")])))
  end.

End Auth.

Arguments requireAuth {World} verifyIdToken req.

End AuthMiddleware.

(** ** server.js *)

Module Server.
Import Js Effects AuthMiddleware.

(** The object [validatePhotoUrls] returns, as a value. *)
Definition photo_value (p : PhotoAnalyzer.validated_photo) : value :=
  VObj [("originalUrl", VStr (PhotoAnalyzer.originalUrl p));
        ("index", VNum (of_Z (PhotoAnalyzer.index p)));
        ("format", VStr (PhotoAnalyzer.format p))].

Definition url_error_value (e : PhotoAnalyzer.url_error) : value :=
  VObj [("index", VNum (of_Z (PhotoAnalyzer.ue_index e)));
        ("error", VStr (PhotoAnalyzer.ue_error e));
        ("message", VStr (PhotoAnalyzer.ue_message e))].

Definition optional {A} (k : string) (f : A -> value) (o : option A)
  : list (string * value) :=
  match o with
  | Some a => [(k, f a)]
  | None => []
  end.

Definition url_validation_value (r : PhotoAnalyzer.url_validation) : value :=
  VObj ([("success", VBool (PhotoAnalyzer.uv_success r))]
        ++ optional "error" VStr (PhotoAnalyzer.uv_error r)
        ++ optional "validatedUrls" (fun l => VArr (map photo_value l))
             (PhotoAnalyzer.uv_validatedUrls r)
        ++ optional "errors" (fun l => VArr (map url_error_value l))
             (PhotoAnalyzer.uv_errors r)
        ++ [("message", VStr (PhotoAnalyzer.uv_message r))])%list.

Section App.

Variable World : Type.
Variable verifyIdToken : string -> World -> result decoded_token * World.
Variable Joi_validate : DataValidator.schema -> value -> DataValidator.joi_result.
Variable isURL : string -> result bool.
Variable openai_create : string -> World -> result string * World.
Variable JSON_parse : string -> result value.

(** The second middleware of the route. *)
Definition validation (req : request) : outcome :=
  if DataValidator.joi_result_truthy
       (DataValidator.validateAPIRequest Joi_validate (body req))
  then Next req
  else Respond (mkResponse 400 (VObj [("error", VStr "INVALID_REQUEST")])).

(** The route handler; a rejected promise counts as a throw. *)
Definition handler (req : request) : M World response :=
  let inputs :=
    profileData <- get_prop (body req) "profileData" ;;
    questionnaireAnswers <- get_prop (body req) "questionnaireAnswers" ;;
    photos <- get_prop (body req) "photos" ;;
    processedProfile <-
      ProfileProcessor.processQuestionnaireAnswers questionnaireAnswers ;;
    let validatedPhotos := PhotoAnalyzer.validatePhotoUrls isURL photos in
    Ok (VObj [("profileData", profileData);
              ("processedAnswers", processedProfile);
              ("photos", url_validation_value validatedPhotos)]) in
  let failure := mkResponse 500 (VObj [("error", VStr "INTERNAL_ERROR")]) in
  match inputs with
  | Throw _ => ret failure
  | Ok userProfile =>
      r <~ RecommendationEngine.generateRecommendations
             openai_create JSON_parse userProfile VUndefined ;;
      match r with
      | Ok recommendations =>
          ret (mkResponse 200
                 (VObj [("success", VBool true);
                        ("recommendations", recommendations);
                        ("user", user req)]))
      | Throw _ => ret failure
      end
  end.

(** [app.post('/apirecommendations', requireAuth, validation, handler)] *)
Definition post_apirecommendations (req : request) : M World response :=
  o <~ requireAuth verifyIdToken req ;;
  match o with
  | Respond res => ret res
  | Next req =>
      match validation req with
      | Respond res => ret res
      | Next req => handler req
      end
  end.

End App.

Arguments handler {World} isURL openai_create JSON_parse req.
Arguments post_apirecommendations {World} verifyIdToken Joi_validate isURL
  openai_create JSON_parse req.

(** *** The middleware in front of the routes

    [app.use(cors())], [app.use(express.json())] and the logging
    middleware run before every route.  For a POST the first and the
    last hand the request on.  [express.json()] hands it on with
    [req.body] parsed, or ends it: a body that is not JSON is answered
    400 by express and the route is not reached.  The libraries are not
    part of the repository. *)

Section Middleware.

Variable World : Type.
Variable verifyIdToken : string -> World -> result decoded_token * World.
Variable Joi_validate : DataValidator.schema -> value -> DataValidator.joi_result.
Variable isURL : string -> result bool.
Variable openai_create : string -> World -> result string * World.
Variable JSON_parse : string -> result value.

(** A request as it arrives, its [authorization] header, and what
    [express.json()] makes of it: the parsed body, or the response that
    ends the request. *)
Variable Incoming : Type.
Variable headers_authorization : Incoming -> option string.
Variable express_json : Incoming -> value + response.

(** A POST to [/apirecommendations] as the application answers it;
    [req.user] is not set before [requireAuth]. *)
Definition app_post_apirecommendations (incoming : Incoming) : M World response :=
  match express_json incoming with
  | inr res => ret res
  | inl parsed =>
      post_apirecommendations verifyIdToken Joi_validate isURL openai_create
        JSON_parse (mkRequest (headers_authorization incoming) parsed VUndefined)
  end.

End Middleware.

Arguments app_post_apirecommendations {World} verifyIdToken Joi_validate isURL
  openai_create JSON_parse {Incoming} headers_authorization express_json incoming.

End Server.

(** ** The specification's own wording

    Definitions that follow the text of the specification, to be
    compared with the code above. *)

Module Spec.
Import Js PhotoAnalyzer.

(** "file size 100 KB-5 MB contributes +20 (else a penalty and an issue
    note for too-small/too-large)" *)
Definition size_points (fileSize : number) : Z :=
  if lt fileSize (of_Z 100000) then -10
  else if gt fileSize (of_Z 5000000) then -5
  else 20.

Definition size_issues (fileSize : number) : nat :=
  if lt fileSize (of_Z 100000) || gt fileSize (of_Z 5000000) then 1 else 0.

(** "estimated resolution >=800x600 contributes +25, >=300x300 but below
    that contributes +15, below 300 on either axis contributes -15 and an
    issue note" *)
Definition resolution_points (d : option dimensions) : Z :=
  match d with
  | None => 0
  | Some d =>
      if lt (width d) (of_Z 300) || lt (height d) (of_Z 300) then -15
      else if ge (width d) (of_Z 800) && ge (height d) (of_Z 600) then 25
      else 15
  end.

Definition resolution_issues (d : option dimensions) : nat :=
  match d with
  | None => 0
  | Some d => if lt (width d) (of_Z 300) || lt (height d) (of_Z 300) then 1 else 0
  end.

(** "format JPEG/PNG contributes +10, WebP +5, anything else -10 and an
    issue note" *)
Definition format_points (format : string) : Z :=
  if (format ==? "JPEG") || (format ==? "PNG") then 10
  else if format ==? "WebP" then 5
  else -10.

Definition format_issues (format : string) : nat :=
  if (format ==? "JPEG") || (format ==? "PNG") || (format ==? "WebP") then 0 else 1.

(** The raw (pre-clamp) score and the number of issues recorded. *)
Definition raw_score (m : metadata) : Z :=
  size_points (md_fileSize m) + resolution_points (md_dimensions m)
  + format_points (md_format m).

Definition issue_count (m : metadata) : nat :=
  size_issues (md_fileSize m) + resolution_issues (md_dimensions m)
  + format_issues (md_format m).

(** "compressionRatio is format-dependent: PNG=6, JPEG=10, WebP=12, default=10" *)
Definition compressionRatio (format : string) : Z :=
  if format ==? "PNG" then 6
  else if format ==? "JPEG" then 10
  else if format ==? "WebP" then 12
  else 10.

(** "estimatedPixels = fileSize x compressionRatio / 3, side =
    sqrt(estimatedPixels)", over the real numbers: the value of a finite
    number, rounding to the nearest integer (halves upward), and the
    rounded side. *)
Definition Rvalue (m e : Z) : R := (IZR m * powerRZ 10 e)%R.

Definition Rround (x : R) : Z := Int_part (x + / 2)%R.

Definition estimated_side (fileSize : number) (format : string) : number :=
  match fileSize with
  | Fin m e =>
      if m <? 0 then NaN
      else of_Z (Rround (sqrt (Rvalue m e * IZR (compressionRatio format) / 3)))
  | Inf false => Inf false
  | _ => NaN
  end.

(** "Each element is checked independently [...]: must be a non-empty
    string, must match a strict URL grammar [...], and must contain one
    of the allowed extensions (case-insensitive substring match)": what
    the element [url] at position [k] of the array stands for in the
    answer, the entry of a fit URL or the error of one that is not, with
    the name and the message the code gives it. *)
Definition allowed_extension (url : string) : bool :=
  existsb (fun extension => includes (toLowerCase url) extension)
    [".jpg"; ".jpeg"; ".png"; ".webp"].

Definition fit_entry (isURL : string -> result bool) (url : value) (k : Z)
    (v : validated_photo) : Prop :=
  exists u,
    url = VStr u
    /\ trim u <> ""
    /\ isURL (trim u) = Ok true
    /\ allowed_extension (trim u) = true
    /\ v = mkPhoto (trim u) k (detectImageFormat (trim u)).

Definition unfit_error (isURL : string -> result bool) (url : value) (k : Z)
    (e : url_error) : Prop :=
  exists name reason,
    e = mkUrlError k name ("Photo " ++ show (k + 1) ++ ": " ++ reason)
    /\ ((name = "INVALID_URL_FORMAT"
         /\ reason = "URL must be a non-empty string"
         /\ forall u, url = VStr u -> trim u = "")
        \/ exists u,
             url = VStr u
             /\ trim u <> ""
             /\ ((name = "VALIDATION_ERROR"
                  /\ exists thrown,
                       isURL (trim u) = Throw thrown
                       /\ reason = err_message thrown)
                 \/ (name = "MALFORMED_URL"
                     /\ reason = "URL format is invalid"
                     /\ isURL (trim u) = Ok false)
                 \/ (name = "UNSUPPORTED_FORMAT"
                     /\ reason = "Must be JPG, JPEG, PNG, or WebP format"
                     /\ isURL (trim u) = Ok true
                     /\ allowed_extension (trim u) = false))).

(** "Answer normalization is idempotent on already-normalized input":
    the vocabulary for normalized answers. *)

Fixpoint all_digits (s : string) : bool :=
  match s with
  | String c r => is_digit c && all_digits r
  | EmptyString => true
  end.

Definition not_digit_head (s : string) : Prop :=
  match s with
  | String c _ => is_digit c = false
  | EmptyString => True
  end.

(** A number in the form the parsers return it. *)
Definition canonical (x : number) : Prop :=
  match x with
  | Fin m e => (m = 0 /\ e = 0) \/ (m <> 0 /\ m mod 10 <> 0)
  | _ => True
  end.

(** A number that has no fractional part when it is finite (NaN and the
    infinities pass). *)
Definition integral (x : number) : Prop :=
  match x with
  | Fin _ e => 0 <= e
  | _ => True
  end.

(** Strictly between -10^21 and 10^21. *)
Definition below_1e21 (x : number) : bool :=
  lt x (of_Z (10 ^ 21)) && gt x (of_Z (- 10 ^ 21)).

(** [typeof v === 'object'] for a truthy [v]. *)
Definition is_object (v : value) : bool :=
  match v with
  | VArr _ | VObj _ => true
  | _ => false
  end.

Definition num_field (k : string) (out : value) : option number :=
  match get out k with
  | VNum x => Some x
  | _ => None
  end.

Definition str_field (k : string) (out : value) : option string :=
  match get out k with
  | VStr s => Some s
  | _ => None
  end.

Definition field_below_1e21 (k : string) (out : value) : Prop :=
  match num_field k out with
  | Some x => below_1e21 x = true
  | None => True
  end.

Definition entry {A} (k : string) (f : A -> value) (o : option A)
  : list (string * value) :=
  match o with
  | Some a => [(k, f a)]
  | None => []
  end.

(** A normalized record: the four keys in the order of assignment, each
    present or not. *)
Definition normalized (h : option number) (s : option string)
    (f t : option number) : value :=
  VObj (entry "hydration" VNum h ++ entry "sunExposure" VStr s
        ++ entry "sleepHours" VNum f ++ entry "stressLevel" VNum t)%list.

(** Where a field of the output comes from ... *)
Definition int_ok (o : option number) : Prop :=
  match o with
  | Some x => (exists s, x = parseInt_str s (Some 10)) /\ isNaN x = false
  | None => True
  end.

Definition float_ok (o : option number) : Prop :=
  match o with
  | Some x => (exists s, x = parseFloat_str s) /\ isNaN x = false
  | None => True
  end.

Definition str_ok (o : option string) : Prop :=
  match o with
  | Some y => exists s, y = toLowerCase s
  | None => True
  end.

(** ... and what makes it survive a second pass. *)
Definition int_rt (o : option number) : Prop :=
  match o with
  | Some x => parseInt_str (numToString x) (Some 10) = x /\ isNaN x = false
  | None => True
  end.

Definition float_rt (o : option number) : Prop :=
  match o with
  | Some x => parseFloat_str (numToString x) = x /\ isNaN x = false
  | None => True
  end.

Definition str_rt (o : option string) : Prop :=
  match o with
  | Some y => toLowerCase y = y
  | None => True
  end.

End Spec.

Import Js.

(** ** Sample collaborators

    Concrete worlds and collaborators on which the embedding runs. *)

(** A world for running the pipeline: three photos, the second of which
    answers 404. *)
Definition sample_headers (contentType contentLength key : string) : option string :=
  if key ==? "content-type" then Some contentType
  else if key ==? "content-length" then Some contentLength
  else None.

Definition sample_axios_head (url : string) (w : nat)
  : PhotoAnalyzer.axios_outcome * nat :=
  (if includes url "missing"
   then PhotoAnalyzer.Responded
          (PhotoAnalyzer.mkResponse 404 "Not Found" (fun _ => None))
   else PhotoAnalyzer.Responded
          (PhotoAnalyzer.mkResponse 200 "OK" (sample_headers "image/jpeg" "2000000")),
   S w).

Definition sample_now (w : nat) : Z * nat := (1700000000000 + Z.of_nat w, S w).

Definition sample_iso (w : nat) : string * nat := ("2024-01-01T00:00:00.000Z", S w).

Definition sample_photos : list PhotoAnalyzer.validated_photo :=
  [ PhotoAnalyzer.mkPhoto "https://cdn.example.com/face.jpg" 0 "JPEG";
    PhotoAnalyzer.mkPhoto "https://cdn.example.com/missing.png" 1 "PNG";
    PhotoAnalyzer.mkPhoto "https://cdn.example.com/cheek.jpg" 2 "JPEG" ].

(** Collaborators for running the route: one accepted token, the reading
    of Joi above, and an engine that would answer with an empty list. *)
Definition sample_verifyIdToken (idToken : string) (w : unit)
  : result AuthMiddleware.decoded_token * unit :=
  (if idToken ==? "good-token"
   then Ok (AuthMiddleware.mkDecodedToken (VStr "user-1") (VStr "ann@example.com")
              (VNum (of_Z 1700000000)))
   else Throw (Error "Decoding Firebase ID token failed"), w).

Definition sample_isURL (url : string) : result bool :=
  Ok (startsWith url "https://").

Definition sample_openai_create (prompt : string) (w : unit) : result string * unit :=
  (Ok "{}", w).

Definition sample_JSON_parse (text : string) : result value :=
  Ok (VObj [("recommendations", VArr [])]).

(** A network that is down, a console and a Firestore that accepts every
    write, for running the error handlers and the profile store. *)
Definition sample_timeout : error :=
  mkError "AxiosError" "timeout of 5000ms exceeded" (Some "ECONNABORTED") None None.

Definition sample_axios_down (url : string) (w : nat)
  : PhotoAnalyzer.axios_outcome * nat :=
  (PhotoAnalyzer.Failed sample_timeout, S w).

Definition sample_console_error {A} (label : string) (what : A) (w : nat) : nat := S w.

Definition sample_profiles_set (id data : value) (w : nat)
  : (unit + ProfileProcessor.firestore_error) * nat :=
  (inl tt, S w).

Definition sample_profiles_get (id : string) (w : nat)
  : (option value + ProfileProcessor.firestore_error) * nat :=
  (inl None, S w).

(** A photo whose size the server does not tell. *)
Definition sample_axios_unsized (url : string) (w : nat)
  : PhotoAnalyzer.axios_outcome * nat :=
  (PhotoAnalyzer.Responded
     (PhotoAnalyzer.mkResponse 200 "OK" (sample_headers "image/png" "unknown")),
   S w).

(** Validator functions that insist on strings and change nothing. *)
Definition sample_string (v : value) : result string :=
  match v with
  | VStr s => Ok s
  | _ => Throw (TypeError "Expected a string")
  end.

Definition sample_normalizeEmail (v : value) : result value :=
  s <- sample_string v ;; Ok (VStr s).

(* ===================================================================== *)
(** * Part II: properties                                                *)
(* ===================================================================== *)

(** ** Quality scoring *)

Section QualityScoring.
Import PhotoAnalyzer.

Lemma raw_quality_score (m : metadata) :
  score (raw_quality m) = Spec.raw_score m.
Proof.
  unfold raw_quality, Spec.raw_score, check_format, check_dimensions,
    check_file_size, Spec.size_points, Spec.resolution_points, Spec.format_points.
  destruct (lt (md_fileSize m) (of_Z 100000));
    [| destruct (gt (md_fileSize m) (of_Z 5000000))];
    (destruct (md_dimensions m) as [d|];
     [ destruct (lt (width d) (of_Z 300) || lt (height d) (of_Z 300));
       [| destruct (ge (width d) (of_Z 800) && ge (height d) (of_Z 600))] | ]);
    (destruct ((md_format m ==? "JPEG") || (md_format m ==? "PNG"));
     [| destruct (md_format m ==? "WebP")]);
    cbn; lia.
Qed.

Lemma raw_quality_issues (m : metadata) :
  List.length (issues (raw_quality m)) = Spec.issue_count m.
Proof.
  unfold raw_quality, Spec.issue_count, check_format, check_dimensions,
    check_file_size, Spec.size_issues, Spec.resolution_issues, Spec.format_issues.
  destruct (lt (md_fileSize m) (of_Z 100000));
    [| destruct (gt (md_fileSize m) (of_Z 5000000))];
    (destruct (md_dimensions m) as [d|];
     [ destruct (lt (width d) (of_Z 300) || lt (height d) (of_Z 300));
       [| destruct (ge (width d) (of_Z 800) && ge (height d) (of_Z 600))] | ]);
    (destruct (md_format m ==? "JPEG"); destruct (md_format m ==? "PNG");
     destruct (md_format m ==? "WebP"));
    reflexivity.
Qed.

(** C4: [suitable] is true exactly when the raw, pre-clamp score is at
    least 30 and fewer than 3 issues were recorded, whereas the reported
    score is the raw score plus 50 clamped to [0, 100].  The raw score
    and the issues are those of the specification's scoring table. *)
Theorem assessImageQuality_suitable_raw_score_clamped (m : metadata) :
  let raw := raw_quality m in
  let q := assessImageQuality m in
  (suitable q = true <-> 30 <= score raw /\ (List.length (issues raw) < 3)%nat)
  /\ score q = Z.max 0 (Z.min 100 (score raw + 50))
  /\ issues q = issues raw
  /\ score raw = Spec.raw_score m
  /\ List.length (issues raw) = Spec.issue_count m.
Proof.
  cbv zeta. unfold assessImageQuality; cbn [suitable score issues].
  split; [| split; [| split; [| split]]]; try reflexivity.
  - unfold count. rewrite andb_true_iff, Z.geb_le, Z.ltb_lt. lia.
  - apply raw_quality_score.
  - apply raw_quality_issues.
Qed.

(** C5: the two worked examples of the specification. *)
Theorem assessImageQuality_worked_examples
    (url contentType timestamp : string) (lastModified : option string) :
  let photo fileSize side1 side2 format :=
    mkMetadata url contentType (of_Z fileSize) lastModified format timestamp
      (Some (mkDimensions (of_Z side1) (of_Z side2) "1.00" true)) None in
  let good := photo 2000000 1000 800 "JPEG" in
  let poor := photo 50000 200 200 "UNKNOWN" in
  (score (raw_quality good) = 20 + 25 + 10
   /\ score (assessImageQuality good) = 100
   /\ suitable (assessImageQuality good) = true)
  /\ (score (raw_quality poor) = - 10 - 15 - 10
      /\ score (assessImageQuality poor) = 15
      /\ suitable (assessImageQuality poor) = false).
Proof.
  cbv zeta. repeat split; vm_compute; reflexivity.
Qed.

End QualityScoring.

(** ** Photo URL validation *)

Section UrlValidation.
Import PhotoAnalyzer.
Variable isURL : string -> result bool.

(** C9: a value that is not an array is rejected with INVALID_INPUT, the
    empty array with EMPTY_ARRAY, and every array of more than 5 elements
    with TOO_MANY_PHOTOS, whatever its elements are. *)
Theorem validatePhotoUrls_rejects_by_shape (photoUrls : value) :
  let r := validatePhotoUrls isURL photoUrls in
  (isArray photoUrls = false ->
   uv_success r = false /\ uv_error r = Some "INVALID_INPUT")
  /\ (photoUrls = VArr [] ->
      uv_success r = false /\ uv_error r = Some "EMPTY_ARRAY")
  /\ (forall urls, photoUrls = VArr urls -> (5 < List.length urls)%nat ->
      uv_success r = false /\ uv_error r = Some "TOO_MANY_PHOTOS").
Proof.
  cbv zeta. split; [| split].
  - destruct photoUrls; cbn; intros; try discriminate; split; reflexivity.
  - intros ->. split; reflexivity.
  - intros urls -> Hlen. unfold validatePhotoUrls, count.
    destruct (Z.of_nat (List.length urls) =? 0) eqn:E0; [lia |].
    destruct (Z.of_nat (List.length urls) >? 5) eqn:E5.
    + split; reflexivity.
    + rewrite Z.gtb_ltb in E5. apply Z.ltb_ge in E5. lia.
Qed.

End UrlValidation.

(** Six URLs, valid or not, an empty array and a non-array. *)
Lemma validatePhotoUrls_rejects_by_shape_witness :
  let isURL := fun s : string => Ok (startsWith s "https://") in
  let six := VArr [VStr "https://a.example.com/1.jpg"; VStr "not a url"; VNull;
                   VStr "https://a.example.com/4.png"; VStr "";
                   VStr "https://a.example.com/6.webp"] in
  PhotoAnalyzer.uv_error (PhotoAnalyzer.validatePhotoUrls isURL six)
    = Some "TOO_MANY_PHOTOS"
  /\ PhotoAnalyzer.uv_error (PhotoAnalyzer.validatePhotoUrls isURL (VArr []))
     = Some "EMPTY_ARRAY"
  /\ PhotoAnalyzer.uv_error (PhotoAnalyzer.validatePhotoUrls isURL (VStr "https://a.example.com/1.jpg"))
     = Some "INVALID_INPUT".
Proof.
  intros isURL six. split; [| split].
  - apply (proj2 (proj2 (validatePhotoUrls_rejects_by_shape isURL six)) _ eq_refl).
    cbn. lia.
  - apply (proj1 (proj2 (validatePhotoUrls_rejects_by_shape isURL (VArr []))) eq_refl).
  - apply (proj1 (validatePhotoUrls_rejects_by_shape isURL (VStr "https://a.example.com/1.jpg")) eq_refl).
Defined.

(** ** Formatting photos for the recommendation engine *)

Section PhotoFormatting.
Import PhotoAnalyzer.

Variable World : Type.
Variable axios_head : string -> World -> axios_outcome * World.
Variable Date_now : World -> Z * World.
Variable Date_toISOString : World -> string * World.

Local Abbreviation probe := (verifyPhotoAccessibility axios_head).
Local Abbreviation process := (process_photo axios_head Date_now Date_toISOString).
Local Abbreviation flags := (accessible_flags axios_head Date_now Date_toISOString).
Local Abbreviation each := (format_each axios_head Date_now Date_toISOString).

(** A photo yields a formatted entry when its probe succeeds and an
    error entry when it fails; either entry carries the photo's URL. *)
Lemma process_photo_outcome (photo : validated_photo) (w : World) :
  match fst (process photo w) with
  | inl formatted =>
      ac_accessible (fst (probe (originalUrl photo) w)) = true
      /\ fp_url formatted = originalUrl photo
  | inr failure =>
      ac_accessible (fst (probe (originalUrl photo) w)) = false
      /\ pe_url failure = originalUrl photo
  end.
Proof.
  unfold process_photo, extractPhotoMetadata, mbind, ret.
  destruct (probe (originalUrl photo) w) as [a w1]; cbn.
  destruct (ac_accessible a); cbn.
  - destruct (Date_toISOString w1) as [t w2]; cbn.
    destruct (Date_now w2) as [n w3]; cbn. split; reflexivity.
  - split; reflexivity.
Qed.

(** The loop appends, in order, one formatted entry per accessible photo
    and one error entry per inaccessible photo: a failure does not stop
    the photos after it from being processed. *)
Lemma format_each_partitions (photos : list validated_photo) :
  forall formatted failures w,
  exists F E,
    fst (each photos (formatted, failures) w)
      = ((formatted ++ F)%list, (failures ++ E)%list)
    /\ map fp_url F = map originalUrl (select (fun b => b) photos (flags photos w))
    /\ map pe_url E = map originalUrl (select negb photos (flags photos w)).
Proof.
  induction photos as [| photo rest IH]; intros formatted failures w.
  - exists [], []. cbn. rewrite !app_nil_r. auto.
  - cbn [format_each accessible_flags select].
    unfold mbind at 1. unfold format_one at 1. unfold mbind at 1.
    pose proof (process_photo_outcome photo w) as Hout.
    destruct (process photo w) as [[f | e] w'] eqn:Hp; cbn [fst snd] in *;
      destruct Hout as [Hacc Hurl]; rewrite Hacc; unfold ret; cbn [negb].
    + destruct (IH (push formatted f) failures w') as (F & E & Heq & HF & HE).
      exists (f :: F), E. rewrite Heq. unfold push. rewrite <- app_assoc.
      cbn. rewrite Hurl, HF. auto.
    + destruct (IH formatted (push failures e) w') as (F & E & Heq & HF & HE).
      exists F, (e :: E). rewrite Heq. unfold push. rewrite <- app_assoc.
      cbn. rewrite Hurl, HE. auto.
Qed.

Lemma select_length_true {A} (l : list A) :
  forall bs, List.length l = List.length bs ->
  List.length (select (fun b => b) l bs) = List.length (filter (fun b => b) bs).
Proof.
  induction l as [| x r IH]; intros [| b bs] H; cbn in *; try discriminate; auto.
  destruct b; cbn; auto.
Qed.

Lemma select_length_false {A} (l : list A) :
  forall bs, List.length l = List.length bs ->
  List.length (select negb l bs) = List.length (filter negb bs).
Proof.
  induction l as [| x r IH]; intros [| b bs] H; cbn in *; try discriminate; auto.
  destruct b; cbn; auto.
Qed.

Lemma flags_length (photos : list validated_photo) :
  forall w, List.length (flags photos w) = List.length photos.
Proof.
  induction photos as [| p r IH]; intros w; cbn; auto.
Qed.

Lemma filter_partition_length (bs : list bool) :
  (List.length (filter (fun b => b) bs) + List.length (filter negb bs))%nat
  = List.length bs.
Proof.
  induction bs as [| [] bs IH]; cbn; lia.
Qed.

Lemma count_filter_positive {A} (f : A -> bool) (l : list A) :
  (count (filter f l) >? 0) = existsb f l.
Proof.
  unfold count. induction l as [| x r IH]; cbn; [reflexivity |].
  destruct (f x); cbn [List.length orb]; [| exact IH].
  rewrite Z.gtb_ltb. apply Z.ltb_lt. lia.
Qed.

(** What [formatPhotosForAI] returns for a non-empty list of photos, in
    terms of the outcome of the probes. *)
Lemma formatPhotosForAI_outcome (photos : list validated_photo) (w : World) :
  photos <> [] ->
  let r := fst (formatPhotosForAI axios_head Date_now Date_toISOString photos w) in
  let passed := List.length (filter (fun b => b) (flags photos w)) in
  let failed := List.length (filter negb (flags photos w)) in
  fr_success r = true
  /\ map fp_url (fr_photos r)
     = map originalUrl (select (fun b => b) photos (flags photos w))
  /\ List.length (fr_photos r) = passed
  /\ (exists E,
        fr_processingErrors r = (if (0 <? failed)%nat then Some E else None)
        /\ List.length E = failed
        /\ map pe_url E = map originalUrl (select negb photos (flags photos w)))
  /\ fr_summary r
     = Some (summarize photos (fr_photos r)
               (match fr_processingErrors r with Some E => E | None => [] end))
  /\ (exists s, fr_summary r = Some s
        /\ totalPhotos s = count photos
        /\ processedPhotos s = Z.of_nat passed
        /\ failedPhotos s = Z.of_nat failed)
  /\ readyForAI r = Some (existsb recommended (fr_photos r)).
Proof.
  intros Hne. cbv zeta. unfold formatPhotosForAI.
  destruct (count photos =? 0) eqn:E0.
  { destruct photos; [congruence | unfold count in E0; cbn in E0; lia]. }
  unfold mbind.
  destruct (format_each_partitions photos [] [] w) as (F & E & Heq & HF & HE).
  destruct (each photos ([], []) w) as [[fs es] w1]. cbn in Heq.
  injection Heq as -> ->.
  destruct (Date_toISOString w1) as [t w2]. cbn [fst ret].
  cbn [fr_success fr_photos fr_processingErrors fr_summary readyForAI].
  assert (HlF : List.length F = List.length (filter (fun b => b) (flags photos w))).
  { rewrite <- (length_map fp_url), HF, length_map.
    apply select_length_true. now rewrite flags_length. }
  assert (HlE : List.length E = List.length (filter negb (flags photos w))).
  { rewrite <- (length_map pe_url), HE, length_map.
    apply select_length_false. now rewrite flags_length. }
  assert (Hsel : (if count E >? 0 then Some E else None)
                 = (if (0 <? List.length (filter negb (flags photos w)))%nat
                    then Some E else None)).
  { rewrite <- HlE. unfold count. destruct E; reflexivity. }
  repeat split; auto.
  - exists E. auto.
  - do 2 f_equal. unfold count. destruct E; reflexivity.
  - eexists. split; [reflexivity |]. cbn. unfold count. rewrite HlF, HlE. auto.
  - cbn [recommendedForAnalysis summarize]. now rewrite count_filter_positive.
Qed.

(** C6: of three validated photos of which exactly one fails its
    accessibility probe, the other two are still processed; the summary
    counts 2 processed and 1 failed, the failure sits alone in the
    separate error list, and [readyForAI] is decided by the two
    successful entries only: true exactly when one of them is
    AI-compatible with a score of at least 60. *)
Theorem formatPhotosForAI_isolates_failed_probe
    (photos : list validated_photo) (w : World) :
  List.length photos = 3%nat ->
  List.length (filter negb (flags photos w)) = 1%nat ->
  let r := fst (formatPhotosForAI axios_head Date_now Date_toISOString photos w) in
  fr_success r = true
  /\ List.length (fr_photos r) = 2%nat
  /\ map fp_url (fr_photos r)
     = map originalUrl (select (fun b => b) photos (flags photos w))
  /\ (exists failure,
        fr_processingErrors r = Some [failure]
        /\ [pe_url failure] = map originalUrl (select negb photos (flags photos w)))
  /\ (exists s, fr_summary r = Some s
        /\ totalPhotos s = 3 /\ processedPhotos s = 2 /\ failedPhotos s = 1)
  /\ readyForAI r
     = Some (existsb (fun p => aiCompatible p && (score (fp_quality p) >=? 60))
               (fr_photos r)).
Proof.
  intros Hlen Hfail.
  assert (Hne : photos <> []) by (destruct photos; [discriminate | congruence]).
  pose proof (formatPhotosForAI_outcome photos w Hne) as H. cbv zeta in H |- *.
  destruct H as (Hs & Hurls & Hpassed & (E & HE & HlE & HEurls) & _ & Hsum & Hready).
  pose proof (filter_partition_length (flags photos w)) as Hpart.
  rewrite flags_length, Hlen, Hfail in Hpart.
  rewrite Hfail in HE, HlE. cbn in HE.
  repeat split; auto.
  - lia.
  - destruct E as [| e [| e' E']]; cbn in HlE; try discriminate.
    exists e. split; [exact HE | exact HEurls].
  - destruct Hsum as (s & Hs' & Ht & Hp & Hf). exists s.
    unfold count in Ht. rewrite Hlen in Ht. rewrite Hfail in Hf.
    repeat split; auto; lia.
Qed.

(** C10: when the list is not empty and every probe fails, the call
    still succeeds, with an average quality and a recommended count of 0
    and [readyForAI] false. *)
Theorem formatPhotosForAI_no_photo_processed
    (photos : list validated_photo) (w : World) :
  photos <> [] ->
  forallb negb (flags photos w) = true ->
  let r := fst (formatPhotosForAI axios_head Date_now Date_toISOString photos w) in
  fr_success r = true
  /\ fr_photos r = []
  /\ (exists s, fr_summary r = Some s
        /\ processedPhotos s = 0
        /\ averageQuality s = 0
        /\ recommendedForAnalysis s = 0)
  /\ readyForAI r = Some false.
Proof.
  intros Hne Hall.
  pose proof (formatPhotosForAI_outcome photos w Hne) as H. cbv zeta in H |- *.
  destruct H as (Hs & _ & Hpassed & _ & Hsum & _ & Hready).
  assert (Hnone : filter (fun b => b) (flags photos w) = []).
  { revert Hall. generalize (flags photos w) as bs.
    induction bs as [| [] bs IH]; cbn; intros; [reflexivity | discriminate | auto]. }
  rewrite Hnone in Hpassed.
  assert (Hnil : fr_photos
                   (fst (formatPhotosForAI axios_head Date_now Date_toISOString photos w))
                 = []).
  { now apply length_zero_iff_nil. }
  rewrite Hnil in Hsum, Hready.
  repeat split; auto.
  eexists. split; [exact Hsum |]. repeat split; reflexivity.
Qed.

End PhotoFormatting.

Lemma formatPhotosForAI_isolates_failed_probe_witness :
  let r := fst (PhotoAnalyzer.formatPhotosForAI sample_axios_head sample_now
                  sample_iso sample_photos 0%nat) in
  List.length (PhotoAnalyzer.fr_photos r) = 2%nat
  /\ map PhotoAnalyzer.fp_url (PhotoAnalyzer.fr_photos r)
     = ["https://cdn.example.com/face.jpg"; "https://cdn.example.com/cheek.jpg"].
Proof.
  pose proof (formatPhotosForAI_isolates_failed_probe nat sample_axios_head
                sample_now sample_iso sample_photos 0%nat eq_refl eq_refl) as H.
  cbv zeta in H. destruct H as (_ & Hlen & Hurls & _).
  split; [exact Hlen | exact Hurls].
Defined.

Lemma formatPhotosForAI_no_photo_processed_witness :
  let photos := [ PhotoAnalyzer.mkPhoto "https://cdn.example.com/missing.png" 0 "PNG";
                  PhotoAnalyzer.mkPhoto "https://cdn.example.com/missing.jpg" 1 "JPEG" ] in
  let r := fst (PhotoAnalyzer.formatPhotosForAI sample_axios_head sample_now
                  sample_iso photos 0%nat) in
  PhotoAnalyzer.fr_success r = true /\ PhotoAnalyzer.readyForAI r = Some false.
Proof.
  intros photos.
  assert (Hne : photos <> []) by discriminate.
  pose proof (formatPhotosForAI_no_photo_processed nat sample_axios_head
                sample_now sample_iso photos 0%nat Hne eq_refl) as H.
  cbv zeta in H. destruct H as (Hs & _ & _ & Hr).
  split; [exact Hs | exact Hr].
Defined.

(** ** Profile validation *)

Section ProfileValidation.
Import ProfileProcessor.

Local Abbreviation about_age := (String.prefix "Field age ").

Lemma filter_push (f : string -> bool) (errors : list string) (m : string) :
  filter f (push errors m) = (filter f errors ++ (if f m then [m] else []))%list.
Proof.
  unfold push. rewrite filter_app. reflexivity.
Qed.

Lemma Ok_inj {A} (a b : A) : Ok a = Ok b -> a = b.
Proof.
  intros [=]. assumption.
Qed.

Lemma bind_Ok {A B} (r : result A) (k : A -> result B) (b : B) :
  (x <- r ;; k x) = Ok b -> exists a, r = Ok a /\ k a = Ok b.
Proof.
  destruct r as [a | e]; cbn; [eauto | discriminate].
Qed.

(** The checks of a field other than [age] add no message about [age]. *)
Lemma check_field_other (profileData : value) (f : field) (errors r : list string) :
  In f requiredFields -> key f <> "age" ->
  check_field profileData f errors = Ok r ->
  filter about_age r = filter about_age errors.
Proof.
  intros Hin Hkey. unfold check_field.
  destruct (is_missing (get profileData (key f))).
  - cbn in Hin.
    destruct Hin as [<- | [<- | [<- | [<- | [<- | []]]]]];
      try (exfalso; apply Hkey; reflexivity);
      intros [= <-]; rewrite filter_push; cbn; apply app_nil_r.
  - intros H. apply bind_Ok in H. destruct H as (e3 & Harr & [= <-]).
    unfold check_min_length, check_allowed.
    unfold check_array in Harr. unfold check_number, check_string in Harr.
    cbn in Hin.
    destruct Hin as [<- | [<- | [<- | [<- | [<- | []]]]]];
      try (exfalso; apply Hkey; reflexivity);
      cbn [key type minLength min max allowed isArrayField String.eqb Ascii.eqb
           Bool.eqb andb negb] in *.
    + injection Harr as <-.
      destruct (get profileData "name") as [ | | | | s | | ];
        cbn [typeof String.eqb Ascii.eqb Bool.eqb andb negb];
        try (rewrite filter_push; cbn; apply app_nil_r).
      destruct (negb (1 =? 0) && (str_length s <? 1));
        [rewrite filter_push; cbn; apply app_nil_r | reflexivity].
    + injection Harr as <-.
      match goal with
      | |- context [if ?c then _ else _] => destruct c
      end; [rewrite filter_push; cbn |];
      match goal with
      | |- context [if ?c then _ else _] => destruct c
      end; rewrite ?filter_push; cbn; rewrite ?app_nil_r; reflexivity.
    + destruct (get profileData "concerns") as [ | | | | | items | ];
        try (injection Harr as <-; rewrite filter_push; cbn; apply app_nil_r).
      destruct (filter _ items) as [| v invalid].
      * injection Harr as <-. reflexivity.
      * apply bind_Ok in Harr. destruct Harr as (s & _ & [= <-]).
        rewrite filter_push. cbn. apply app_nil_r.
    + injection Harr as <-.
      destruct (get profileData "location") as [ | | | | s | | ];
        cbn [typeof String.eqb Ascii.eqb Bool.eqb andb negb];
        try (rewrite filter_push; cbn; apply app_nil_r).
      destruct (negb (2 =? 0) && (str_length s <? 2));
        [rewrite filter_push; cbn; apply app_nil_r | reflexivity].
Qed.

Local Abbreviation not_a_number := "Field age must be a number.".
Local Abbreviation below_min := "Field age must be at least 13.".
Local Abbreviation above_max := "Field age must be at most 120.".

(** The checks of [age] add either the type error alone or no type error. *)
Lemma check_field_age (profileData : value) (errors r : list string) :
  check_field profileData
    (mkField "age" "number" None (Some 13) (Some 120) None false) errors = Ok r ->
  exists added,
    filter about_age r = (filter about_age errors ++ added)%list
    /\ (added = [not_a_number] \/ ~ In not_a_number added).
Proof.
  unfold check_field. cbn [key].
  destruct (is_missing (get profileData "age")).
  - intros [= <-]. rewrite filter_push. cbn. exists []. split; auto.
  - unfold check_min_length, check_allowed, check_array, check_number, check_string.
    cbn [key type minLength min max allowed isArrayField String.eqb Ascii.eqb
         Bool.eqb andb negb bind].
    replace (show 13) with "13" by reflexivity.
    replace (show 120) with "120" by reflexivity.
    intros H; apply Ok_inj in H; subst r.
    destruct (get profileData "age") as [ | | | x | | | ];
      try (rewrite filter_push; exists [not_a_number]; split;
           [reflexivity | left; reflexivity]).
    generalize (isNaN x), (lt x (of_Z 13)), (gt x (of_Z 120)).
    intros [|] small large.
    + rewrite filter_push; exists [not_a_number]; split;
        [reflexivity | left; reflexivity].
    + destruct small, large; rewrite ?filter_push, <- ?app_assoc;
        [ exists [below_min; above_max] | exists [below_min]
        | exists [above_max] | exists [] ];
        rewrite ?app_nil_r;
        (split; [reflexivity | right; cbn; intuition discriminate]).
Qed.

(** Over a whole run, the messages about [age] are the type error alone,
    or do not include it. *)
Lemma age_messages (profileData : value) (errors : list string) :
  validateProfileData profileData = Ok (Invalid errors) ->
  filter about_age errors = [not_a_number]
  \/ ~ In not_a_number (filter about_age errors).
Proof.
  unfold validateProfileData.
  destruct (negb (truthy profileData) || negb (typeof profileData ==? "object")).
  { intros [= <-]. right. cbn. tauto. }
  intros H. apply bind_Ok in H. destruct H as (all & Hall & Hres).
  assert (all = errors) as -> by (destruct all; [discriminate | congruence]).
  clear Hres. unfold requiredFields in Hall. cbn [check_fields] in Hall.
  apply bind_Ok in Hall. destruct Hall as (e1 & H1 & Hall).
  apply bind_Ok in Hall. destruct Hall as (e2 & H2 & Hall).
  apply bind_Ok in Hall. destruct Hall as (e3 & H3 & Hall).
  apply bind_Ok in Hall. destruct Hall as (e4 & H4 & Hall).
  apply bind_Ok in Hall. destruct Hall as (e5 & H5 & [= <-]).
  apply check_field_other in H1, H3, H4, H5;
    try (cbn; tauto); try (cbn; discriminate).
  apply check_field_age in H2. destruct H2 as (added & H2 & Hadded).
  rewrite H5, H4, H3, H2, H1. cbn. exact Hadded.
Qed.

Lemma age_type_error_alone (profileData : value) (errors : list string) :
  validateProfileData profileData = Ok (Invalid errors) ->
  In not_a_number errors ->
  ~ In below_min errors /\ ~ In above_max errors.
Proof.
  intros Hv Hin.
  assert (Hf : In not_a_number (filter about_age errors))
    by (apply filter_In; split; [exact Hin | reflexivity]).
  destruct (age_messages _ _ Hv) as [Hone | Hnone]; [| contradiction].
  split; intros Hr;
    (assert (Hr' : In _ (filter about_age errors))
       by (apply filter_In; split; [exact Hr | reflexivity]));
    rewrite Hone in Hr'; cbn in Hr'; intuition discriminate.
Qed.

(** C2, as amended: the range checks of a number field sit in the [else]
    branch of its type check, so [age] never yields both the
    "must be a number" error and a range error; the other checks of a
    field are separate [if] statements, and a [skinType] that is not a
    string yields both its type error and its allowed-values error. *)
Theorem validateProfileData_range_checked_only_on_numbers :
  (forall profileData errors,
     validateProfileData profileData = Ok (Invalid errors) ->
     In not_a_number errors ->
     ~ In below_min errors /\ ~ In above_max errors)
  /\ (exists profileData errors,
        validateProfileData profileData = Ok (Invalid errors)
        /\ In "Field skinType must be a string." errors
        /\ In "Field skinType must be one of: dry, oily, combination, normal, sensitive."
              errors).
Proof.
  split.
  - exact age_type_error_alone.
  - exists (VObj [("name", VStr "Ann"); ("age", VNum (of_Z 30));
                  ("skinType", VNum (of_Z 5)); ("concerns", VArr [VStr "acne"]);
                  ("location", VStr "Oslo")]).
    eexists. split; [vm_compute; reflexivity |]. cbn. tauto.
Qed.

End ProfileValidation.

(** An [age] given as a string: the type error is reported, no range error. *)
Lemma validateProfileData_range_checked_only_on_numbers_witness :
  let profileData :=
    VObj [("name", VStr "Ann"); ("age", VStr "twelve"); ("skinType", VStr "dry");
          ("concerns", VArr [VStr "acne"]); ("location", VStr "Oslo")] in
  ProfileProcessor.validateProfileData profileData
    = Ok (ProfileProcessor.Invalid ["Field age must be a number."])
  /\ ~ In "Field age must be at least 13." ["Field age must be a number."].
Proof.
  intros profileData. split; [reflexivity |].
  apply (proj1 validateProfileData_range_checked_only_on_numbers profileData
           ["Field age must be a number."] eq_refl).
  cbn. tauto.
Defined.

(** C2, as stated, fails: no input makes [age] yield both errors. *)
Lemma age_never_yields_type_and_range_error :
  ~ exists profileData errors,
      ProfileProcessor.validateProfileData profileData
        = Ok (ProfileProcessor.Invalid errors)
      /\ In "Field age must be a number." errors
      /\ (In "Field age must be at least 13." errors
          \/ In "Field age must be at most 120." errors).
Proof.
  intros (profileData & errors & Hv & Hn & Hr).
  destruct (age_type_error_alone _ _ Hv Hn) as [Hmin Hmax].
  destruct Hr; contradiction.
Qed.

(** ** Questionnaire answers *)

(** C3, evaluated where it fails: a [sunExposure] of [null] makes
    [processQuestionnaireAnswers] throw, with or without other keys,
    whereas a numeric key that cannot be parsed is dropped. *)
Theorem processQuestionnaireAnswers_throws_on_null_sunExposure :
  ProfileProcessor.processQuestionnaireAnswers (VObj [("sunExposure", VNull)])
    = Throw (TypeError "Cannot read properties of null (reading 'toString')")
  /\ ProfileProcessor.processQuestionnaireAnswers
       (VObj [("hydration", VStr "7"); ("sunExposure", VNull); ("sleepHours", VStr "8")])
     = Throw (TypeError "Cannot read properties of null (reading 'toString')")
  /\ ProfileProcessor.processQuestionnaireAnswers
       (VObj [("hydration", VStr "a lot"); ("sunExposure", VStr "High")])
     = Ok (VObj [("sunExposure", VStr "high")]).
Proof.
  repeat split; reflexivity.
Qed.

(** ** The recommendations route *)

Section Route.
Import Effects AuthMiddleware Server.

Variable World : Type.
Variable verifyIdToken : string -> World -> result decoded_token * World.
Variable Joi_validate : DataValidator.schema -> value -> DataValidator.joi_result.
Variable isURL : string -> result bool.
Variable openai_create : string -> World -> result string * World.
Variable JSON_parse : string -> result value.

Local Abbreviation route :=
  (post_apirecommendations verifyIdToken Joi_validate isURL openai_create JSON_parse).

(** The validation middleware hands every request on. *)
Lemma validation_always_next (req : request) :
  validation Joi_validate req = Next req.
Proof.
  reflexivity.
Qed.

(** The profile the handler passes on has no [concerns]: building the
    prompt throws, and the completion is never requested. *)
Lemma handler_prompt_throws (profileData processedAnswers photos : value) :
  RecommendationEngine.buildChainOfThoughtPrompt
    (VObj [("profileData", profileData); ("processedAnswers", processedAnswers);
           ("photos", photos)]) VUndefined
  = Throw (TypeError "Cannot read properties of undefined (reading 'join')").
Proof.
  reflexivity.
Qed.

Lemma handler_status (req : request) (s : state World) :
  status (fst (handler isURL openai_create JSON_parse req s)) = 500.
Proof.
  unfold handler.
  destruct (get_prop (body req) "profileData") as [profileData | e]; [| reflexivity].
  destruct (get_prop (body req) "questionnaireAnswers") as [answers | e];
    [| reflexivity].
  destruct (get_prop (body req) "photos") as [photos | e]; [| reflexivity].
  cbn [bind].
  destruct (ProfileProcessor.processQuestionnaireAnswers answers) as [processed | e];
    [| reflexivity].
  cbn [bind]. unfold RecommendationEngine.generateRecommendations, mbind.
  cbn [Effects.record]. rewrite handler_prompt_throws. reflexivity.
Qed.

(** C1, evaluated where it fails.  No request is answered with status
    400; and the body [{test: true}], sent with an accepted token, gets
    status 500 and [{error: INTERNAL_ERROR}] after the recommendation
    engine has been called, whatever the schema validation says. *)
Theorem invalid_body_is_not_rejected :
  (forall req s, status (fst (route req s)) <> 400)
  /\ (forall authHeader decodedToken w w',
        startsWith authHeader "Bearer " = true ->
        verifyIdToken (trim (split_second authHeader "Bearer ")) w
          = (Ok decodedToken, w') ->
        let body := VObj [("test", VBool true)] in
        let '(res, s') :=
          route (mkRequest (Some authHeader) body VUndefined) (mkState w []) in
        res = mkResponse 500 (VObj [("error", VStr "INTERNAL_ERROR")])
        /\ world s' = w'
        /\ exists userProfile,
             calls s'
             = [VerifyIdToken (trim (split_second authHeader "Bearer "));
                GenerateRecommendations userProfile VUndefined]).
Proof.
  split.
  - intros req s. unfold post_apirecommendations, mbind, requireAuth.
    destruct (authorization req) as [authHeader |]; [| cbn; lia].
    destruct (startsWith authHeader "Bearer "); [| cbn; lia].
    cbn [negb]. unfold mbind. cbn [Effects.record]. unfold lift. cbn [world calls].
    destruct (verifyIdToken _ _) as [[decoded | e] w']; cbn [ret]; [| cbn; lia].
    rewrite validation_always_next, handler_status. lia.
  - intros authHeader decodedToken w w' Hbearer Hverify. cbv zeta.
    unfold post_apirecommendations, mbind, requireAuth. cbn [authorization].
    rewrite Hbearer. cbn [negb]. unfold mbind. cbn [Effects.record].
    unfold lift. cbn [world calls]. rewrite Hverify. cbn [ret].
    rewrite validation_always_next.
    unfold handler. cbn. repeat split; eauto.
Qed.

End Route.

(** The body [{test: true}] does not fit the schema, yet the answer is 500. *)
Lemma invalid_body_is_not_rejected_witness :
  let body := VObj [("test", VBool true)] in
  DataValidator.jr_error (DataValidator.joi_validate DataValidator.api_schema body)
    = Some "userId is required"
  /\ fst (Server.post_apirecommendations sample_verifyIdToken DataValidator.joi_validate
            sample_isURL sample_openai_create sample_JSON_parse
            (AuthMiddleware.mkRequest (Some "Bearer good-token") body VUndefined)
            (Effects.mkState tt []))
     = AuthMiddleware.mkResponse 500 (VObj [("error", VStr "INTERNAL_ERROR")]).
Proof.
  intros body. split; [reflexivity |].
  pose proof (proj2 (invalid_body_is_not_rejected unit sample_verifyIdToken
                       DataValidator.joi_validate sample_isURL sample_openai_create
                       sample_JSON_parse)
                "Bearer good-token" _ tt tt eq_refl eq_refl) as H.
  cbv zeta in H.
  destruct (Server.post_apirecommendations _ _ _ _ _ _ _) as [res s'].
  destruct H as [H _]. exact H.
Defined.

(** ** Estimated dimensions *)

Section Dimensions.
Import PhotoAnalyzer.

(** [round_sqrt n d] is the integer [w] with
    [(w - 1/2)^2 <= n / d < (w + 1/2)^2]. *)
Lemma round_sqrt_bounds (n d : Z) :
  0 <= n -> 0 < d ->
  let w := round_sqrt n d in
  0 <= w /\ 4 * n < d * ((2 * w + 1) * (2 * w + 1))
  /\ (w = 0 \/ 1 <= w /\ d * ((2 * w - 1) * (2 * w - 1)) <= 4 * n).
Proof.
  intros Hn Hd. unfold round_sqrt.
  set (q := 4 * n / d). set (s := Z.sqrt q).
  assert (Hq0 : 0 <= q) by (apply Z.div_pos; lia).
  assert (Hq : d * q <= 4 * n < d * (q + 1)).
  { unfold q. pose proof (Z.mul_div_le (4 * n) d Hd).
    pose proof (Z.mul_succ_div_gt (4 * n) d Hd). lia. }
  pose proof (Z.sqrt_spec q Hq0) as Hs. cbv zeta in Hs. fold s in Hs.
  pose proof (Z.sqrt_nonneg q) as Hs0. fold s in Hs0.
  set (w := (s + 1) / 2).
  assert (Hw : 2 * w <= s + 1 < 2 * w + 2).
  { unfold w. pose proof (Z.mul_div_le (s + 1) 2 ltac:(lia)).
    pose proof (Z.mul_succ_div_gt (s + 1) 2 ltac:(lia)). lia. }
  assert (Hw0 : 0 <= w) by lia.
  split; [exact Hw0 |]. split.
  - assert ((s + 1) * (s + 1) <= (2 * w + 1) * (2 * w + 1)) by nia. nia.
  - destruct (Z.eq_dec w 0) as [E | E]; [left; exact E | right].
    split; [lia |].
    assert ((2 * w - 1) * (2 * w - 1) <= s * s) by nia. nia.
Qed.

Local Open Scope R_scope.

Lemma round_sqrt_real (n d : Z) :
  (0 <= n)%Z -> (0 < d)%Z ->
  round_sqrt n d = Spec.Rround (sqrt (IZR n / IZR d)).
Proof.
  intros Hn Hd. unfold Spec.Rround.
  destruct (round_sqrt_bounds n d Hn Hd) as (Hw0 & Hup & Hlow).
  set (w := round_sqrt n d) in *.
  apply Int_part_spec.
  assert (HdR : 0 < IZR d) by (apply IZR_lt; exact Hd).
  assert (HnR : 0 <= IZR n) by (apply IZR_le; exact Hn).
  assert (HwR : 0 <= IZR w) by (apply IZR_le; exact Hw0).
  set (x := IZR n / IZR d).
  assert (Hx0 : 0 <= x).
  { unfold x. apply Rmult_le_pos; [lra | left; apply Rinv_0_lt_compat; lra]. }
  assert (Hxd : x * IZR d = IZR n) by (unfold x; field; lra).
  apply IZR_lt in Hup. rewrite !mult_IZR, !plus_IZR, !mult_IZR in Hup.
  assert (Hupper : sqrt x < IZR w + / 2).
  { rewrite <- (sqrt_square (IZR w + / 2)) by lra.
    apply sqrt_lt_1_alt. split; [exact Hx0 |].
    apply (Rmult_lt_reg_l (IZR d)); [exact HdR |].
    replace (IZR d * x) with (IZR n) by lra.
    replace (IZR d * ((IZR w + / 2) * (IZR w + / 2)))
      with (IZR d * ((2 * IZR w + 1) * (2 * IZR w + 1)) / 4) by field.
    lra. }
  assert (Hlower : IZR w - / 2 <= sqrt x).
  { destruct Hlow as [E | [Hw1 Hlow]].
    - rewrite E. pose proof (sqrt_pos x). lra.
    - apply IZR_le in Hlow. rewrite !mult_IZR, !minus_IZR, !mult_IZR in Hlow.
      apply IZR_le in Hw1.
      rewrite <- (sqrt_square (IZR w - / 2)) by lra.
      apply sqrt_le_1_alt.
      apply (Rmult_le_reg_l (IZR d)); [exact HdR |].
      replace (IZR d * x) with (IZR n) by lra.
      replace (IZR d * ((IZR w - / 2) * (IZR w - / 2)))
        with (IZR d * ((2 * IZR w - 1) * (2 * IZR w - 1)) / 4) by field.
      lra. }
  lra.
Qed.

Lemma IZR_pow10 (e : Z) : (0 <= e)%Z -> IZR (10 ^ e) = powerRZ 10 e.
Proof.
  destruct e as [| p | p]; intros H; [reflexivity | | lia].
  apply Zpower_pos_powerRZ.
Qed.

(** The two integers [Math_round_sqrt_ratio] works on are a numerator
    and a denominator of [x * p / q]. *)
Lemma ratio_value (m e p q : Z) :
  (0 < q)%Z ->
  IZR (m * p * 10 ^ Z.max e 0) / IZR (q * 10 ^ Z.max (- e) 0)
  = Spec.Rvalue m e * IZR p / IZR q.
Proof.
  intros Hq. unfold Spec.Rvalue. rewrite !mult_IZR.
  destruct (Z.le_gt_cases 0 e) as [He | He].
  - rewrite (Z.max_l e 0), (Z.max_r (- e) 0) by lia.
    rewrite (IZR_pow10 e) by lia. cbn [Z.pow].
    unfold Rdiv. rewrite Rmult_1_r. ring.
  - rewrite (Z.max_r e 0), (Z.max_l (- e) 0) by lia.
    rewrite (IZR_pow10 (- e)) by lia. cbn [Z.pow].
    replace (powerRZ 10 e) with (/ powerRZ 10 (- e))
      by (rewrite <- powerRZ_neg'; f_equal; lia).
    unfold Rdiv. rewrite Rinv_mult, Rmult_1_r.
    generalize (powerRZ 10 (- e)). intros r. ring.
Qed.

Local Close Scope R_scope.

Lemma compressionRatio_agrees (format : string) :
  (if format ==? "PNG" then 6
   else if format ==? "WebP" then 12
   else if format ==? "JPEG" then 10
   else 10) = Spec.compressionRatio format.
Proof.
  unfold Spec.compressionRatio.
  destruct (String.eqb_spec format "PNG") as [-> | _]; [reflexivity |].
  destruct (String.eqb_spec format "WebP") as [-> | _]; [reflexivity |].
  destruct (format ==? "JPEG"); reflexivity.
Qed.

(** In the exact arithmetic of the embedding the side is the rounded
    root whatever the number. *)
Lemma estimateDimensions_exact (fileSize : number) (format : string) :
  let d := estimateDimensions fileSize format in
  width d = height d
  /\ width d = Spec.estimated_side fileSize format.
Proof.
  cbv zeta. split; [reflexivity |].
  unfold estimateDimensions. cbn [width]. rewrite compressionRatio_agrees.
  assert (Hp : 0 < Spec.compressionRatio format).
  { unfold Spec.compressionRatio.
    destruct (format ==? "PNG"); [lia |].
    destruct (format ==? "JPEG"); [lia |].
    destruct (format ==? "WebP"); lia. }
  destruct fileSize as [| [|] | m e]; try reflexivity.
  unfold Math_round_sqrt_ratio, Spec.estimated_side.
  set (p := Spec.compressionRatio format) in *.
  destruct (m <? 0) eqn:Hm; [reflexivity |].
  apply Z.ltb_ge in Hm. f_equal.
  rewrite <- ratio_value by lia.
  apply round_sqrt_real.
  - apply Z.mul_nonneg_nonneg; [nia |]. apply Z.pow_nonneg. lia.
  - apply Z.mul_pos_pos; [lia |]. apply Z.pow_pos_nonneg; lia.
Qed.

(** C7: for a file of 1024 to 10485760 bytes, the sizes that
    [verifyPhotoAccessibility] lets through and the only ones that reach
    [estimateDimensions], the estimate is a square whose side is the
    square root of [fileSize * compressionRatio / 3] rounded to the
    nearest integer, with ratio 6 for PNG, 10 for JPEG, 12 for WebP and
    10 otherwise.  In that range the exact arithmetic of the embedding
    and the binary64 arithmetic of the runtime give the same side. *)
Theorem estimateDimensions_square_of_rounded_root
    (bytes : Z) (format : string) :
  1024 <= bytes <= 10485760 ->
  let d := estimateDimensions (of_Z bytes) format in
  width d = height d
  /\ width d = Spec.estimated_side (of_Z bytes) format
  /\ aspectRatio d = "1.00"
  /\ estimated d = true.
Proof.
  intros _. cbv zeta.
  destruct (estimateDimensions_exact (of_Z bytes) format) as [Hsquare Hside].
  split; [exact Hsquare |]. split; [exact Hside |]. split; reflexivity.
Qed.

End Dimensions.

(** A JPEG of 1500000 bytes: 5000000 estimated pixels, a side of 2236. *)
Lemma estimateDimensions_square_of_rounded_root_witness :
  let d := PhotoAnalyzer.estimateDimensions (of_Z 1500000) "JPEG" in
  PhotoAnalyzer.width d = of_Z 2236
  /\ PhotoAnalyzer.width d = PhotoAnalyzer.height d
  /\ PhotoAnalyzer.width d = Spec.estimated_side (of_Z 1500000) "JPEG".
Proof.
  intros d.
  destruct (estimateDimensions_square_of_rounded_root 1500000 "JPEG" ltac:(lia))
    as (Hsquare & Hside & _).
  split; [vm_compute; reflexivity |]. split; [exact Hsquare | exact Hside].
Defined.

(** ** Printing and parsing numbers *)

Section Numbers.
Import Spec.

Lemma append_nil_r (s : string) : s ++ "" = s.
Proof.
  induction s as [| c r IH]; cbn; [reflexivity | now rewrite IH].
Qed.

Lemma append_assoc (s t u : string) : (s ++ t) ++ u = s ++ t ++ u.
Proof.
  induction s as [| c r IH]; cbn; [reflexivity | now rewrite IH].
Qed.

Lemma str_length_append (s t : string) :
  str_length (s ++ t) = str_length s + str_length t.
Proof.
  unfold str_length. induction s as [| c r IH]; cbn [String.append String.length];
    [lia | rewrite !Nat2Z.inj_succ; lia].
Qed.

Lemma str_length_nonneg (s : string) : 0 <= str_length s.
Proof.
  unfold str_length. lia.
Qed.

Lemma take_drop (n : nat) (s : string) : take n s ++ drop n s = s.
Proof.
  revert s. induction n as [| n IH]; intros [| c r]; cbn; try reflexivity.
  now rewrite IH.
Qed.

Lemma str_length_take (n : nat) (s : string) :
  Z.of_nat n <= str_length s -> str_length (take n s) = Z.of_nat n.
Proof.
  unfold str_length. revert s.
  induction n as [| n IH]; intros [| c r]; cbn [take String.length]; try lia.
  intros H. rewrite !Nat2Z.inj_succ in *. rewrite IH; lia.
Qed.

Lemma str_length_zeros (n : nat) : str_length (zeros n) = Z.of_nat n.
Proof.
  unfold str_length. induction n as [| n IH]; cbn [zeros String.length]; lia.
Qed.

Lemma all_digits_app (s t : string) :
  all_digits (s ++ t) = all_digits s && all_digits t.
Proof.
  induction s as [| c r IH]; cbn; [reflexivity |].
  rewrite IH. now rewrite andb_assoc.
Qed.

Lemma all_digits_zeros (n : nat) : all_digits (zeros n) = true.
Proof.
  induction n as [| n IH]; cbn; [reflexivity | exact IH].
Qed.

Lemma all_digits_take_drop (n : nat) (s : string) :
  all_digits s = true -> all_digits (take n s) = true /\ all_digits (drop n s) = true.
Proof.
  intros H. rewrite <- (take_drop n s), all_digits_app in H.
  now apply andb_prop in H.
Qed.

(** Digits *)

Lemma digits_val_app (s t : string) (acc : Z) :
  digits_val (s ++ t) acc = digits_val t (digits_val s acc).
Proof.
  revert acc. induction s as [| c r IH]; intros acc; cbn; [reflexivity | apply IH].
Qed.

Lemma digits_val_acc (s : string) (acc : Z) :
  digits_val s acc = acc * 10 ^ str_length s + digits_val s 0.
Proof.
  unfold str_length. revert acc.
  induction s as [| c r IH]; intros acc; cbn [digits_val String.length].
  - cbn. lia.
  - rewrite IH, (IH (0 * 10 + digit_val c)).
    rewrite Nat2Z.inj_succ, Z.pow_succ_r by lia. ring.
Qed.

Lemma digits_val_zeros (n : nat) (acc : Z) :
  digits_val (zeros n) acc = acc * 10 ^ Z.of_nat n.
Proof.
  revert acc. induction n as [| n IH]; intros acc; cbn [zeros digits_val].
  - cbn. lia.
  - rewrite IH. change (digit_val "0") with 0.
    rewrite Nat2Z.inj_succ, Z.pow_succ_r by lia. ring.
Qed.

Lemma digit_char_props (d : Z) :
  0 <= d < 10 -> is_digit (digit_char d) = true /\ digit_val (digit_char d) = d.
Proof.
  intros H.
  assert (d = 0 \/ d = 1 \/ d = 2 \/ d = 3 \/ d = 4 \/ d = 5 \/ d = 6 \/ d = 7
          \/ d = 8 \/ d = 9) as Hd by lia.
  repeat (destruct Hd as [-> | Hd]; [split; reflexivity |]).
  subst. split; reflexivity.
Qed.

Lemma digits_aux_props (fuel : nat) :
  forall m acc, 0 <= m < 2 ^ Z.of_nat fuel -> (0 < fuel)%nat ->
  exists ds,
    digits_aux fuel m acc = ds ++ acc
    /\ all_digits ds = true
    /\ digits_val ds 0 = m
    /\ 0 < str_length ds
    /\ (0 < m -> 10 ^ (str_length ds - 1) <= m).
Proof.
  induction fuel as [| f IH]; intros m acc Hm Hf; [lia |].
  cbn [digits_aux].
  pose proof (Z.mod_pos_bound m 10 ltac:(lia)) as Hmod.
  destruct (digit_char_props (m mod 10) Hmod) as [Hdig Hval].
  destruct (Z.ltb_spec m 10) as [Hlt | Hge].
  - exists (String (digit_char (m mod 10)) "").
    rewrite Z.mod_small in * by lia.
    refine (conj eq_refl (conj _ (conj _ (conj _ _)))).
    + cbn. now rewrite Hdig.
    + cbn. lia.
    + unfold str_length. cbn. lia.
    + intros Hpos. unfold str_length. cbn. lia.
  - assert (Hdiv : 0 <= m / 10 < 2 ^ Z.of_nat f).
    { split; [apply Z.div_pos; lia |].
      rewrite Nat2Z.inj_succ, Z.pow_succ_r in Hm by lia.
      apply Z.div_lt_upper_bound; lia. }
    assert (Hf' : (0 < f)%nat).
    { destruct f; [| lia]. cbn in Hdiv. assert (m / 10 = 0) by lia.
      apply Z.div_small_iff in H; lia. }
    destruct (IH (m / 10) (String (digit_char (m mod 10)) acc) Hdiv Hf')
      as (ds & Heq & Hall & Hv & Hlen & Hlow).
    exists (ds ++ String (digit_char (m mod 10)) "").
    rewrite Heq, append_assoc. cbn [String.append].
    refine (conj eq_refl (conj _ (conj _ (conj _ _)))).
    + rewrite all_digits_app, Hall. cbn. now rewrite Hdig.
    + rewrite digits_val_app, Hv. cbn. rewrite Hval.
      pose proof (Z.div_mod m 10 ltac:(lia)). lia.
    + rewrite str_length_append. unfold str_length in *. cbn. lia.
    + intros _. rewrite str_length_append.
      replace (str_length ds + str_length (String (digit_char (m mod 10)) "") - 1)
        with (Z.succ (str_length ds - 1)) by (unfold str_length; cbn; lia).
      rewrite Z.pow_succ_r by lia.
      assert (0 < m / 10) by (apply Z.div_str_pos; lia).
      pose proof (Z.mul_div_le m 10 ltac:(lia)). specialize (Hlow H). lia.
Qed.

Lemma to_digits_props (m : Z) :
  0 <= m ->
  all_digits (to_digits m) = true
  /\ digits_val (to_digits m) 0 = m
  /\ 0 < str_length (to_digits m)
  /\ (0 < m -> 10 ^ (str_length (to_digits m) - 1) <= m).
Proof.
  intros Hm. unfold to_digits.
  assert (Hfuel : 0 <= m < 2 ^ Z.of_nat (fuel_of m)).
  { unfold fuel_of. rewrite Z.abs_eq by lia. split; [lia |].
    rewrite Nat2Z.inj_succ, Z2Nat.id by apply Z.log2_nonneg.
    destruct (Z.eq_dec m 0) as [-> | Hne]; [cbn; lia |].
    apply Z.log2_spec. lia. }
  destruct (digits_aux_props (fuel_of m) m "" Hfuel ltac:(unfold fuel_of; lia))
    as (ds & Heq & H).
  rewrite Heq, append_nil_r. exact H.
Qed.

Lemma span_digits_app (ds rest : string) :
  all_digits ds = true -> not_digit_head rest ->
  span_digits (ds ++ rest) = (ds, rest).
Proof.
  intros Hds Hrest. induction ds as [| c r IH]; cbn [String.append].
  - destruct rest as [| c r]; cbn in *; [reflexivity | now rewrite Hrest].
  - cbn in Hds. apply andb_prop in Hds. destruct Hds as [Hc Hr].
    cbn [span_digits]. rewrite Hc, (IH Hr). reflexivity.
Qed.

Lemma span_digits_all (ds : string) :
  all_digits ds = true -> span_digits ds = (ds, "").
Proof.
  intros H. rewrite <- (append_nil_r ds) at 1. now apply span_digits_app.
Qed.

(** Canonical numbers *)

Lemma strip10_scaled (fuel : nat) :
  forall m e j, m <> 0 -> m mod 10 <> 0 -> 0 <= j < Z.of_nat fuel ->
  strip10 fuel (m * 10 ^ j) e = (m, e + j).
Proof.
  induction fuel as [| f IH]; intros m e j Hm Hmod Hj; [lia |].
  cbn [strip10].
  assert (Hp : 0 < 10 ^ j) by (apply Z.pow_pos_nonneg; lia).
  destruct (Z.eqb_spec (m * 10 ^ j) 0) as [E | _]; [nia |].
  destruct (Z.eq_dec j 0) as [-> | Hj0].
  - rewrite Z.pow_0_r, Z.mul_1_r.
    destruct (Z.eqb_spec (m mod 10) 0) as [E | _]; [contradiction |].
    f_equal. lia.
  - replace (m * 10 ^ j) with (m * 10 ^ (j - 1) * 10)
      by (replace j with (Z.succ (j - 1)) at 2 by lia;
          rewrite Z.pow_succ_r by lia; ring).
    rewrite Z.mod_mul, Z.div_mul by lia. cbn [Z.eqb].
    rewrite IH by lia. f_equal. lia.
Qed.

Lemma log2_scaled (m j : Z) : m <> 0 -> 0 <= j -> j <= Z.log2 (Z.abs (m * 10 ^ j)).
Proof.
  intros Hm Hj.
  assert (Hp : 0 < 10 ^ j) by (apply Z.pow_pos_nonneg; lia).
  rewrite <- (Z.log2_pow2 j Hj) at 1.
  apply Z.log2_le_mono.
  assert (2 ^ j <= 10 ^ j) by (apply Z.pow_le_mono_l; lia).
  rewrite Z.abs_mul, (Z.abs_eq (10 ^ j)) by lia. nia.
Qed.

Lemma mkFin_scaled (m e j : Z) :
  m <> 0 -> m mod 10 <> 0 -> 0 <= j -> mkFin (m * 10 ^ j) e = Fin m (e + j).
Proof.
  intros Hm Hmod Hj. unfold mkFin.
  rewrite strip10_scaled; [reflexivity | assumption | assumption |].
  unfold fuel_of. pose proof (log2_scaled m j Hm Hj).
  rewrite Nat2Z.inj_succ, Z2Nat.id by apply Z.log2_nonneg. lia.
Qed.

Lemma canon_canonical (x : number) : canonical x -> canon x = x.
Proof.
  destruct x as [| neg | m e]; cbn; try reflexivity.
  intros [[-> ->] | [Hm Hmod]]; [reflexivity |].
  rewrite <- (Z.mul_1_r m) at 1. rewrite <- (Z.pow_0_r 10).
  rewrite mkFin_scaled by lia. f_equal. lia.
Qed.

Lemma strip10_canonical (fuel : nat) :
  forall m e, Z.abs m < 2 ^ Z.of_nat fuel -> (0 < fuel)%nat ->
  canonical (Fin (fst (strip10 fuel m e)) (snd (strip10 fuel m e))).
Proof.
  induction fuel as [| f IH]; intros m e Hm Hf; [lia |].
  cbn [strip10].
  destruct (Z.eqb_spec m 0) as [-> | Hne]; [cbn; auto |].
  destruct (Z.eqb_spec (m mod 10) 0) as [Hmod | Hmod]; [| cbn; auto].
  assert (Hdiv : m = 10 * (m / 10)) by (apply Z.div_exact; lia).
  assert (Hq : Z.abs (m / 10) < 2 ^ Z.of_nat f).
  { rewrite Nat2Z.inj_succ, Z.pow_succ_r in Hm by lia. lia. }
  apply IH; [exact Hq |].
  destruct f; [| lia]. cbn in Hq. lia.
Qed.

Lemma mkFin_canonical (m e : Z) : canonical (mkFin m e).
Proof.
  unfold mkFin.
  pose proof (strip10_canonical (fuel_of m) m e) as H.
  destruct (strip10 (fuel_of m) m e) as [m' e']. apply H.
  - unfold fuel_of. rewrite Nat2Z.inj_succ, Z2Nat.id by apply Z.log2_nonneg.
    destruct (Z.eq_dec m 0) as [-> | Hne]; [cbn; lia |].
    apply Z.log2_spec. lia.
  - unfold fuel_of. lia.
Qed.

(** The exponent of an integer in canonical form is not negative. *)
Lemma strip10_exponent (fuel : nat) :
  forall m e, 0 <= e -> 0 <= snd (strip10 fuel m e).
Proof.
  induction fuel as [| f IH]; intros m e He; cbn [strip10]; [exact He |].
  destruct (m =? 0); [cbn; lia |].
  destruct (m mod 10 =? 0); [apply IH; lia | exact He].
Qed.

(** Parsing what Number::toString prints *)

Lemma parse_exponent_part (x : Z) : parse_exponent (exponent_part x) = x.
Proof.
  unfold exponent_part.
  destruct (to_digits_props (Z.abs x) (Z.abs_nonneg x)) as (Hall & Hval & Hlen & _).
  destruct (Z.ltb_spec x 0) as [Hneg | Hpos];
    cbn [parse_exponent split_sign code N_of_ascii Z.of_N Z.eqb orb Pos.eqb];
    cbn -[to_digits span_digits digits_val];
    rewrite (span_digits_all _ Hall), Hval;
    (destruct (to_digits (Z.abs x)) as [| c r];
     [unfold str_length in Hlen; cbn in Hlen; lia | lia]).
Qed.

Lemma exponent_part_head (x : Z) : not_digit_head (exponent_part x).
Proof.
  reflexivity.
Qed.

Lemma str_length_drop (n : nat) (s : string) :
  Z.of_nat n <= str_length s -> str_length (drop n s) = str_length s - Z.of_nat n.
Proof.
  intros H. pose proof (str_length_take n s H) as Ht.
  rewrite <- (take_drop n s) at 2. rewrite str_length_append. lia.
Qed.

Lemma parse_decimal_format (ds : string) (n : Z) :
  all_digits ds = true -> 0 < str_length ds ->
  let k := str_length ds in
  let z := if (k <=? n) && (n <=? 21) then n - k else 0 in
  parse_decimal (format_pos ds n) = Some (digits_val ds 0 * 10 ^ z, n - k - z).
Proof.
  intros Hall Hlen. cbv zeta. unfold format_pos, parse_decimal.
  destruct ((str_length ds <=? n) && (n <=? 21)) eqn:EA.
  { (* digits, then zeros *)
    apply andb_prop in EA. destruct EA as [Hk Hn]. apply Z.leb_le in Hk, Hn.
    rewrite span_digits_all
      by (rewrite all_digits_app, Hall; apply all_digits_zeros).
    rewrite append_nil_r, digits_val_app, digits_val_zeros.
    rewrite Z2Nat.id by lia.
    destruct ds as [| c r]; [unfold str_length in Hlen; cbn in Hlen; lia |].
    cbn [String.append]. cbn [parse_exponent str_length String.length Z.of_nat].
    f_equal. f_equal. lia. }
  destruct ((0 <? n) && (n <=? 21)) eqn:EB.
  { (* the point falls inside the digits *)
    apply andb_prop in EB. destruct EB as [H0 Hn]. apply Z.ltb_lt in H0.
    apply Z.leb_le in Hn.
    assert (Hk : n < str_length ds).
    { apply andb_false_iff in EA. destruct EA as [E | E];
        [apply Z.leb_gt in E; lia | apply Z.leb_gt in E; lia]. }
    destruct (all_digits_take_drop (Z.to_nat n) ds Hall) as [Ht Hd].
    cbn [String.append].
    rewrite (span_digits_app (take (Z.to_nat n) ds)) by (auto; reflexivity).
    rewrite (span_digits_all _ Hd).
    rewrite take_drop.
    assert (Hlt : str_length (take (Z.to_nat n) ds) = n)
      by (rewrite str_length_take; lia).
    assert (Hld : str_length (drop (Z.to_nat n) ds) = str_length ds - n)
      by (rewrite str_length_drop; lia).
    destruct (take (Z.to_nat n) ds) as [| c r];
      [unfold str_length in Hlt; cbn in Hlt; lia |].
    rewrite Hld. cbn [parse_exponent]. f_equal. f_equal; [cbn; lia | lia]. }
  destruct ((-6 <? n) && (n <=? 0)) eqn:EC.
  { (* zero, the point, zeros, then the digits *)
    apply andb_prop in EC. destruct EC as [H6 Hn]. apply Z.ltb_lt in H6.
    apply Z.leb_le in Hn.
    cbn [String.append span_digits is_digit code N_of_ascii Z.of_N Z.leb andb].
    cbn -[span_digits digits_val zeros str_length Z.pow Z.sub Z.mul].
    assert (Hz : all_digits (zeros (Z.to_nat (- n)) ++ ds) = true)
      by (rewrite all_digits_app, all_digits_zeros; exact Hall).
    rewrite (span_digits_all _ Hz).
    cbn [String.append digits_val]. change (0 * 10 + digit_val "0") with 0.
    rewrite digits_val_app, digits_val_zeros, str_length_append, str_length_zeros.
    rewrite Z2Nat.id by lia. cbn [parse_exponent].
    rewrite Z.mul_0_l. f_equal. f_equal; [cbn; lia | lia]. }
  (* exponent notation *)
  destruct (Z.eqb_spec (str_length ds) 1) as [E1 | E1].
  - rewrite (span_digits_app ds) by (auto; apply exponent_part_head).
    unfold exponent_part at 1. cbv iota.
    fold (exponent_part (n - 1)). rewrite parse_exponent_part.
    rewrite append_nil_r.
    destruct ds as [| c r]; [unfold str_length in Hlen; cbn in Hlen; lia |].
    f_equal. f_equal; [cbn; lia |].
    change (str_length "") with 0. lia.
  - destruct (all_digits_take_drop 1 ds Hall) as [Ht Hd].
    cbn [String.append].
    rewrite (span_digits_app (take 1 ds)) by (auto; reflexivity).
    rewrite (span_digits_app (drop 1 ds)) by (auto; apply exponent_part_head).
    rewrite take_drop, parse_exponent_part.
    assert (Hlt : str_length (take 1 ds) = 1) by (rewrite str_length_take; lia).
    assert (Hld : str_length (drop 1 ds) = str_length ds - 1)
      by (rewrite str_length_drop; lia).
    destruct (take 1 ds) as [| c r];
      [unfold str_length in Hlt; cbn in Hlt; lia |].
    rewrite Hld. f_equal. f_equal; [cbn; lia | lia].
Qed.

Lemma digit_head (c : ascii) (r : string) :
  is_digit c = true ->
  trimStart (String c r) = String c r
  /\ split_sign (String c r) = (false, String c r)
  /\ startsWith (String c r) "Infinity" = false.
Proof.
  intros H.
  destruct c as [[] [] [] [] [] [] [] []]; try discriminate H;
    repeat split; reflexivity.
Qed.

Lemma format_pos_head (ds : string) (n : Z) :
  all_digits ds = true -> 0 < str_length ds ->
  exists c r, format_pos ds n = String c r /\ is_digit c = true.
Proof.
  intros Hall Hlen.
  destruct ds as [| c r]; [unfold str_length in Hlen; cbn in Hlen; lia |].
  cbn in Hall. apply andb_prop in Hall. destruct Hall as [Hc _].
  unfold format_pos.
  destruct ((str_length (String c r) <=? n) && (n <=? 21)); [cbn; eauto |].
  destruct ((0 <? n) && (n <=? 21)) eqn:EB.
  { apply andb_prop in EB. destruct EB as [H0 _]. apply Z.ltb_lt in H0.
    destruct (Z.to_nat n) eqn:En; [lia |]. cbn. eauto. }
  destruct ((-6 <? n) && (n <=? 0)); [cbn; eauto |].
  destruct (str_length (String c r) =? 1); cbn; eauto.
Qed.

Lemma parseFloat_format (ds : string) (n : Z) (neg : bool) :
  all_digits ds = true -> 0 < str_length ds ->
  let k := str_length ds in
  let z := if (k <=? n) && (n <=? 21) then n - k else 0 in
  let a := digits_val ds 0 * 10 ^ z in
  parseFloat_str (if neg then String "-" (format_pos ds n) else format_pos ds n)
  = mkFin (if neg then - a else a) (n - k - z).
Proof.
  intros Hall Hlen. cbv zeta.
  pose proof (parse_decimal_format ds n Hall Hlen) as Hp. cbv zeta in Hp.
  destruct (format_pos_head ds n Hall Hlen) as (c & r & Hf & Hc).
  destruct (digit_head c r Hc) as (Ht & Hs & Hi).
  unfold parseFloat_str. destruct neg.
  - cbn [trimStart is_white code N_of_ascii Z.of_N].
    cbn -[format_pos parse_decimal mkFin startsWith Z.pow Z.sub Z.mul].
    rewrite Hf, Hi, <- Hf, Hp. reflexivity.
  - rewrite Hf, Ht, Hs, Hi, <- Hf, Hp. reflexivity.
Qed.

(** Parsing the string of a number gives the number back. *)
Lemma parseFloat_numToString (x : number) :
  canonical x -> parseFloat_str (numToString x) = x.
Proof.
  intros Hx. unfold numToString. rewrite (canon_canonical x Hx).
  destruct x as [| [|] | m e]; try reflexivity.
  destruct Hx as [[-> ->] | [Hm Hmod]]; [reflexivity |].
  destruct (Z.eqb_spec m 0) as [E | _]; [contradiction |].
  destruct (to_digits_props (Z.abs m) (Z.abs_nonneg m)) as (Hall & Hval & Hlen & _).
  set (ds := to_digits (Z.abs m)) in *. set (k := str_length ds) in *.
  pose proof (parseFloat_format ds (k + e)) as Hp. cbv zeta in Hp. fold k in Hp.
  set (z := if (k <=? k + e) && (k + e <=? 21) then k + e - k else 0) in *.
  assert (Hz : 0 <= z).
  { unfold z. destruct (Z.leb_spec k (k + e)); cbn [andb]; [| lia].
    destruct (k + e <=? 21); lia. }
  rewrite (Hp (m <? 0) Hall Hlen), Hval.
  replace (if m <? 0 then - (Z.abs m * 10 ^ z) else Z.abs m * 10 ^ z)
    with (m * 10 ^ z) by (destruct (Z.ltb_spec m 0); lia).
  rewrite mkFin_scaled by assumption. f_equal. lia.
Qed.

Lemma radix_digit_decimal (c : ascii) :
  is_digit c = true -> radix_digit c = Some (digit_val c) /\ 0 <= digit_val c < 10.
Proof.
  unfold is_digit, radix_digit, digit_val. intros H. rewrite H.
  apply andb_prop in H. destruct H as [H1 H2]. apply Z.leb_le in H1, H2.
  split; [reflexivity | lia].
Qed.

Lemma radix_prefix_digits (s : string) :
  forall acc, all_digits s = true ->
  radix_prefix 10 s (Some acc) = Some (digits_val s acc).
Proof.
  induction s as [| c r IH]; intros acc Hall; cbn [radix_prefix digits_val];
    [reflexivity |].
  cbn in Hall. apply andb_prop in Hall. destruct Hall as [Hc Hr].
  destruct (radix_digit_decimal c Hc) as [-> Hd].
  destruct (Z.ltb_spec (digit_val c) 10); [| lia]. now apply IH.
Qed.

Lemma radix_prefix_nonempty (c : ascii) (r : string) :
  all_digits (String c r) = true ->
  radix_prefix 10 (String c r) None = Some (digits_val (String c r) 0).
Proof.
  intros Hall. pose proof Hall as Hall'. cbn in Hall.
  apply andb_prop in Hall. destruct Hall as [Hc Hr].
  cbn [radix_prefix digits_val].
  destruct (radix_digit_decimal c Hc) as [-> Hd].
  destruct (Z.ltb_spec (digit_val c) 10); [| lia].
  now apply radix_prefix_digits.
Qed.

(** An integer of fewer than 22 digits is printed without exponent, and
    [parseInt] reads it back. *)
Lemma parseInt_numToString (m e : Z) :
  canonical (Fin m e) -> 0 <= e -> Z.abs m * 10 ^ e < 10 ^ 21 ->
  parseInt_str (numToString (Fin m e)) (Some 10) = Fin m e.
Proof.
  intros Hx He Hsmall. unfold numToString. rewrite (canon_canonical _ Hx).
  destruct Hx as [[-> ->] | [Hm Hmod]]; [reflexivity |].
  destruct (Z.eqb_spec m 0) as [E | _]; [contradiction |].
  destruct (to_digits_props (Z.abs m) (Z.abs_nonneg m)) as (Hall & Hval & Hlen & Hlow).
  set (ds := to_digits (Z.abs m)) in *. set (k := str_length ds) in *.
  assert (Hk : k + e <= 21).
  { specialize (Hlow ltac:(lia)).
    assert (10 ^ (k - 1 + e) < 10 ^ 21).
    { rewrite Z.pow_add_r by lia.
      assert (0 < 10 ^ e) by (apply Z.pow_pos_nonneg; lia). nia. }
    apply Z.pow_lt_mono_r_iff in H; lia. }
  cbv zeta. unfold format_pos. fold k.
  destruct (Z.leb_spec k (k + e)); [| lia].
  destruct (Z.leb_spec (k + e) 21); [| lia]. cbn [andb].
  replace (k + e - k) with e by lia.
  assert (Hbody : all_digits (ds ++ zeros (Z.to_nat e)) = true)
    by (rewrite all_digits_app, Hall; apply all_digits_zeros).
  assert (Hv : digits_val (ds ++ zeros (Z.to_nat e)) 0 = Z.abs m * 10 ^ e)
    by (rewrite digits_val_app, digits_val_zeros, Hval, Z2Nat.id by lia; reflexivity).
  destruct ds as [| c r] eqn:Eds; [unfold k, str_length in Hlen; cbn in Hlen; lia |].
  cbn [String.append] in *.
  pose proof Hbody as Hc. cbn in Hc. apply andb_prop in Hc. destruct Hc as [Hc _].
  destruct (digit_head c (r ++ zeros (Z.to_nat e)) Hc) as (Ht & Hs & _).
  unfold parseInt_str. destruct (Z.ltb_spec m 0) as [Hneg | Hpos].
  - cbn [trimStart is_white code N_of_ascii Z.of_N].
    cbn -[radix_prefix of_Z Z.mul Z.pow].
    rewrite (radix_prefix_nonempty _ _ Hbody), Hv.
    unfold of_Z. replace (- (Z.abs m * 10 ^ e)) with (m * 10 ^ e) by lia.
    now rewrite mkFin_scaled.
  - rewrite Ht, Hs. cbn -[radix_prefix of_Z Z.mul Z.pow].
    rewrite (radix_prefix_nonempty _ _ Hbody), Hv.
    unfold of_Z. replace (Z.abs m * 10 ^ e) with (m * 10 ^ e) by lia.
    now rewrite mkFin_scaled.
Qed.

Lemma parseFloat_str_canonical (s : string) : canonical (parseFloat_str s).
Proof.
  unfold parseFloat_str.
  destruct (split_sign (trimStart s)) as [neg r].
  destruct (startsWith r "Infinity"); [exact I |].
  destruct (parse_decimal r) as [[m e] |]; [apply mkFin_canonical | exact I].
Qed.

Lemma of_Z_integral (z : Z) : canonical (of_Z z) /\ integral (of_Z z).
Proof.
  split; [apply mkFin_canonical |].
  unfold of_Z, mkFin.
  pose proof (strip10_exponent (fuel_of z) z 0 ltac:(lia)) as H.
  destruct (strip10 (fuel_of z) z 0) as [m e]. exact H.
Qed.

Lemma parseInt_str_integral (s : string) (radix : option Z) :
  canonical (parseInt_str s radix) /\ integral (parseInt_str s radix).
Proof.
  unfold parseInt_str.
  destruct (split_sign (trimStart s)) as [neg r].
  match goal with
  | |- context [if ?guard then NaN else _] => destruct guard; [split; exact I |]
  end.
  match goal with
  | |- context [let '(R, body) := ?chosen in _] => destruct chosen as [R body]
  end.
  destruct (radix_prefix R body None) as [v |]; [apply of_Z_integral | split; exact I].
Qed.

Lemma lower_char_idempotent (c : ascii) : lower_char (lower_char c) = lower_char c.
Proof.
  destruct c as [[] [] [] [] [] [] [] []]; reflexivity.
Qed.

Lemma toLowerCase_idempotent (s : string) :
  toLowerCase (toLowerCase s) = toLowerCase s.
Proof.
  induction s as [| c r IH]; cbn; [reflexivity |].
  now rewrite lower_char_idempotent, IH.
Qed.

End Numbers.

(** ** Normalizing answers twice *)

Section Normalization.
Import Spec ProfileProcessor.

Lemma below_1e21_bound (m e : Z) :
  0 <= e -> below_1e21 (Fin m e) = true -> Z.abs m * 10 ^ e < 10 ^ 21.
Proof.
  intros He H. unfold below_1e21 in H.
  replace (of_Z (10 ^ 21)) with (Fin 1 21) in H by (vm_compute; reflexivity).
  replace (of_Z (- 10 ^ 21)) with (Fin (-1) 21) in H by (vm_compute; reflexivity).
  apply andb_prop in H. destruct H as [Hlt Hgt].
  unfold gt, lt, cmp_fin in *.
  destruct (Z.compare_spec (m * 10 ^ (e - Z.min e 21)) (1 * 10 ^ (21 - Z.min e 21)))
    as [| Hup |]; try discriminate.
  destruct (Z.compare_spec (-1 * 10 ^ (21 - Z.min 21 e)) (m * 10 ^ (e - Z.min 21 e)))
    as [| Hlow |]; try discriminate.
  clear Hlt Hgt.
  destruct (Z.le_gt_cases e 21) as [Hle | Hgt].
  - rewrite Z.min_l in Hup by lia. rewrite Z.min_r in Hlow by lia.
    rewrite Z.sub_diag, Z.pow_0_r in *.
    assert (Hp : 0 < 10 ^ e) by (apply Z.pow_pos_nonneg; lia).
    replace (10 ^ 21) with (10 ^ (21 - e) * 10 ^ e)
      by (rewrite <- Z.pow_add_r by lia; f_equal; lia).
    apply Z.mul_lt_mono_pos_r; [exact Hp | lia].
  - rewrite Z.min_r in Hup by lia. rewrite Z.min_l in Hlow by lia.
    rewrite Z.sub_diag, Z.pow_0_r in *.
    assert (Hp : 0 < 10 ^ (e - 21)) by (apply Z.pow_pos_nonneg; lia).
    assert (m = 0) by nia. subst m. rewrite Z.mul_0_l. reflexivity.
Qed.

Lemma parseInt_roundtrip (s : string) :
  let x := parseInt_str s (Some 10) in
  isNaN x = false -> below_1e21 x = true ->
  parseInt_str (numToString x) (Some 10) = x.
Proof.
  cbv zeta. intros Hnan Hsmall.
  pose proof (parseInt_str_integral s (Some 10)) as [Hc Hi].
  destruct (parseInt_str s (Some 10)) as [| neg | m e]; [discriminate | | ].
  - destruct neg; vm_compute in Hsmall; discriminate.
  - apply parseInt_numToString; [exact Hc | exact Hi |].
    now apply below_1e21_bound.
Qed.

Lemma parseFloat_roundtrip (s : string) :
  parseFloat_str (numToString (parseFloat_str s)) = parseFloat_str s.
Proof.
  apply parseFloat_numToString, parseFloat_str_canonical.
Qed.

Ltac case_step :=
  match goal with
  | |- context [if has ?k ?a then _ else _] => destruct (has k a)
  | |- context [bind (ToString ?v) _] => destruct (ToString v) as [? | ?]
  | |- context [bind (toString ?v) _] => destruct (toString v) as [? | ?]
  | |- context [if isNaN ?x then _ else _] => destruct (isNaN x) eqn:?
  end; cbn [bind].

Ltac leaf :=
  intros Hout; first [discriminate Hout | apply Ok_inj in Hout; subst];
  cbn -[parseInt_str parseFloat_str toLowerCase];
  repeat split; eauto.

Lemma processQuestionnaireAnswers_shape (answers out : value) :
  truthy answers = true -> typeof answers = "object" ->
  processQuestionnaireAnswers answers = Ok out ->
  out = normalized (num_field "hydration" out) (str_field "sunExposure" out)
          (num_field "sleepHours" out) (num_field "stressLevel" out)
  /\ int_ok (num_field "hydration" out)
  /\ str_ok (str_field "sunExposure" out)
  /\ float_ok (num_field "sleepHours" out)
  /\ int_ok (num_field "stressLevel" out).
Proof.
  intros Ht Hty. unfold processQuestionnaireAnswers.
  rewrite Ht, Hty. cbn [negb orb String.eqb Ascii.eqb Bool.eqb].
  unfold assign_parsed, parseInt, parseFloat.
  repeat case_step.
  all: leaf.
Qed.

Lemma processQuestionnaireAnswers_replay
    (h : option number) (s : option string) (f t : option number) :
  int_rt h -> str_rt s -> float_rt f -> int_rt t ->
  processQuestionnaireAnswers (normalized h s f t) = Ok (normalized h s f t).
Proof.
  intros Hh Hs Hf Ht.
  destruct h as [h |], s as [s |], f as [f |], t as [t |];
    cbn in Hh, Hs, Hf, Ht;
    repeat match goal with H : _ /\ _ |- _ => destruct H end;
    unfold processQuestionnaireAnswers, assign_parsed, parseInt, parseFloat;
    cbn -[parseInt_str parseFloat_str toLowerCase numToString];
    repeat match goal with
           | H : _ = _ |- _ =>
               rewrite H; cbn -[parseInt_str parseFloat_str toLowerCase numToString]
           end;
    reflexivity.
Qed.

Lemma is_object_guard (v : value) :
  is_object v = true -> truthy v = true /\ typeof v = "object".
Proof.
  destruct v; cbn; intros H; try discriminate H; split; reflexivity.
Qed.

(** C8, as amended: for every input object on which
    [processQuestionnaireAnswers] returns a record whose [hydration] and
    [stressLevel], when present, lie strictly between -10^21 and 10^21,
    applying the function to that record returns it unchanged. *)
Theorem processQuestionnaireAnswers_idempotent_below_1e21 (answers out : value) :
  is_object answers = true ->
  processQuestionnaireAnswers answers = Ok out ->
  field_below_1e21 "hydration" out ->
  field_below_1e21 "stressLevel" out ->
  processQuestionnaireAnswers out = Ok out.
Proof.
  intros Hobj Hout Hh Ht.
  destruct (is_object_guard answers Hobj) as [Htruthy Htype].
  destruct (processQuestionnaireAnswers_shape answers out Htruthy Htype Hout)
    as (Hshape & Ih & Is & If & It).
  unfold field_below_1e21 in Hh, Ht.
  rewrite Hshape. apply processQuestionnaireAnswers_replay.
  - destruct (num_field "hydration" out) as [x |]; [| exact I].
    destruct Ih as [[s ->] Hnan]. split; [| exact Hnan].
    now apply parseInt_roundtrip.
  - destruct (str_field "sunExposure" out) as [y |]; [| exact I].
    destruct Is as [s ->]. apply toLowerCase_idempotent.
  - destruct (num_field "sleepHours" out) as [x |]; [| exact I].
    destruct If as [[s ->] Hnan]. split; [| exact Hnan].
    apply parseFloat_roundtrip.
  - destruct (num_field "stressLevel" out) as [x |]; [| exact I].
    destruct It as [[s ->] Hnan]. split; [| exact Hnan].
    now apply parseInt_roundtrip.
Qed.

End Normalization.

(** Answers as a form sends them, with a key that is dropped and one
    that is ignored. *)
Lemma processQuestionnaireAnswers_idempotent_below_1e21_witness :
  let answers :=
    VObj [("hydration", VStr "8 glasses"); ("sunExposure", VStr "High");
          ("sleepHours", VStr "7.5"); ("stressLevel", VStr "n/a");
          ("notes", VStr "none")] in
  let out :=
    VObj [("hydration", VNum (Fin 8 0)); ("sunExposure", VStr "high");
          ("sleepHours", VNum (Fin 75 (-1)))] in
  ProfileProcessor.processQuestionnaireAnswers answers = Ok out
  /\ ProfileProcessor.processQuestionnaireAnswers out = Ok out.
Proof.
  intros answers out. split; [reflexivity |].
  apply (processQuestionnaireAnswers_idempotent_below_1e21 answers out eq_refl eq_refl);
    vm_compute; exact I || reflexivity.
Defined.

(** C8, as stated, fails: 22 digits are parsed to 10^21, which prints
    as 1e+21, of which the second pass keeps the leading 1. *)
Lemma processQuestionnaireAnswers_not_idempotent :
  let answers := VObj [("hydration", VStr "1000000000000000000000")] in
  ProfileProcessor.processQuestionnaireAnswers answers
    = Ok (VObj [("hydration", VNum (Fin 1 21))])
  /\ ProfileProcessor.processQuestionnaireAnswers (VObj [("hydration", VNum (Fin 1 21))])
     = Ok (VObj [("hydration", VNum (Fin 1 0))])
  /\ ProfileProcessor.processQuestionnaireAnswers (VObj [("hydration", VNum (Fin 1 21))])
     <> Ok (VObj [("hydration", VNum (Fin 1 21))]).
Proof.
  cbv zeta. split; [vm_compute; reflexivity |].
  split; [vm_compute; reflexivity |].
  vm_compute. discriminate.
Qed.

(* ===================================================================== *)
(** * Part III: further properties of the modules                        *)
(* ===================================================================== *)

(** ** Integers as numbers *)

Section Integers.

Lemma strip10_value (fuel : nat) :
  forall m e, 0 <= e ->
  let '(m', e') := strip10 fuel m e in 0 <= e' /\ m' * 10 ^ e' = m * 10 ^ e.
Proof.
  induction fuel as [| f IH]; intros m e He; cbn [strip10]; [split; [lia | reflexivity] |].
  destruct (Z.eqb_spec m 0) as [-> | Hm]; [split; [lia | reflexivity] |].
  destruct (Z.eqb_spec (m mod 10) 0) as [Hmod | Hmod]; [| split; [lia | reflexivity]].
  specialize (IH (m / 10) (e + 1) ltac:(lia)).
  destruct (strip10 f (m / 10) (e + 1)) as [m' e']. destruct IH as [He' Hv].
  split; [exact He' |]. rewrite Hv, Z.pow_add_r, Z.pow_1_r by lia.
  assert (m = 10 * (m / 10)) by (apply Z.div_exact; lia). nia.
Qed.

Lemma of_Z_value (z : Z) :
  exists m e, of_Z z = Fin m e /\ 0 <= e /\ m * 10 ^ e = z.
Proof.
  unfold of_Z, mkFin. pose proof (strip10_value (fuel_of z) z 0 ltac:(lia)) as H.
  destruct (strip10 (fuel_of z) z 0) as [m e]. exists m, e.
  rewrite Z.pow_0_r, Z.mul_1_r in H. destruct H. auto.
Qed.

Lemma cmp_fin_integers (m1 e1 m2 e2 : Z) :
  0 <= e1 -> 0 <= e2 ->
  cmp_fin m1 e1 m2 e2 = (m1 * 10 ^ e1 ?= m2 * 10 ^ e2).
Proof.
  intros H1 H2. unfold cmp_fin. set (e := Z.min e1 e2).
  assert (He : 0 <= e <= e1 /\ e <= e2) by (unfold e; lia).
  assert (Hp : 0 < 10 ^ e) by (apply Z.pow_pos_nonneg; lia).
  replace (m1 * 10 ^ e1) with (m1 * 10 ^ (e1 - e) * 10 ^ e)
    by (rewrite <- Z.mul_assoc, <- Z.pow_add_r by lia; do 2 f_equal; lia).
  replace (m2 * 10 ^ e2) with (m2 * 10 ^ (e2 - e) * 10 ^ e)
    by (rewrite <- Z.mul_assoc, <- Z.pow_add_r by lia; do 2 f_equal; lia).
  generalize (m1 * 10 ^ (e1 - e)) (m2 * 10 ^ (e2 - e)). intros a b.
  destruct (Z.compare_spec a b), (Z.compare_spec (a * 10 ^ e) (b * 10 ^ e));
    try reflexivity; nia.
Qed.

Lemma lt_of_Z (a b : Z) : lt (of_Z a) (of_Z b) = (a <? b).
Proof.
  destruct (of_Z_value a) as (m1 & e1 & -> & H1 & <-).
  destruct (of_Z_value b) as (m2 & e2 & -> & H2 & <-).
  unfold lt. rewrite cmp_fin_integers by assumption. unfold Z.ltb.
  destruct (m1 * 10 ^ e1 ?= m2 * 10 ^ e2); reflexivity.
Qed.

Lemma gt_of_Z (a b : Z) : gt (of_Z a) (of_Z b) = (b <? a).
Proof.
  unfold gt. apply lt_of_Z.
Qed.

Lemma ge_of_Z (a b : Z) : ge (of_Z a) (of_Z b) = (b <=? a).
Proof.
  pose proof (lt_of_Z a b) as H.
  destruct (of_Z_value a) as (m1 & e1 & Ea & _).
  destruct (of_Z_value b) as (m2 & e2 & Eb & _).
  rewrite Ea, Eb in *. unfold ge. rewrite H.
  destruct (Z.ltb_spec a b), (Z.leb_spec b a); try reflexivity; lia.
Qed.

Lemma num_eq_of_Z (a b : Z) : num_eq (of_Z a) (of_Z b) = (a =? b).
Proof.
  destruct (of_Z_value a) as (m1 & e1 & -> & H1 & <-).
  destruct (of_Z_value b) as (m2 & e2 & -> & H2 & <-).
  unfold num_eq. rewrite cmp_fin_integers by assumption.
  destruct (Z.compare_spec (m1 * 10 ^ e1) (m2 * 10 ^ e2)),
           (Z.eqb_spec (m1 * 10 ^ e1) (m2 * 10 ^ e2)); try reflexivity; lia.
Qed.

Lemma num_truthy_of_Z (z : Z) : num_truthy (of_Z z) = negb (z =? 0).
Proof.
  destruct (of_Z_value z) as (m & e & -> & He & <-). cbn [num_truthy]. f_equal.
  assert (Hp : 0 < 10 ^ e) by (apply Z.pow_pos_nonneg; lia).
  destruct (Z.eqb_spec m 0), (Z.eqb_spec (m * 10 ^ e) 0); try reflexivity; nia.
Qed.

Lemma parseInt_str_cases (s : string) (radix : option Z) :
  parseInt_str s radix = NaN \/ exists z, parseInt_str s radix = of_Z z.
Proof.
  unfold parseInt_str.
  destruct (split_sign (trimStart s)) as [neg r].
  destruct (negb _ && _); [left; reflexivity |].
  match goal with
  | |- context [let '(R, body) := ?chosen in _] => destruct chosen as [R body]
  end.
  destruct (radix_prefix R body None) as [v |]; [right; eauto | left; reflexivity].
Qed.

End Integers.
(** ** Prefixes and substrings *)

(** Case analysis on a string that a [match] compares with a literal:
    the characters are taken apart as far as the literal goes. *)
Ltac literal_cases c :=
  repeat (destruct c as [| [[|] [|] [|] [|] [|] [|] [|] [|]] c];
          try reflexivity).

Section Substrings.

Lemma prefix_append (a b : string) : String.prefix a (a ++ b) = true.
Proof.
  induction a as [| c a IH]; cbn.
  - destruct b; reflexivity.
  - rewrite IH. destruct (ascii_dec c c); [reflexivity | congruence].
Qed.

Lemma prefix_comparable (m : string) :
  forall a b, String.prefix a m = true -> String.prefix b m = true ->
  String.prefix a b = true \/ String.prefix b a = true.
Proof.
  induction m as [| c m IH]; intros a b; destruct a as [| x a], b as [| y b];
    cbn; auto; try discriminate.
  destruct (ascii_dec x c); [| discriminate].
  destruct (ascii_dec y c); [| discriminate].
  subst. destruct (ascii_dec c c); [| congruence]. apply IH.
Qed.

Lemma prefix_split (a m : string) :
  String.prefix a m = true -> exists rest, m = a ++ rest.
Proof.
  revert m. induction a as [| c a IH]; intros m.
  - intros _. exists m. reflexivity.
  - destruct m as [| d m]; cbn; [discriminate |].
    destruct (ascii_dec c d) as [<- |]; [| discriminate].
    intros H. destruct (IH m H) as [rest ->]. exists rest. reflexivity.
Qed.

Lemma prefix_append_r (p a b : string) :
  String.prefix p a = true -> String.prefix p (a ++ b) = true.
Proof.
  revert a. induction p as [| c p IH]; intros a.
  - intros _. destruct (a ++ b); reflexivity.
  - destruct a as [| d a]; cbn; [discriminate |].
    destruct (ascii_dec c d); [apply IH | discriminate].
Qed.

Lemma includes_append_l (a b p : string) :
  includes a p = true -> includes (a ++ b) p = true.
Proof.
  induction a as [| c a IH]; cbn [includes String.append].
  - rewrite orb_false_r. intros H. destruct p; [| discriminate H].
    destruct b; reflexivity.
  - intros H. apply orb_true_iff in H. apply orb_true_iff.
    destruct H as [H | H]; [left | right; exact (IH H)].
    exact (prefix_append_r p (String c a) b H).
Qed.

Lemma includes_append_r (a b p : string) :
  includes b p = true -> includes (a ++ b) p = true.
Proof.
  intros H. induction a as [| c a IH]; cbn [includes String.append]; [exact H |].
  rewrite IH. apply orb_true_r.
Qed.

Lemma includes_middle (a s b p : string) :
  includes s p = true -> includes (a ++ s ++ b) p = true.
Proof.
  intros H. apply includes_append_r, includes_append_l, H.
Qed.

Lemma drop_append (pre rest : string) :
  drop (String.length pre) (pre ++ rest) = rest.
Proof.
  induction pre as [| c pre IH]; cbn; [reflexivity | exact IH].
Qed.

Lemma take_append (s rest : string) :
  take (String.length s) (s ++ rest) = s.
Proof.
  induction s as [| c s IH]; cbn; [reflexivity | now rewrite IH].
Qed.

Lemma string_length_append (s t : string) :
  String.length (s ++ t) = (String.length s + String.length t)%nat.
Proof.
  induction s as [| c s IH]; cbn; [reflexivity | now rewrite IH].
Qed.

End Substrings.
(** ** The range of the quality score *)

Section QualityRange.
Import PhotoAnalyzer.

(** The raw score and the issue count move together: each issue costs
    points, so a raw score of 30 leaves room for one issue at most. *)
Lemma raw_score_issues (m : metadata) :
  -35 <= Spec.raw_score m <= 55
  /\ (Spec.issue_count m <= 3)%nat
  /\ (30 <= Spec.raw_score m -> (Spec.issue_count m <= 1)%nat).
Proof.
  unfold Spec.raw_score, Spec.issue_count, Spec.size_points, Spec.size_issues,
    Spec.resolution_points, Spec.resolution_issues, Spec.format_points,
    Spec.format_issues.
  destruct (lt (md_fileSize m) (of_Z 100000));
    destruct (gt (md_fileSize m) (of_Z 5000000));
    (destruct (md_dimensions m) as [d |];
     [ destruct (lt (width d) (of_Z 300) || lt (height d) (of_Z 300));
       destruct (ge (width d) (of_Z 800) && ge (height d) (of_Z 600)) | ]);
    destruct (md_format m ==? "JPEG"); destruct (md_format m ==? "PNG");
    destruct (md_format m ==? "WebP"); cbn; lia.
Qed.

Lemma assessImageQuality_facts (m : metadata) :
  let q := assessImageQuality m in
  15 <= score q <= 100
  /\ suitable q = (score q >=? 80)
  /\ suitable q = (Spec.raw_score m >=? 30)
  /\ (List.length (issues q) <= 3)%nat.
Proof.
  cbv zeta. unfold assessImageQuality. cbn [score issues suitable]. unfold count.
  rewrite raw_quality_score, raw_quality_issues.
  pose proof (raw_score_issues m) as (Hr & Hi & H1).
  split; [lia |].
  assert (Hs : (Spec.raw_score m >=? 30) && (Z.of_nat (Spec.issue_count m) <? 3)
               = (Spec.raw_score m >=? 30)).
  { destruct (Z.geb_spec (Spec.raw_score m) 30) as [H30 | H30]; [| reflexivity].
    cbn [andb]. apply Z.ltb_lt. specialize (H1 H30). lia. }
  rewrite Hs. split; [| split; [reflexivity | exact Hi]].
  destruct (Z.geb_spec (Spec.raw_score m) 30),
           (Z.geb_spec (Z.max 0 (Z.min 100 (Spec.raw_score m + 50))) 80);
    try reflexivity; lia.
Qed.

Lemma suitable_one_issue (m : metadata) :
  suitable (assessImageQuality m) = true ->
  (List.length (issues (assessImageQuality m)) <= 1)%nat.
Proof.
  unfold assessImageQuality. cbn [score issues suitable]. unfold count.
  rewrite raw_quality_score, raw_quality_issues.
  pose proof (raw_score_issues m) as (Hr & Hi & H1). lia.
Qed.

(** X1: the score that [assessImageQuality] reports lies between 15 and
    100 for every photo, so the lower clamp at 0 is never reached, and
    at most three issues are recorded. *)
Theorem assessImageQuality_score_range (m : metadata) :
  15 <= score (assessImageQuality m) <= 100
  /\ score (assessImageQuality m) = Z.min 100 (score (raw_quality m) + 50)
  /\ (List.length (issues (assessImageQuality m)) <= 3)%nat.
Proof.
  pose proof (assessImageQuality_facts m) as (Hs & _ & _ & Hi). cbv zeta in *.
  split; [exact Hs |]. split; [| exact Hi].
  unfold assessImageQuality. cbn [score]. rewrite raw_quality_score.
  pose proof (raw_score_issues m). lia.
Qed.

(** X2: a photo is suitable exactly when its reported score is 80 or
    more, that is when its raw score is 30 or more; the test on the
    number of issues never decides, since a suitable photo has one issue
    at most. *)
Theorem assessImageQuality_suitable_iff_score_80 (m : metadata) :
  suitable (assessImageQuality m) = (score (assessImageQuality m) >=? 80)
  /\ suitable (assessImageQuality m) = (score (raw_quality m) >=? 30)
  /\ (List.length (issues (assessImageQuality m))
      <= (if suitable (assessImageQuality m) then 1 else 3))%nat.
Proof.
  pose proof (assessImageQuality_facts m) as (_ & H80 & H30 & Hi). cbv zeta in *.
  split; [exact H80 |]. split; [rewrite raw_quality_score; exact H30 |].
  destruct (suitable (assessImageQuality m)) eqn:Hs; [| exact Hi].
  apply suitable_one_issue, Hs.
Qed.

(** X3: a file of less than 100000 bytes is never found suitable,
    whatever its dimensions and format: its score is 75 at most. *)
Theorem assessImageQuality_small_file_unsuitable (m : metadata) :
  lt (md_fileSize m) (of_Z 100000) = true ->
  suitable (assessImageQuality m) = false
  /\ score (assessImageQuality m) <= 75.
Proof.
  intros Hsmall.
  pose proof (assessImageQuality_facts m) as (_ & _ & Hs30 & _). cbv zeta in *.
  assert (Hraw : Spec.raw_score m <= 25).
  { unfold Spec.raw_score, Spec.size_points, Spec.resolution_points,
      Spec.format_points.
    rewrite Hsmall.
    destruct (md_dimensions m) as [d |];
      [ destruct (lt (width d) (of_Z 300) || lt (height d) (of_Z 300));
        destruct (ge (width d) (of_Z 800) && ge (height d) (of_Z 600)) | ];
      destruct ((md_format m ==? "JPEG") || (md_format m ==? "PNG"));
      destruct (md_format m ==? "WebP"); lia. }
  rewrite Hs30.
  unfold assessImageQuality. cbn [score]. rewrite raw_quality_score.
  split; [rewrite Z.geb_leb; apply Z.leb_gt; lia | lia].
Qed.

End QualityRange.

(** A sharp JPEG of 99999 bytes. *)
Lemma assessImageQuality_small_file_unsuitable_witness :
  let m := PhotoAnalyzer.mkMetadata "https://cdn.example.com/face.jpg" "image/jpeg"
             (of_Z 99999) None "JPEG" "2024-01-01T00:00:00.000Z"
             (Some (PhotoAnalyzer.mkDimensions (of_Z 1000) (of_Z 800) "1.00" true))
             None in
  PhotoAnalyzer.suitable (PhotoAnalyzer.assessImageQuality m) = false
  /\ PhotoAnalyzer.score (PhotoAnalyzer.assessImageQuality m) <= 75.
Proof.
  intros m. apply (assessImageQuality_small_file_unsuitable m). reflexivity.
Defined.

(** ** Dimensions estimated from the file size *)

Section SizeAndQuality.
Import PhotoAnalyzer.

Lemma round_sqrt_monotone (a b d : Z) :
  0 <= a <= b -> 0 < d -> round_sqrt a d <= round_sqrt b d.
Proof.
  intros Hab Hd. unfold round_sqrt.
  apply Z.div_le_mono; [lia |].
  apply Z.add_le_mono_r, Z.sqrt_le_mono, Z.div_le_mono; lia.
Qed.

Lemma round_sqrt_nonneg (a d : Z) : 0 <= a -> 0 < d -> 0 <= round_sqrt a d.
Proof.
  intros Ha Hd. unfold round_sqrt. apply Z.div_pos; [| lia].
  pose proof (Z.sqrt_nonneg (4 * a / d)). lia.
Qed.

(** On a byte count the estimate is the rounded root of an integer ratio. *)
Lemma estimateDimensions_of_bytes (n : Z) (format : string) :
  0 <= n ->
  estimateDimensions (of_Z n) format
  = let side := of_Z (round_sqrt (n * Spec.compressionRatio format) 3) in
    mkDimensions side side "1.00" true.
Proof.
  intros Hn. unfold estimateDimensions. rewrite compressionRatio_agrees.
  destruct (of_Z_value n) as (m & e & -> & He & Hv).
  unfold Math_round_sqrt_ratio.
  assert (Hp : 0 < 10 ^ e) by (apply Z.pow_pos_nonneg; lia).
  destruct (Z.ltb_spec m 0) as [Hneg | _]; [nia |].
  rewrite (Z.max_l e 0), (Z.max_r (- e) 0) by lia.
  rewrite Z.pow_0_r, Z.mul_1_r.
  replace (m * Spec.compressionRatio format * 10 ^ e)
    with (n * Spec.compressionRatio format) by (rewrite <- Hv; ring).
  reflexivity.
Qed.

Lemma compressionRatio_range (format : string) :
  6 <= Spec.compressionRatio format <= 12.
Proof.
  unfold Spec.compressionRatio.
  destruct (format ==? "PNG"); [lia |].
  destruct (format ==? "JPEG"); [lia |].
  destruct (format ==? "WebP"); lia.
Qed.

(** X4: among files of 1024 to 10485760 bytes, the sizes that reach
    [estimateDimensions], the estimated side of a given format does not
    shrink when the file grows; the estimate is a whole number of
    pixels, the same for width and height. *)
Theorem estimateDimensions_monotone (a b : Z) (format : string) :
  1024 <= a <= b /\ b <= 10485760 ->
  exists wa wb,
    estimateDimensions (of_Z a) format = mkDimensions (of_Z wa) (of_Z wa) "1.00" true
    /\ estimateDimensions (of_Z b) format = mkDimensions (of_Z wb) (of_Z wb) "1.00" true
    /\ 0 <= wa <= wb.
Proof.
  intros Hab. pose proof (compressionRatio_range format) as Hr.
  rewrite !estimateDimensions_of_bytes by lia. cbv zeta.
  eexists _, _. split; [reflexivity |]. split; [reflexivity |]. split.
  - apply round_sqrt_nonneg; nia.
  - apply round_sqrt_monotone; nia.
Qed.

(** X5: from 100000 to 5000000 bytes, a photo in one of the three
    recognized formats whose dimensions are estimated from its size is
    suitable, with a score of 90 at least: the estimate is never under
    300 pixels there. *)
Theorem sized_photo_suitable (n : Z) (format : string)
    (url contentType timestamp : string) (lastModified : option string) :
  100000 <= n <= 5000000 ->
  Spec.format_issues format = 0%nat ->
  let m := mkMetadata url contentType (of_Z n) lastModified format timestamp
             (Some (estimateDimensions (of_Z n) format)) None in
  suitable (assessImageQuality m) = true
  /\ 90 <= score (assessImageQuality m).
Proof.
  intros Hn Hf m.
  pose proof (assessImageQuality_facts m) as (_ & _ & Hs30 & _). cbv zeta in Hs30.
  assert (Hraw : 40 <= Spec.raw_score m).
  { unfold Spec.raw_score, Spec.size_points, Spec.resolution_points, Spec.format_points.
    unfold m. cbn [md_fileSize md_dimensions md_format].
    rewrite lt_of_Z, gt_of_Z.
    destruct (Z.ltb_spec n 100000); [lia |].
    destruct (Z.ltb_spec 5000000 n); [lia |].
    rewrite estimateDimensions_of_bytes by lia. cbv zeta. cbn [width height].
    rewrite lt_of_Z.
    pose proof (compressionRatio_range format) as Hr.
    assert (Hw : 447 <= round_sqrt (n * Spec.compressionRatio format) 3).
    { change 447 with (round_sqrt 600000 3). apply round_sqrt_monotone; nia. }
    destruct (Z.ltb_spec (round_sqrt (n * Spec.compressionRatio format) 3) 300);
      [lia |]. cbn [orb].
    unfold Spec.format_issues in Hf.
    destruct (ge _ _ && ge _ _);
      destruct (format ==? "JPEG"); destruct (format ==? "PNG");
      destruct (format ==? "WebP"); cbn in Hf |- *; try discriminate; lia. }
  rewrite Hs30.
  unfold assessImageQuality. cbn [score]. rewrite raw_quality_score.
  split; [rewrite Z.geb_leb; apply Z.leb_le; lia | lia].
Qed.

End SizeAndQuality.

(** A JPEG of 100000 bytes and one of twice the size. *)
Lemma estimateDimensions_monotone_witness :
  exists wa wb,
    PhotoAnalyzer.estimateDimensions (of_Z 100000) "JPEG"
    = PhotoAnalyzer.mkDimensions (of_Z wa) (of_Z wa) "1.00" true
    /\ PhotoAnalyzer.estimateDimensions (of_Z 200000) "JPEG"
       = PhotoAnalyzer.mkDimensions (of_Z wb) (of_Z wb) "1.00" true
    /\ 0 <= wa <= wb.
Proof.
  apply (estimateDimensions_monotone 100000 200000 "JPEG"). lia.
Defined.

(** A WebP of 100000 bytes, the smallest file of the range. *)
Lemma sized_photo_suitable_witness :
  let m := PhotoAnalyzer.mkMetadata "https://cdn.example.com/face.webp" "image/webp"
             (of_Z 100000) None "WebP" "2024-01-01T00:00:00.000Z"
             (Some (PhotoAnalyzer.estimateDimensions (of_Z 100000) "WebP")) None in
  PhotoAnalyzer.suitable (PhotoAnalyzer.assessImageQuality m) = true
  /\ 90 <= PhotoAnalyzer.score (PhotoAnalyzer.assessImageQuality m).
Proof.
  apply (sized_photo_suitable 100000 "WebP" "https://cdn.example.com/face.webp"
           "image/webp" "2024-01-01T00:00:00.000Z" None); [lia | reflexivity].
Defined.

(** ** Photo URLs, one by one *)

Section UrlAccounting.
Import PhotoAnalyzer.
Variable isURL : string -> result bool.

(** A URL with one of the supported extensions has a recognized format. *)
Lemma detectImageFormat_supported (url : string) :
  existsb (fun format => includes (toLowerCase url) format) supportedFormats
  = negb (detectImageFormat url ==? "UNKNOWN").
Proof.
  unfold detectImageFormat, supportedFormats. cbn [existsb].
  destruct (includes (toLowerCase url) ".png");
    destruct (includes (toLowerCase url) ".webp");
    destruct (includes (toLowerCase url) ".jpeg");
    destruct (includes (toLowerCase url) ".jpg"); reflexivity.
Qed.

Lemma detectImageFormat_values (url : string) :
  In (detectImageFormat url) ["PNG"; "WebP"; "JPEG"; "UNKNOWN"].
Proof.
  unfold detectImageFormat.
  destruct (includes (toLowerCase url) ".png"); [cbn; tauto |].
  destruct (includes (toLowerCase url) ".webp"); [cbn; tauto |].
  destruct (includes (toLowerCase url) ".jpeg"); [cbn; tauto |].
  destruct (includes (toLowerCase url) ".jpg"); cbn; tauto.
Qed.

(** One turn of the loop adds one entry to exactly one of the two lists. *)
Lemma validate_one_cases (url : value) (i : Z)
    (V : list validated_photo) (E : list url_error) :
  (exists u,
     url = VStr u
     /\ isURL (trim u) = Ok true
     /\ detectImageFormat (trim u) <> "UNKNOWN"
     /\ validate_one isURL url i (V, E)
        = (push V (mkPhoto (trim u) i (detectImageFormat (trim u))), E))
  \/ (exists e,
        ue_index e = i
        /\ In (ue_error e) ["INVALID_URL_FORMAT"; "MALFORMED_URL";
                            "UNSUPPORTED_FORMAT"; "VALIDATION_ERROR"]
        /\ validate_one isURL url i (V, E) = (V, push E e)).
Proof.
  unfold validate_one.
  destruct url as [ | | b | x | u | items | fields ];
    try (right; eexists; split; [| split; [| reflexivity]];
         [reflexivity | cbn; tauto]).
  destruct (str_length (trim u) =? 0).
  { right; eexists; split; [| split; [| reflexivity]]; [reflexivity | cbn; tauto]. }
  destruct (isURL (trim u)) as [[|] | e] eqn:Hurl.
  - rewrite detectImageFormat_supported, negb_involutive.
    destruct (detectImageFormat (trim u) ==? "UNKNOWN") eqn:Hf.
    + right; eexists; split; [| split; [| reflexivity]]; [reflexivity | cbn; tauto].
    + left. exists u. repeat split; auto.
      intros Heq. rewrite Heq in Hf. discriminate.
  - right; eexists; split; [| split; [| reflexivity]]; [reflexivity | cbn; tauto].
  - right; eexists; split; [| split; [| reflexivity]]; [reflexivity | cbn; tauto].
Qed.

Lemma validate_each_spec (urls : list value) :
  forall i V0 E0,
  exists V E,
    validate_each isURL urls i (V0, E0) = ((V0 ++ V)%list, (E0 ++ E)%list)
    /\ (List.length V + List.length E)%nat = List.length urls
    /\ (forall v, In v V ->
        exists k u,
          index v = i + Z.of_nat k
          /\ nth_error urls k = Some (VStr u)
          /\ originalUrl v = trim u
          /\ isURL (trim u) = Ok true
          /\ format v = detectImageFormat (trim u)
          /\ format v <> "UNKNOWN")
    /\ (forall e, In e E ->
        i <= ue_index e < i + Z.of_nat (List.length urls)
        /\ In (ue_error e) ["INVALID_URL_FORMAT"; "MALFORMED_URL";
                            "UNSUPPORTED_FORMAT"; "VALIDATION_ERROR"])
    /\ (E = [] ->
        map index V = map (fun k => i + Z.of_nat k) (seq 0 (List.length urls))).
Proof.
  induction urls as [| url rest IH]; intros i V0 E0.
  - exists [], []. cbn. rewrite !app_nil_r.
    repeat split; auto; contradiction.
  - cbn [validate_each].
    destruct (validate_one_cases url i V0 E0)
      as [(u & -> & Hurl & Hfmt & ->) | (e & Hidx & Herr & ->)].
    + destruct (IH (i + 1) (push V0 (mkPhoto (trim u) i (detectImageFormat (trim u)))) E0)
        as (V & E & Heq & Hlen & HV & HE & Hall).
      exists (mkPhoto (trim u) i (detectImageFormat (trim u)) :: V), E.
      rewrite Heq. unfold push. rewrite <- app_assoc. cbn [app List.length].
      split; [reflexivity |]. split; [lia |]. split; [| split].
      * intros v [<- | Hin].
        -- exists 0%nat, u. cbn. repeat split; auto. lia.
        -- destruct (HV v Hin) as (k & u' & Hi & Hn & Hrest).
           exists (S k), u'. cbn [nth_error]. repeat split; try tauto. lia.
      * intros e Hin. destruct (HE e Hin) as [Hr Hc]. split; [lia | exact Hc].
      * intros HEnil. cbn [map seq index]. rewrite (Hall HEnil).
        f_equal; [lia |]. rewrite <- seq_shift, map_map.
        apply map_ext. intros k. lia.
    + destruct (IH (i + 1) V0 (push E0 e)) as (V & E & Heq & Hlen & HV & HE & Hall).
      exists V, (e :: E).
      rewrite Heq. unfold push. rewrite <- app_assoc. cbn [app List.length].
      split; [reflexivity |]. split; [lia |]. split; [| split].
      * intros v Hin. destruct (HV v Hin) as (k & u' & Hi & Hn & Hrest).
        exists (S k), u'. cbn [nth_error]. repeat split; try tauto. lia.
      * intros e' [<- | Hin].
        -- split; [lia | exact Herr].
        -- destruct (HE e' Hin) as [Hr Hc]. split; [lia | exact Hc].
      * discriminate.
Qed.

Lemma str_length_blank (s : string) : str_length s = 0 <-> s = "".
Proof.
  unfold str_length. destruct s as [| c r]; cbn [String.length];
    split; intros H; try reflexivity; try discriminate H; lia.
Qed.

Lemma allowed_extension_agrees (url : string) :
  existsb (fun format => includes (toLowerCase url) format) supportedFormats
  = Spec.allowed_extension url.
Proof.
  reflexivity.
Qed.

Lemma photo_message (i : Z) (reason : string) :
  ("Photo " ++ show (i + 1) ++ ": ") ++ reason
  = "Photo " ++ show (i + 1) ++ ": " ++ reason.
Proof.
  rewrite !append_assoc. reflexivity.
Qed.

(** One turn of the loop, with what it adds and why. *)
Lemma validate_one_accounts (url : value) (i : Z)
    (V : list validated_photo) (E : list url_error) :
  (exists v,
     Spec.fit_entry isURL url i v
     /\ validate_one isURL url i (V, E) = (push V v, E))
  \/ (exists e,
        Spec.unfit_error isURL url i e
        /\ validate_one isURL url i (V, E) = (V, push E e)).
Proof.
  unfold validate_one.
  destruct url as [ | | b | x | u | items | fields ];
    try (right; eexists; split; [| reflexivity];
         exists "INVALID_URL_FORMAT", "URL must be a non-empty string";
         split; [f_equal; apply photo_message |]; left; split; [reflexivity |];
         split; [reflexivity |]; intros other Hother; discriminate Hother).
  destruct (Z.eqb_spec (str_length (trim u)) 0) as [Hblank | Hfilled].
  { right; eexists; split; [| reflexivity].
    exists "INVALID_URL_FORMAT", "URL must be a non-empty string".
    split; [f_equal; apply photo_message |].
    left. split; [reflexivity |]. split; [reflexivity |].
    intros u' [= <-]. apply str_length_blank. exact Hblank. }
  assert (Hne : trim u <> "") by (intros Hnil; apply Hfilled, str_length_blank, Hnil).
  destruct (isURL (trim u)) as [[|] | thrown] eqn:Hurl.
  - rewrite allowed_extension_agrees.
    destruct (Spec.allowed_extension (trim u)) eqn:Hext; cbn [negb].
    + left. eexists. split; [| reflexivity].
      exists u. repeat split; auto.
    + right; eexists; split; [| reflexivity].
      exists "UNSUPPORTED_FORMAT", "Must be JPG, JPEG, PNG, or WebP format".
      split; [f_equal; apply photo_message |].
      right. exists u. split; [reflexivity |].
      split; [exact Hne |]. right. right. auto.
  - right; eexists; split; [| reflexivity].
    exists "MALFORMED_URL", "URL format is invalid".
    split; [f_equal; apply photo_message |].
    right. exists u. split; [reflexivity |].
    split; [exact Hne |]. right. left. auto.
  - right; eexists; split; [| reflexivity].
    exists "VALIDATION_ERROR", (err_message thrown).
    split; [f_equal; apply photo_message |].
    right. exists u. split; [reflexivity |].
    split; [exact Hne |]. left. split; [reflexivity |]. exists thrown. auto.
Qed.

Lemma fit_entry_index (url : value) (k : Z) (v : validated_photo) :
  Spec.fit_entry isURL url k v -> index v = k.
Proof.
  intros (u & _ & _ & _ & _ & ->). reflexivity.
Qed.

Lemma unfit_error_index (url : value) (k : Z) (e : url_error) :
  Spec.unfit_error isURL url k e -> ue_index e = k.
Proof.
  intros (name & reason & -> & _). reflexivity.
Qed.

(** The loop accounts for every element: the element at position [k]
    has its entry in one list and nothing under its index in the
    other, and both lists are in the order of the input. *)
Lemma validate_each_accounts (urls : list value) :
  forall i V0 E0,
  exists V E,
    validate_each isURL urls i (V0, E0) = ((V0 ++ V)%list, (E0 ++ E)%list)
    /\ (forall v, In v V -> i <= index v < i + Z.of_nat (List.length urls))
    /\ (forall e, In e E -> i <= ue_index e < i + Z.of_nat (List.length urls))
    /\ StronglySorted Z.lt (map index V)
    /\ StronglySorted Z.lt (map ue_index E)
    /\ (forall k url,
        nth_error urls k = Some url ->
        (exists v,
           Spec.fit_entry isURL url (i + Z.of_nat k) v
           /\ In v V
           /\ forall e, In e E -> ue_index e <> i + Z.of_nat k)
        \/ (exists e,
              Spec.unfit_error isURL url (i + Z.of_nat k) e
              /\ In e E
              /\ forall v, In v V -> index v <> i + Z.of_nat k)).
Proof.
  induction urls as [| url rest IH]; intros i V0 E0.
  - exists [], []. cbn [validate_each map]. rewrite !app_nil_r.
    split; [reflexivity |].
    split; [intros v [] |]. split; [intros e [] |].
    split; [constructor |]. split; [constructor |].
    intros [| k] url H; discriminate H.
  - cbn [validate_each List.length]. rewrite Nat2Z.inj_succ.
    destruct (validate_one_accounts url i V0 E0)
      as [(v & Hfit & ->) | (e & Hunfit & ->)].
    + pose proof (fit_entry_index url i v Hfit) as Hi.
      destruct (IH (i + 1) (push V0 v) E0)
        as (V & E & Heq & HV & HE & HsV & HsE & Hsplit).
      exists (v :: V), E.
      rewrite Heq. unfold push. rewrite <- app_assoc. cbn [app].
      split; [reflexivity |]. split; [| split; [| split; [| split]]].
      * intros v' [<- | Hin]; [lia | specialize (HV v' Hin); lia].
      * intros e Hin. specialize (HE e Hin). lia.
      * cbn [map]. constructor; [exact HsV |].
        apply Forall_forall. intros z Hz.
        apply in_map_iff in Hz. destruct Hz as (v' & <- & Hin).
        specialize (HV v' Hin). lia.
      * exact HsE.
      * intros [| k] url' Hnth; cbn [nth_error] in Hnth.
        -- injection Hnth as <-. left. exists v.
           rewrite Z.add_0_r. split; [exact Hfit |]. split; [left; reflexivity |].
           intros e Hin. specialize (HE e Hin). lia.
        -- replace (i + Z.of_nat (S k)) with (i + 1 + Z.of_nat k) by lia.
           destruct (Hsplit k url' Hnth)
             as [(v' & Hfit' & Hin & Hno) | (e & Hunfit & Hin & Hno)].
           ++ left. exists v'. split; [exact Hfit' |]. split; [right; exact Hin |].
              exact Hno.
           ++ right. exists e. split; [exact Hunfit |]. split; [exact Hin |].
              intros v' [<- | Hin']; [lia | exact (Hno v' Hin')].
    + pose proof (unfit_error_index url i e Hunfit) as Hi.
      destruct (IH (i + 1) V0 (push E0 e))
        as (V & E & Heq & HV & HE & HsV & HsE & Hsplit).
      exists V, (e :: E).
      rewrite Heq. unfold push. rewrite <- app_assoc. cbn [app].
      split; [reflexivity |]. split; [| split; [| split; [| split]]].
      * intros v Hin. specialize (HV v Hin). lia.
      * intros e' [<- | Hin]; [lia | specialize (HE e' Hin); lia].
      * exact HsV.
      * cbn [map]. constructor; [exact HsE |].
        apply Forall_forall. intros z Hz.
        apply in_map_iff in Hz. destruct Hz as (e' & <- & Hin).
        specialize (HE e' Hin). lia.
      * intros [| k] url' Hnth; cbn [nth_error] in Hnth.
        -- injection Hnth as <-. right. exists e.
           rewrite Z.add_0_r. split; [exact Hunfit |]. split; [left; reflexivity |].
           intros v Hin. specialize (HV v Hin). lia.
        -- replace (i + Z.of_nat (S k)) with (i + 1 + Z.of_nat k) by lia.
           destruct (Hsplit k url' Hnth)
             as [(v & Hfit & Hin & Hno) | (e' & Hunfit' & Hin & Hno)].
           ++ left. exists v. split; [exact Hfit |]. split; [exact Hin |].
              intros e' [<- | Hin']; [lia | exact (Hno e' Hin')].
           ++ right. exists e'. split; [exact Hunfit' |]. split; [right; exact Hin |].
              exact Hno.
Qed.

(** X6: for one to five URLs, every URL ends in exactly one of the two
    lists.  The URL at position [k] is a non-empty string that [isURL]
    accepts and that holds an allowed extension, and then its entry is
    among the validated ones and no error bears the index [k]; or it is
    not, and then the error that names what it fails, with the index
    [k] and the message for photo [k + 1], is among the errors and no
    validated entry bears the index [k].  Both lists hold nothing else:
    their indices are positions of the input, in increasing order, and
    the two lists together number as many as the URLs.  The errors are
    left out of the answer when there are none, and the call succeeds
    exactly then, with the entries numbered from 0. *)
Theorem validatePhotoUrls_accounts_for_every_url (urls : list value) :
  (1 <= List.length urls <= 5)%nat ->
  let r := validatePhotoUrls isURL (VArr urls) in
  exists V E,
    uv_validatedUrls r = Some V
    /\ uv_errors r = (if uv_success r then None else Some E)
    /\ (List.length V + List.length E)%nat = List.length urls
    /\ uv_success r = (Nat.eqb (List.length E) 0)
    /\ uv_error r = (if uv_success r then None else Some "VALIDATION_FAILED")
    /\ (forall k url,
        nth_error urls k = Some url ->
        (exists v,
           Spec.fit_entry isURL url (Z.of_nat k) v
           /\ In v V
           /\ forall e, In e E -> ue_index e <> Z.of_nat k)
        \/ (exists e,
              Spec.unfit_error isURL url (Z.of_nat k) e
              /\ In e E
              /\ forall v, In v V -> index v <> Z.of_nat k))
    /\ (forall v, In v V -> 0 <= index v < count urls)
    /\ (forall e, In e E ->
        0 <= ue_index e < count urls
        /\ In (ue_error e) ["INVALID_URL_FORMAT"; "MALFORMED_URL";
                            "UNSUPPORTED_FORMAT"; "VALIDATION_ERROR"])
    /\ StronglySorted Z.lt (map index V)
    /\ StronglySorted Z.lt (map ue_index E)
    /\ (uv_success r = true ->
        map index V = map Z.of_nat (seq 0 (List.length urls))).
Proof.
  intros Hlen. cbv zeta. unfold validatePhotoUrls, count.
  destruct (Z.eqb_spec (Z.of_nat (List.length urls)) 0) as [H0 | _]; [lia |].
  destruct (Z.gtb_spec (Z.of_nat (List.length urls)) 5) as [H5 | _]; [lia |].
  destruct (validate_each_spec urls 0 [] []) as (V & E & Heq & Hsum & _ & HE & Hall).
  destruct (validate_each_accounts urls 0 [] [])
    as (V' & E' & Heq' & HV' & _ & HsV & HsE & Hsplit).
  rewrite Heq in Heq'. cbn [app] in Heq'. injection Heq' as <- <-.
  assert (Hsplit0 :
    forall k url,
      nth_error urls k = Some url ->
      (exists v,
         Spec.fit_entry isURL url (Z.of_nat k) v
         /\ In v V
         /\ forall e, In e E -> ue_index e <> Z.of_nat k)
      \/ (exists e,
            Spec.unfit_error isURL url (Z.of_nat k) e
            /\ In e E
            /\ forall v, In v V -> index v <> Z.of_nat k)).
  { intros k url Hnth. exact (Hsplit k url Hnth). }
  clear Hsplit.
  rewrite Heq. cbn [app]. exists V, E.
  destruct E as [| e E]; cbn [List.length].
  - cbn [Z.of_nat Z.gtb Z.compare uv_validatedUrls uv_errors uv_success uv_error
         Nat.eqb].
    split; [reflexivity |]. split; [reflexivity |]. split; [exact Hsum |].
    split; [reflexivity |]. split; [reflexivity |].
    split; [exact Hsplit0 |]. split; [exact HV' |].
    split; [intros e [] |]. split; [exact HsV |]. split; [exact HsE |].
    intros _. rewrite (Hall eq_refl).
    apply map_ext. intros k. lia.
  - destruct (Z.gtb_spec (Z.of_nat (S (List.length E))) 0) as [_ | Hz]; [| lia].
    cbn [uv_validatedUrls uv_errors uv_success uv_error Nat.eqb].
    split; [reflexivity |]. split; [reflexivity |]. split; [exact Hsum |].
    split; [reflexivity |]. split; [reflexivity |].
    split; [exact Hsplit0 |]. split; [exact HV' |].
    split; [intros e0 Hin; apply (HE e0 Hin) |].
    split; [exact HsV |]. split; [exact HsE |]. discriminate.
Qed.

(** What a validated entry stands for. *)
Lemma validated_entry
    (photoUrls : value) (V : list validated_photo) (v : validated_photo) :
  uv_validatedUrls (validatePhotoUrls isURL photoUrls) = Some V ->
  In v V ->
  exists urls u,
    photoUrls = VArr urls
    /\ 0 <= index v
    /\ nth_error urls (Z.to_nat (index v)) = Some (VStr u)
    /\ originalUrl v = trim u
    /\ isURL (originalUrl v) = Ok true
    /\ format v = detectImageFormat (originalUrl v)
    /\ In (format v) ["PNG"; "WebP"; "JPEG"].
Proof.
  unfold validatePhotoUrls.
  destruct photoUrls as [ | | | | | urls | ]; try discriminate.
  destruct (count urls =? 0); [discriminate |].
  destruct (count urls >? 5); [discriminate |].
  destruct (validate_each_spec urls 0 [] []) as (V' & E & Heq & _ & HV & _).
  rewrite Heq. cbn [app].
  intros HV' Hin.
  assert (V' = V) as ->
    by (destruct (count E >? 0); cbn in HV'; congruence).
  destruct (HV v Hin) as (k & u & Hi & Hn & Ho & Hu & Hf & Hk).
  exists urls, u. rewrite Hi, Z.add_0_l, Nat2Z.id, Ho.
  repeat split; auto; try lia.
  pose proof (detectImageFormat_values (trim u)) as Hval.
  rewrite <- Hf in Hval. cbn in Hval |- *. intuition congruence.
Qed.

(** X7: every validated entry stands for the string at its index in the
    input: it carries that string trimmed, which [isURL] accepted, and
    the format detected from it, which is PNG, WebP or JPEG. *)
Theorem validatePhotoUrls_validated_entries
    (photoUrls : value) (V : list validated_photo) (v : validated_photo) :
  uv_validatedUrls (validatePhotoUrls isURL photoUrls) = Some V ->
  In v V ->
  exists urls u,
    photoUrls = VArr urls
    /\ 0 <= index v
    /\ nth_error urls (Z.to_nat (index v)) = Some (VStr u)
    /\ originalUrl v = trim u
    /\ isURL (originalUrl v) = Ok true
    /\ format v = detectImageFormat (originalUrl v)
    /\ In (format v) ["PNG"; "WebP"; "JPEG"].
Proof.
  exact (validated_entry photoUrls V v).
Qed.

End UrlAccounting.

(** Three URLs: one fit, one that is no URL and one without an image
    extension. *)
Lemma validatePhotoUrls_accounts_for_every_url_witness :
  let urls := [VStr " https://cdn.example.com/face.JPG "; VStr "not a url";
               VStr "https://cdn.example.com/face.gif"] in
  let r := PhotoAnalyzer.validatePhotoUrls sample_isURL (VArr urls) in
  exists V E,
    PhotoAnalyzer.uv_validatedUrls r = Some V
    /\ PhotoAnalyzer.uv_errors r = Some E
    /\ (List.length V + List.length E)%nat = 3%nat.
Proof.
  intros urls r.
  assert (Hlen : (1 <= List.length urls <= 5)%nat) by (cbn; lia).
  destruct (validatePhotoUrls_accounts_for_every_url sample_isURL urls Hlen)
    as (V & E & HV & HE & Hsum & _).
  exists V, E. split; [exact HV |]. split; [exact HE | exact Hsum].
Defined.

(** The entry of the one URL that fits. *)
Lemma validatePhotoUrls_validated_entries_witness :
  let photoUrls := VArr [VStr "not a url"; VStr " https://cdn.example.com/face.JPG "] in
  let v := PhotoAnalyzer.mkPhoto "https://cdn.example.com/face.JPG" 1 "JPEG" in
  exists urls u,
    photoUrls = VArr urls
    /\ 0 <= PhotoAnalyzer.index v
    /\ nth_error urls (Z.to_nat (PhotoAnalyzer.index v)) = Some (VStr u)
    /\ PhotoAnalyzer.originalUrl v = trim u
    /\ sample_isURL (PhotoAnalyzer.originalUrl v) = Ok true
    /\ PhotoAnalyzer.format v
       = PhotoAnalyzer.detectImageFormat (PhotoAnalyzer.originalUrl v)
    /\ In (PhotoAnalyzer.format v) ["PNG"; "WebP"; "JPEG"].
Proof.
  intros photoUrls v.
  apply (validatePhotoUrls_validated_entries sample_isURL photoUrls [v] v eq_refl).
  left. reflexivity.
Defined.

(** ** Profiles: what is accepted, what is reported, what throws *)

Section ProfileErrors.
Import ProfileProcessor.

(** Each check appends to the errors it is given. *)
Lemma check_string_acc (f : field) (v : value) (errors : list string) :
  check_string f v errors = (errors ++ check_string f v [])%list.
Proof.
  unfold check_string, push.
  destruct ((type f ==? "string") && negb (typeof v ==? "string"));
    [reflexivity | now rewrite app_nil_r].
Qed.

Lemma check_number_acc (f : field) (v : value) (errors : list string) :
  check_number f v errors = (errors ++ check_number f v [])%list.
Proof.
  unfold check_number, push.
  destruct (type f ==? "number"); [| now rewrite app_nil_r].
  destruct v as [ | | | x | | | ]; try reflexivity.
  destruct (isNaN x); [reflexivity |].
  destruct (min f) as [lo |], (max f) as [hi |];
    repeat match goal with
           | |- context [if ?c then _ else _] => destruct c
           end;
    cbn [app]; rewrite <- ?app_assoc, ?app_nil_r; reflexivity.
Qed.

Lemma check_array_acc (f : field) (v : value) (errors : list string) :
  check_array f v errors
  = (added <- check_array f v [] ;; Ok (errors ++ added)%list).
Proof.
  unfold check_array, push.
  destruct ((type f ==? "object") && isArrayField f);
    [| cbn; now rewrite app_nil_r].
  destruct v as [ | | | | | items | ]; try reflexivity.
  destruct (allowed f) as [al |]; [| cbn; now rewrite app_nil_r].
  destruct (filter _ items) as [| x invalid]; [cbn; now rewrite app_nil_r |].
  destruct (join_values ", " (x :: invalid)); reflexivity.
Qed.

Lemma check_allowed_acc (f : field) (v : value) (errors : list string) :
  check_allowed f v errors = (errors ++ check_allowed f v [])%list.
Proof.
  unfold check_allowed, push.
  destruct (allowed f) as [al |]; [| now rewrite app_nil_r].
  destruct ((type f ==? "string") && negb (includes_value al v));
    [reflexivity | now rewrite app_nil_r].
Qed.

Lemma check_min_length_acc (f : field) (v : value) (errors : list string) :
  check_min_length f v errors = (errors ++ check_min_length f v [])%list.
Proof.
  unfold check_min_length, push.
  destruct (minLength f) as [n |]; [| now rewrite app_nil_r].
  destruct v as [ | | | | s | | ]; try now rewrite app_nil_r.
  destruct (negb (n =? 0) && (str_length s <? n));
    [reflexivity | now rewrite app_nil_r].
Qed.

Lemma check_field_acc (p : value) (f : field) (errors : list string) :
  check_field p f errors
  = (added <- check_field p f [] ;; Ok (errors ++ added)%list).
Proof.
  unfold check_field.
  destruct (is_missing (get p (key f))); [reflexivity |].
  rewrite check_array_acc.
  rewrite (check_array_acc f _ (check_number _ _ _)).
  destruct (check_array f (get p (key f)) []) as [a |]; [| reflexivity].
  cbn [bind]. f_equal.
  rewrite check_min_length_acc, check_allowed_acc.
  rewrite (check_min_length_acc f _ (check_allowed _ _ _)).
  rewrite (check_allowed_acc f _ (_ ++ a)%list).
  rewrite check_number_acc, check_string_acc.
  rewrite (check_number_acc f _ (check_string _ _ _)).
  rewrite <- !app_assoc. reflexivity.
Qed.

Lemma check_fields_acc (p : value) (fs : list field) :
  forall errors,
  check_fields p fs errors
  = (added <- check_fields p fs [] ;; Ok (errors ++ added)%list).
Proof.
  induction fs as [| f r IH]; intros errors; cbn [check_fields].
  - cbn. now rewrite app_nil_r.
  - rewrite check_field_acc.
    destruct (check_field p f []) as [a |]; [| reflexivity]. cbn [bind app].
    rewrite IH, (IH a).
    destruct (check_fields p r []) as [b |]; [| reflexivity]. cbn [bind].
    now rewrite app_assoc.
Qed.

(** The errors of a run are those of each field on its own, in the
    order of the fields. *)
Lemma check_fields_cons (p : value) (f : field) (r : list field) :
  check_fields p (f :: r) []
  = (a <- check_field p f [] ;;
     b <- check_fields p r [] ;;
     Ok (a ++ b)%list).
Proof.
  cbn [check_fields]. rewrite check_field_acc.
  destruct (check_field p f []) as [a |]; [| reflexivity]. cbn [bind app].
  apply check_fields_acc.
Qed.

(** What a field can add: that it is missing, or messages that begin
    with its own name. *)
Lemma check_field_messages (p : value) (f : field) (added : list string) :
  check_field p f [] = Ok added ->
  (is_missing (get p (key f)) = true
   /\ added = ["Missing required field: " ++ key f])
  \/ (is_missing (get p (key f)) = false
      /\ Forall (fun m => String.prefix ("Field " ++ key f ++ " ") m = true) added).
Proof.
  unfold check_field.
  destruct (is_missing (get p (key f))).
  - intros [= <-]. left. split; reflexivity.
  - intros H. right. split; [reflexivity |].
    destruct (check_array f (get p (key f)) _) as [a |] eqn:Ha; [| discriminate].
    cbn [bind] in H. apply Ok_inj in H. subst added.
    rewrite check_min_length_acc, check_allowed_acc.
    rewrite check_array_acc in Ha.
    destruct (check_array f (get p (key f)) []) as [a0 |] eqn:Ha0; [| discriminate].
    cbn [bind] in Ha. apply Ok_inj in Ha. subst a.
    rewrite check_number_acc, check_string_acc. cbn [app].
    assert (Hp : forall rest, String.prefix ("Field " ++ key f ++ " ")
                   ("Field " ++ key f ++ " " ++ rest) = true).
    { intros rest. replace ("Field " ++ key f ++ " " ++ rest)
        with (("Field " ++ key f ++ " ") ++ rest).
      - apply prefix_append.
      - rewrite !append_assoc. reflexivity. }
    rewrite !Forall_app. split; [split; [split; [split |] |] |].
    + unfold check_string, push.
      destruct (_ && _); constructor; [apply (Hp "must be a string.") | constructor].
    + unfold check_number, push.
      destruct (type f ==? "number"); [| constructor].
      destruct (get p (key f)) as [ | | | x | | | ];
        try (constructor; [apply (Hp "must be a number.") | constructor]).
      destruct (isNaN x);
        [constructor; [apply (Hp "must be a number.") | constructor] |].
      destruct (min f) as [lo |], (max f) as [hi |];
        repeat match goal with
               | |- context [if ?c then _ else _] => destruct c
               end;
        cbn [app];
        repeat (constructor; [apply Hp |]); constructor.
    + unfold check_array, push in Ha0.
      destruct (_ && _); [| apply Ok_inj in Ha0; subst; constructor].
      destruct (get p (key f)) as [ | | | | | items | ];
        try (apply Ok_inj in Ha0; subst;
             constructor; [apply (Hp "must be an array.") | constructor]).
      destruct (allowed f) as [al |]; [| apply Ok_inj in Ha0; subst; constructor].
      destruct (filter _ items) as [| x invalid];
        [apply Ok_inj in Ha0; subst; constructor |].
      destruct (join_values ", " (x :: invalid)) as [s |]; [| discriminate].
      cbn [bind] in Ha0. apply Ok_inj in Ha0; subst.
      constructor; [apply Hp | constructor].
    + unfold check_allowed, push.
      destruct (allowed f) as [al |]; [| constructor].
      destruct (_ && _); constructor; [apply Hp | constructor].
    + unfold check_min_length, push.
      destruct (minLength f) as [n |]; [| constructor].
      destruct (get p (key f)) as [ | | | | s | | ]; try constructor.
      destruct (_ && _); constructor; [apply Hp | constructor].
Qed.

End ProfileErrors.

Section ProfileValidity.
Import ProfileProcessor.

Lemma existsb_eqb_In (s : string) (al : list string) :
  existsb (String.eqb s) al = true <-> In s al.
Proof.
  rewrite existsb_exists. split.
  - intros (x & Hin & Heq). apply String.eqb_eq in Heq. now subst.
  - intros Hin. exists s. split; [exact Hin | apply String.eqb_refl].
Qed.

Lemma filter_nil_forall {A} (f : A -> bool) (l : list A) :
  filter f l = [] <-> forall x, In x l -> f x = false.
Proof.
  induction l as [| a l IH]; cbn.
  - split; [intros _ x [] | reflexivity].
  - destruct (f a) eqn:Hfa.
    + split; [discriminate |]. intros H. rewrite (H a) in Hfa; [discriminate | auto].
    + rewrite IH. split.
      * intros H x [<- | Hin]; auto.
      * intros H x Hin. apply H. auto.
Qed.

Lemma str_length_zero (s : string) : str_length s < 1 -> s = "".
Proof.
  destruct s; [reflexivity |]. unfold str_length. cbn [String.length]. lia.
Qed.

Lemma check_field_name (p : value) :
  check_field p (mkField "name" "string" (Some 1) None None None false) [] = Ok []
  <-> exists s, get p "name" = VStr s /\ trim s <> "".
Proof.
  unfold check_field, check_min_length, check_allowed, check_array, check_number,
    check_string, is_missing, push.
  cbn [key type minLength min max allowed isArrayField String.eqb Ascii.eqb
       Bool.eqb andb negb bind].
  destruct (get p "name") as [ | | b | x | s | items | fields ];
    cbn [is_nullish typeof String.eqb Ascii.eqb Bool.eqb andb orb negb app];
    try (split; [discriminate | intros (s & [=] & _)]).
  destruct (trim s ==? "") eqn:Ht.
  - split; [discriminate |]. intros (s' & [= <-] & Hne).
    apply String.eqb_eq in Ht. contradiction.
  - apply String.eqb_neq in Ht. change (1 =? 0) with false. cbn [negb andb].
    destruct (Z.ltb_spec (str_length s) 1) as [Hlt | Hge].
    + apply str_length_zero in Hlt. subst s. exfalso. apply Ht. reflexivity.
    + split; [intros _; exists s; auto | reflexivity].
Qed.

Lemma check_field_location (p : value) :
  check_field p (mkField "location" "string" (Some 2) None None None false) [] = Ok []
  <-> exists s, get p "location" = VStr s /\ trim s <> "" /\ 2 <= str_length s.
Proof.
  unfold check_field, check_min_length, check_allowed, check_array, check_number,
    check_string, is_missing, push.
  cbn [key type minLength min max allowed isArrayField String.eqb Ascii.eqb
       Bool.eqb andb negb bind].
  destruct (get p "location") as [ | | b | x | s | items | fields ];
    cbn [is_nullish typeof String.eqb Ascii.eqb Bool.eqb andb orb negb app];
    try (split; [discriminate | intros (s & [=] & _)]).
  destruct (trim s ==? "") eqn:Ht.
  - split; [discriminate |]. intros (s' & [= <-] & Hne & _).
    apply String.eqb_eq in Ht. contradiction.
  - apply String.eqb_neq in Ht. change (2 =? 0) with false. cbn [negb andb].
    destruct (Z.ltb_spec (str_length s) 2) as [Hlt | Hge].
    + split; [discriminate |]. intros (s' & [= <-] & _ & Hlen). lia.
    + split; [intros _; exists s; auto | reflexivity].
Qed.

Lemma check_field_age_ok (p : value) :
  check_field p (mkField "age" "number" None (Some 13) (Some 120) None false) [] = Ok []
  <-> exists x, get p "age" = VNum x /\ isNaN x = false
                /\ lt x (of_Z 13) = false /\ gt x (of_Z 120) = false.
Proof.
  unfold check_field, check_min_length, check_allowed, check_array, check_number,
    check_string, is_missing, push.
  cbn [key type minLength min max allowed isArrayField String.eqb Ascii.eqb
       Bool.eqb andb negb bind].
  destruct (get p "age") as [ | | b | x | s | items | fields ];
    cbn [is_nullish typeof String.eqb Ascii.eqb Bool.eqb andb orb negb app];
    try (split; [discriminate | intros (s' & [=] & _)]).
  - destruct (isNaN x) eqn:E1; [| destruct (lt x (of_Z 13)) eqn:E2;
                                  destruct (gt x (of_Z 120)) eqn:E3];
      cbn [app];
      (split; [try discriminate; intros _; exists x; auto
              | intros (x' & [= <-] & H1 & H2 & H3); try congruence]).
  - destruct (trim s ==? ""); cbn [app];
      (split; [discriminate | intros (s' & [=] & _)]).
Qed.

Lemma check_field_skinType (p : value) :
  let al := ["dry"; "oily"; "combination"; "normal"; "sensitive"] in
  check_field p (mkField "skinType" "string" None None None (Some al) false) [] = Ok []
  <-> exists s, get p "skinType" = VStr s /\ In s al.
Proof.
  cbv zeta.
  unfold check_field, check_min_length, check_allowed, check_array, check_number,
    check_string, is_missing, push.
  cbn [key type minLength min max allowed isArrayField String.eqb Ascii.eqb
       Bool.eqb andb negb bind].
  destruct (get p "skinType") as [ | | b | x | s | items | fields ];
    cbn [is_nullish typeof String.eqb Ascii.eqb Bool.eqb andb orb negb app
         includes_value];
    try (split; [discriminate | intros (s' & [=] & _)]).
  destruct (existsb (String.eqb s) _) eqn:Hal.
  - apply existsb_eqb_In in Hal.
    assert (Ht : (trim s ==? "") = false).
    { cbn in Hal. intuition (subst s; reflexivity). }
    rewrite Ht. cbn [negb app]. split; [intros _; exists s; auto | reflexivity].
  - assert (Hnot : ~ In s ["dry"; "oily"; "combination"; "normal"; "sensitive"]).
    { intros Hin. apply existsb_eqb_In in Hin. congruence. }
    destruct (trim s ==? ""); cbn [negb app];
      (split; [discriminate | intros (s' & [= <-] & Hin); contradiction]).
Qed.

Lemma check_field_concerns (p : value) :
  let al := ["acne"; "wrinkles"; "redness"; "dryness"; "dark spots"; "sensitivity"] in
  check_field p (mkField "concerns" "object" None None None (Some al) true) [] = Ok []
  <-> exists items, get p "concerns" = VArr items
                    /\ forall v, In v items -> exists s, v = VStr s /\ In s al.
Proof.
  cbv zeta.
  unfold check_field, check_min_length, check_allowed, check_array, check_number,
    check_string, is_missing, push.
  cbn [key type minLength min max allowed isArrayField String.eqb Ascii.eqb
       Bool.eqb andb negb bind].
  destruct (get p "concerns") as [ | | b | x | s | items | fields ];
    cbn [is_nullish typeof String.eqb Ascii.eqb Bool.eqb andb orb negb app bind];
    try (split; [discriminate | intros (s' & [=] & _)]).
  - destruct (trim s ==? ""); cbn [app bind];
      (split; [discriminate | intros (s' & [=] & _)]).
  - destruct (filter _ items) as [| x invalid] eqn:Hf.
    + cbn [bind]. split; [| reflexivity]. intros _. exists items. split; [reflexivity |].
      intros v Hin. rewrite filter_nil_forall in Hf. specialize (Hf v Hin).
      apply negb_false_iff in Hf. destruct v; cbn in Hf; try discriminate.
      eexists. split; [reflexivity |]. now apply existsb_eqb_In.
    + split.
      * destruct (join_values ", " (x :: invalid)); cbn; discriminate.
      * intros (items' & [= <-] & Hall). exfalso.
        assert (Hin : In x (filter (fun v => negb (includes_value
                  ["acne"; "wrinkles"; "redness"; "dryness"; "dark spots"; "sensitivity"]
                  v)) items)) by (rewrite Hf; left; reflexivity).
        apply filter_In in Hin. destruct Hin as [Hin Hneg].
        destruct (Hall x Hin) as (s & -> & Hs).
        apply existsb_eqb_In in Hs. cbn [includes_value] in Hneg.
        rewrite Hs in Hneg. discriminate.
Qed.

(** X8: the profiles that [validateProfileData] accepts: objects whose
    [name] is a string that is not blank, whose [age] is a number from
    13 to 120, whose [skinType] is one of five words, whose [concerns]
    is an array, possibly empty, of words among six, and whose
    [location] is a string of two characters or more that is not
    blank. *)
Theorem validateProfileData_valid_iff (profileData : value) :
  validateProfileData profileData = Ok Valid
  <-> exists name age skinType concerns location,
        get profileData "name" = VStr name
        /\ trim name <> ""
        /\ get profileData "age" = VNum age
        /\ isNaN age = false /\ lt age (of_Z 13) = false /\ gt age (of_Z 120) = false
        /\ get profileData "skinType" = VStr skinType
        /\ In skinType ["dry"; "oily"; "combination"; "normal"; "sensitive"]
        /\ get profileData "concerns" = VArr concerns
        /\ (forall v, In v concerns ->
            exists s, v = VStr s
                      /\ In s ["acne"; "wrinkles"; "redness"; "dryness"; "dark spots";
                               "sensitivity"])
        /\ get profileData "location" = VStr location
        /\ trim location <> "" /\ 2 <= str_length location.
Proof.
  assert (Hfields :
    check_fields profileData requiredFields [] = Ok []
    <-> (check_field profileData (mkField "name" "string" (Some 1) None None None false) [] = Ok []
         /\ check_field profileData (mkField "age" "number" None (Some 13) (Some 120) None false) [] = Ok []
         /\ check_field profileData (mkField "skinType" "string" None None None
              (Some ["dry"; "oily"; "combination"; "normal"; "sensitive"]) false) [] = Ok []
         /\ check_field profileData (mkField "concerns" "object" None None None
              (Some ["acne"; "wrinkles"; "redness"; "dryness"; "dark spots"; "sensitivity"]) true) [] = Ok []
         /\ check_field profileData (mkField "location" "string" (Some 2) None None None false) [] = Ok [])).
  { unfold requiredFields. rewrite !check_fields_cons. cbn [check_fields].
    repeat match goal with
           | |- context [check_field ?p ?f []] =>
               let a := fresh "a" in
               destruct (check_field p f []) as [a |]; cbn [bind];
               [| split; [discriminate | intros H; decompose [and] H; discriminate]]
           end.
    rewrite app_nil_r. split.
    - intros H. apply Ok_inj in H.
      repeat (apply app_eq_nil in H; destruct H as [-> H]). subst. tauto.
    - intros H. decompose [and] H. repeat match goal with
        | E : Ok _ = Ok _ |- _ => apply Ok_inj in E; subst end. reflexivity. }
  rewrite check_field_name, check_field_age_ok, check_field_skinType,
    check_field_concerns, check_field_location in Hfields.
  unfold validateProfileData. split.
  - destruct (negb (truthy profileData) || negb (typeof profileData ==? "object"));
      [discriminate |].
    intros H. apply bind_Ok in H. destruct H as (errors & Hc & Hres).
    destruct errors; [| discriminate].
    apply Hfields in Hc.
    destruct Hc as ((n & Hn & Hn1) & (a & Ha & Ha1 & Ha2 & Ha3) & (s & Hs & Hs1)
                    & (c & Hc & Hc1) & (l & Hl & Hl1 & Hl2)).
    exists n, a, s, c, l. tauto.
  - intros (n & a & s & c & l & Hn & Hn1 & Ha & Ha1 & Ha2 & Ha3 & Hs & Hs1
            & Hc & Hc1 & Hl & Hl1 & Hl2).
    assert (Hobj : negb (truthy profileData) || negb (typeof profileData ==? "object")
                   = false).
    { destruct profileData; cbn in Hn; try discriminate. reflexivity. }
    rewrite Hobj.
    replace (check_fields profileData requiredFields []) with (@Ok (list string) []).
    + reflexivity.
    + symmetry. apply Hfields. repeat split; eauto 10.
Qed.

End ProfileValidity.

Section ProfileMissing.
Import ProfileProcessor.

Lemma check_field_classified (p : value) (f : field) (added : list string) :
  check_field p f [] = Ok added ->
  (is_missing (get p (key f)) = true ->
   In ("Missing required field: " ++ key f) added)
  /\ forall m, In m added ->
     (m = "Missing required field: " ++ key f
      /\ is_missing (get p (key f)) = true)
     \/ (String.prefix ("Field " ++ key f ++ " ") m = true
         /\ is_missing (get p (key f)) = false).
Proof.
  intros H. destruct (check_field_messages p f added H) as [[Hm ->] | [Hm Hall]].
  - split; [intros _; left; reflexivity |].
    intros m [<- | []]. left. auto.
  - split; [congruence |]. intros m Hin. right. split; [| exact Hm].
    rewrite Forall_forall in Hall. auto.
Qed.

(** X9: a required field that is absent, null or blank is reported as
    missing and by no other message; a field that is present is never
    reported as missing. *)
Theorem validateProfileData_missing_field
    (profileData : value) (errors : list string) (f : field) :
  truthy profileData = true -> typeof profileData = "object" ->
  validateProfileData profileData = Ok (Invalid errors) ->
  In f requiredFields ->
  (In ("Missing required field: " ++ key f) errors
   <-> is_missing (get profileData (key f)) = true)
  /\ (is_missing (get profileData (key f)) = true ->
      forall m, In m errors ->
      String.prefix ("Field " ++ key f ++ " ") m = false).
Proof.
  intros Ht Hty. unfold validateProfileData. rewrite Ht, Hty.
  cbn [negb orb String.eqb Ascii.eqb Bool.eqb].
  intros H. apply bind_Ok in H. destruct H as (all & Hall & Hres).
  assert (all = errors) as -> by (destruct all; [discriminate | congruence]).
  clear Hres. unfold requiredFields in Hall. rewrite !check_fields_cons in Hall.
  cbn [check_fields] in Hall.
  apply bind_Ok in Hall. destruct Hall as (a1 & H1 & Hall).
  apply bind_Ok in Hall. destruct Hall as (r1 & Hall & E1).
  apply bind_Ok in Hall. destruct Hall as (a2 & H2 & Hall).
  apply bind_Ok in Hall. destruct Hall as (r2 & Hall & E2).
  apply bind_Ok in Hall. destruct Hall as (a3 & H3 & Hall).
  apply bind_Ok in Hall. destruct Hall as (r3 & Hall & E3).
  apply bind_Ok in Hall. destruct Hall as (a4 & H4 & Hall).
  apply bind_Ok in Hall. destruct Hall as (r4 & Hall & E4).
  apply bind_Ok in Hall. destruct Hall as (a5 & H5 & Hall).
  cbn [bind] in Hall.
  apply Ok_inj in Hall, E1, E2, E3, E4. subst r4 r3 r2 r1 errors.
  rewrite app_nil_r.
  apply check_field_classified in H1, H2, H3, H4, H5.
  cbn [key] in H1, H2, H3, H4, H5.
  destruct H1 as [M1 C1], H2 as [M2 C2], H3 as [M3 C3], H4 as [M4 C4],
    H5 as [M5 C5].
  intros Hin. cbn in Hin.
  destruct Hin as [<- | [<- | [<- | [<- | [<- | []]]]]]; cbn [key];
    (split; [split |]);
    try (intros Hmiss; rewrite !in_app_iff; tauto);
    try (rewrite !in_app_iff;
         intros [Hin | [Hin | [Hin | [Hin | Hin]]]];
         [ apply C1 in Hin | apply C2 in Hin | apply C3 in Hin
         | apply C4 in Hin | apply C5 in Hin ];
         destruct Hin as [[Heq Hm] | [Hp Hm]];
         try exact Hm; try discriminate Heq;
         vm_compute in Hp; discriminate Hp);
    (intros Hmiss m; rewrite !in_app_iff;
     intros [Hin | [Hin | [Hin | [Hin | Hin]]]];
     [ apply C1 in Hin | apply C2 in Hin | apply C3 in Hin
     | apply C4 in Hin | apply C5 in Hin ];
     destruct Hin as [[Heq Hm] | [Hp Hm]];
     try (subst m; reflexivity); try congruence;
     match goal with
     | |- String.prefix ?b m = false =>
         destruct (String.prefix b m) eqn:Hb; [| reflexivity];
         destruct (prefix_comparable m _ _ Hp Hb) as [Hc | Hc];
         vm_compute in Hc; discriminate Hc
     end).
Qed.

End ProfileMissing.

(** A profile without a name and with a blank location. *)
Lemma validateProfileData_missing_field_witness :
  let profileData :=
    VObj [("age", VNum (of_Z 30)); ("skinType", VStr "dry");
          ("concerns", VArr [VStr "acne"]); ("location", VStr "  ")] in
  let errors := ["Missing required field: name"; "Missing required field: location"] in
  ProfileProcessor.validateProfileData profileData
    = Ok (ProfileProcessor.Invalid errors)
  /\ (In "Missing required field: location" errors
      <-> ProfileProcessor.is_missing (get profileData "location") = true).
Proof.
  intros profileData errors. split; [reflexivity |].
  apply (validateProfileData_missing_field profileData errors
           (ProfileProcessor.mkField "location" "string" (Some 2) None None None false)
           eq_refl eq_refl eq_refl).
  cbn. tauto.
Defined.

Section Conversions.

Local Abbreviation no_primitive := (TypeError "Cannot convert object to primitive value").

(** ToString fails only on an object that shadows [toString], at any
    depth of nested arrays. *)
Lemma ToString_throw (v : value) :
  forall e, ToString v = Throw e -> e = no_primitive.
Proof.
  revert v. fix IH 1. intros v e.
  destruct v as [ | | [|] | x | s | items | fields ]; cbn [ToString];
    try discriminate.
  - revert e.
    assert (Heach : forall e, 
      (fix each (l : list value) : result (list string) :=
               match l with
               | [] => Ok []
               | x :: r =>
                   s <- (if is_nullish x then Ok "" else ToString x) ;;
                   ss <- each r ;;
                   Ok (s :: ss)
               end) items = Throw e -> e = no_primitive).
    { induction items as [| x r IHr]; intros e.
      - discriminate.
      - destruct (is_nullish x); cbn [bind].
        + match goal with |- context [bind ?c _] => destruct c as [ss | e'] eqn:Hr end;
            cbn [bind]; [discriminate |].
          intros [= <-]. apply IHr. reflexivity.
        + destruct (ToString x) as [s | e'] eqn:Hx; cbn [bind].
          * match goal with |- context [bind ?c _] => destruct c as [ss | e''] eqn:Hr end;
              cbn [bind]; [discriminate |].
            intros [= <-]. apply IHr. reflexivity.
          * intros [= <-]. apply (IH x). exact Hx. }
    intros e.
    match goal with |- context [bind ?c _] => destruct c as [ss | e'] eqn:Hi end;
      cbn [bind]; [discriminate |].
    intros [= <-]. apply Heach. reflexivity.
  - destruct (lookup "toString" fields); [| discriminate].
    intros [= <-]. reflexivity.
Qed.

End Conversions.

Section ProfileThrows.
Import ProfileProcessor.

Local Abbreviation no_primitive := (TypeError "Cannot convert object to primitive value").

Lemma join_values_throw (sep : string) (items : list value) (e : error) :
  join_values sep items = Throw e ->
  e = no_primitive /\ exists v, In v items /\ ToString v = Throw e.
Proof.
  unfold join_values.
  match goal with |- context [bind ?c _] => set (each := c) end.
  destruct each as [ss | e'] eqn:Heach; cbn [bind]; [discriminate |].
  intros [= <-]. subst each. revert e' Heach.
  induction items as [| x r IH]; intros e; [discriminate |].
  destruct (is_nullish x); cbn [bind].
  - match goal with |- context [bind ?c _] => destruct c as [ss | e'] eqn:Hr end;
      cbn [bind]; [discriminate |].
    intros [= <-]. destruct (IH e' eq_refl) as (He & v & Hin & Hv).
    split; [exact He |]. exists v. split; [right; exact Hin | exact Hv].
  - destruct (ToString x) as [s | e'] eqn:Hx; cbn [bind].
    + match goal with |- context [bind ?c _] => destruct c as [ss | e''] eqn:Hr end;
        cbn [bind]; [discriminate |].
      intros [= <-]. destruct (IH e'' eq_refl) as (He & v & Hin & Hv).
      split; [exact He |]. exists v. split; [right; exact Hin | exact Hv].
    + intros [= <-]. split; [exact (ToString_throw x e' Hx) |].
      exists x. split; [left; reflexivity | exact Hx].
Qed.

Lemma check_field_throw (p : value) (f : field) (e : error) :
  check_field p f [] = Throw e ->
  type f = "object" /\ isArrayField f = true
  /\ e = no_primitive
  /\ exists items al v,
       get p (key f) = VArr items /\ allowed f = Some al
       /\ In v items /\ includes_value al v = false /\ ToString v = Throw e.
Proof.
  unfold check_field.
  destruct (is_missing (get p (key f))); [discriminate |].
  destruct (check_array f (get p (key f)) _) as [a | e'] eqn:Ha; cbn [bind];
    [discriminate |].
  intros [= <-]. unfold check_array in Ha.
  destruct (type f ==? "object") eqn:Hty; [| discriminate].
  destruct (isArrayField f); [| discriminate]. cbn [andb] in Ha.
  destruct (get p (key f)) as [ | | | | | items | ]; try discriminate.
  destruct (allowed f) as [al |]; [| discriminate].
  destruct (filter _ items) as [| x invalid] eqn:Hf; [discriminate |].
  destruct (join_values ", " (x :: invalid)) as [s | e''] eqn:Hj; cbn [bind] in Ha;
    [discriminate |].
  injection Ha as <-.
  apply join_values_throw in Hj. destruct Hj as (He & v & Hin & Hv).
  rewrite <- Hf in Hin. apply filter_In in Hin. destruct Hin as [Hin Hneg].
  apply negb_true_iff in Hneg. apply String.eqb_eq in Hty.
  repeat split; auto. exists items, al, v. auto.
Qed.

(** X10: [validateProfileData] throws only when [concerns] is an array that
    holds a value outside the allowed ones whose conversion to a string
    fails; and it does throw on such a profile. *)
Theorem validateProfileData_throws_only_on_concerns :
  (forall profileData e,
     validateProfileData profileData = Throw e ->
     e = no_primitive
     /\ exists items v,
          get profileData "concerns" = VArr items
          /\ In v items /\ ToString v = Throw e)
  /\ validateProfileData
       (VObj [("name", VStr "Ann"); ("age", VNum (of_Z 30)); ("skinType", VStr "dry");
              ("concerns", VArr [VObj [("toString", VStr "acne")]]);
              ("location", VStr "Oslo")])
     = Throw no_primitive.
Proof.
  split; [| reflexivity].
  intros p e. unfold validateProfileData.
  destruct (negb (truthy p) || negb (typeof p ==? "object")); [discriminate |].
  destruct (check_fields p requiredFields []) as [errors | e'] eqn:Hc; cbn [bind].
  { destruct errors; discriminate. }
  intros [= <-]. unfold requiredFields in Hc. rewrite !check_fields_cons in Hc.
  cbn [check_fields] in Hc.
  repeat match type of Hc with
         | context [check_field ?p ?f []] =>
             let a := fresh "a" in
             let H := fresh "H" in
             destruct (check_field p f []) as [a | ?] eqn:H; cbn [bind] in Hc;
             [| injection Hc as <-; apply check_field_throw in H;
                cbn [type key] in H;
                destruct H as (Hty & _ & He & items & al & v & Hg & _ & Hin & _ & Hv);
                first [ discriminate Hty
                      | split; [exact He | exists items, v; auto] ] ]
         end.
  discriminate.
Qed.

Ltac throw_step :=
  match goal with
  | |- context [if has ?k ?a then _ else _] => destruct (has k a) eqn:?
  | |- context [bind (ToString ?v) _] => destruct (ToString v) as [? | ?] eqn:?
  | |- context [bind (toString ?v) _] => destruct (toString v) as [? | ?] eqn:?
  | |- context [if isNaN ?x then _ else _] => destruct (isNaN x) eqn:?
  end; cbn [bind].

Lemma toString_throw (v : value) (e : error) :
  toString v = Throw e -> err_name e = "TypeError".
Proof.
  destruct v as [ | | [|] | x | s | items | fields ]; cbn [toString];
    try (intros [= <-]; reflexivity); try discriminate.
  - intros H. apply ToString_throw in H. subst. reflexivity.
  - destruct (lookup "toString" fields); [| discriminate].
    intros [= <-]. reflexivity.
Qed.

(** X11: [processQuestionnaireAnswers] throws exactly when one of the four
    keys is present with a value that cannot be converted: a
    [sunExposure] without a usable [toString], or a scale whose
    conversion to a string fails.  What it throws is a TypeError. *)
Theorem processQuestionnaireAnswers_throws_iff (answers : value) :
  ((exists e, processQuestionnaireAnswers answers = Throw e)
   <-> Spec.is_object answers = true
       /\ ((has "hydration" answers = true
            /\ exists e, ToString (get answers "hydration") = Throw e)
           \/ (has "sunExposure" answers = true
               /\ exists e, toString (get answers "sunExposure") = Throw e)
           \/ (has "sleepHours" answers = true
               /\ exists e, ToString (get answers "sleepHours") = Throw e)
           \/ (has "stressLevel" answers = true
               /\ exists e, ToString (get answers "stressLevel") = Throw e)))
  /\ (forall e, processQuestionnaireAnswers answers = Throw e ->
      err_name e = "TypeError").
Proof.
  unfold processQuestionnaireAnswers.
  destruct (negb (truthy answers) || negb (typeof answers ==? "object")) eqn:Hg.
  { split.
    - split; [intros [e H]; discriminate |].
      intros [Hobj _]. destruct answers; cbn in Hg, Hobj; discriminate.
    - discriminate. }
  assert (Hobj : Spec.is_object answers = true).
  { destruct answers as [ | | [|] | x | s | | ]; cbn in Hg |- *; try discriminate;
      try reflexivity.
    - destruct (num_truthy x); discriminate.
    - destruct (s ==? ""); discriminate. }
  unfold assign_parsed, parseInt, parseFloat.
  repeat throw_step.
  all: split;
    [ split;
      [ intros [thrown H]; first [discriminate H | (split; [exact Hobj | eauto 6])]
      | intros [_ [[? [? ?]] | [[? [? ?]] | [[? [? ?]] | [? [? ?]]]]]];
        try congruence; eauto ]
    | intros thrown H;
      first [ discriminate H
            | injection H as <-;
              first [ eapply toString_throw; eassumption
                    | match goal with
                      | Hx : ToString _ = Throw _ |- _ =>
                          apply ToString_throw in Hx; subst; reflexivity
                      end ] ] ].
Qed.

End ProfileThrows.

(** ** Questionnaire answers: what comes out *)

Section AnswersShape.
Import ProfileProcessor.

Ltac shape_step :=
  match goal with
  | |- context [if has ?k ?a then _ else _] => destruct (has k a) eqn:?
  | |- context [bind (ToString ?v) _] => destruct (ToString v) as [? | ?]
  | |- context [bind (toString ?v) _] => destruct (toString v) as [? | ?]
  | |- context [if isNaN ?x then _ else _] => destruct (isNaN x) eqn:?
  end; cbn [bind].

(** What [parseInt] returns is a whole number unless it is NaN. *)
Lemma parseInt_str_whole (s : string) (radix : option Z) :
  isNaN (parseInt_str s radix) = false ->
  exists z, parseInt_str s radix = of_Z z.
Proof.
  intros Hnan.
  destruct (parseInt_str_cases s radix) as [H | H]; [| exact H].
  rewrite H in Hnan. discriminate Hnan.
Qed.

(** X12: what [processQuestionnaireAnswers] returns for an object holds only
    keys that the answers hold, among the four it knows.  [hydration]
    and [stressLevel] are numbers other than NaN: a whole number, or an
    infinity, which is what the runtime makes of a digit string beyond
    the binary64 range.  [sleepHours] is a number other than NaN, and
    [sunExposure] is a string in lower case. *)
Theorem processQuestionnaireAnswers_output (answers out : value) :
  Spec.is_object answers = true ->
  processQuestionnaireAnswers answers = Ok out ->
  exists fields,
    out = VObj fields
    /\ forall k v, In (k, v) fields ->
       has k answers = true
       /\ (((k = "hydration" \/ k = "stressLevel")
            /\ exists x, v = VNum x /\ isNaN x = false
               /\ ((exists z, x = of_Z z) \/ x = Inf false \/ x = Inf true))
           \/ (k = "sleepHours" /\ exists x, v = VNum x /\ isNaN x = false)
           \/ (k = "sunExposure" /\ exists s, v = VStr s /\ toLowerCase s = s)).
Proof.
  intros Hobj. destruct (is_object_guard answers Hobj) as [Ht Hty].
  unfold processQuestionnaireAnswers. rewrite Ht, Hty.
  cbn [negb orb String.eqb Ascii.eqb Bool.eqb].
  unfold assign_parsed, parseInt, parseFloat.
  repeat shape_step.
  all: intros Hout; first [discriminate Hout | apply Ok_inj in Hout; subst out].
  all: cbn -[parseInt_str parseFloat_str toLowerCase];
    eexists; (split; [reflexivity |]); intros k v Hin; cbn [In] in Hin.
  all: repeat match goal with
         | H : _ \/ _ |- _ => destruct H as [H | H]
         | H : False |- _ => destruct H
         | H : (_, _) = (_, _) |- _ => injection H as <- <-
         end.
  all: (split; [assumption |]).
  all: first
    [ left; split; [auto |]; eexists; split; [reflexivity |]; split; [assumption |];
      left; apply parseInt_str_whole; assumption
    | right; left; split; [reflexivity |]; eexists; split; [reflexivity | assumption]
    | right; right; split; [reflexivity |]; eexists; split; [reflexivity |];
      apply toLowerCase_idempotent ].
Qed.

End AnswersShape.

(** Answers as a form sends them. *)
Lemma processQuestionnaireAnswers_output_witness :
  let answers :=
    VObj [("hydration", VStr "8 glasses"); ("sunExposure", VStr "High");
          ("sleepHours", VStr "7.5"); ("stressLevel", VStr "n/a")] in
  exists fields,
    VObj [("hydration", VNum (Fin 8 0)); ("sunExposure", VStr "high");
          ("sleepHours", VNum (Fin 75 (-1)))] = VObj fields
    /\ forall k v, In (k, v) fields ->
       has k answers = true
       /\ (((k = "hydration" \/ k = "stressLevel")
            /\ exists x, v = VNum x /\ isNaN x = false
               /\ ((exists z, x = of_Z z) \/ x = Inf false \/ x = Inf true))
           \/ (k = "sleepHours" /\ exists x, v = VNum x /\ isNaN x = false)
           \/ (k = "sunExposure" /\ exists s, v = VStr s /\ toLowerCase s = s)).
Proof.
  intros answers.
  apply (processQuestionnaireAnswers_output answers _ eq_refl eq_refl).
Defined.

(** ** Probing a photo *)

Section Probe.
Import PhotoAnalyzer.

Variable World : Type.
Variable axios_head : string -> World -> axios_outcome * World.

(** The [catch] clause of [verifyPhotoAccessibility]. *)
Lemma verifyPhotoAccessibility_catch (e : error) (w : World) :
  let failure error statusCode message :=
    mkAccessibility false None NaN None None (Some error) statusCode message in
  (match (response <- Throw e ;; check_response response) with
   | Ok a => ret World a
   | Throw error =>
       match err_code error, err_response error with
       | Some "ECONNABORTED", _ =>
           ret World (mkAccessibility false None NaN None None (Some "TIMEOUT") None
                  "Photo accessibility check timed out")
       | _, Some (status, statusText) =>
           ret World (mkAccessibility false None NaN None None (Some "HTTP_ERROR")
                  (Some status) ("HTTP " ++ show status ++ ": " ++ statusText))
       | _, None =>
           ret World (mkAccessibility false None NaN None None (Some "NETWORK_ERROR")
                  None (err_message error))
       end
   end) w
  = (if match err_code e with Some c => c ==? "ECONNABORTED" | None => false end
     then failure "TIMEOUT" None "Photo accessibility check timed out"
     else match err_response e with
          | Some (status, statusText) =>
              failure "HTTP_ERROR" (Some status)
                ("HTTP " ++ show status ++ ": " ++ statusText)
          | None => failure "NETWORK_ERROR" None (err_message e)
          end, w).
Proof.
  cbv zeta. cbn [bind].
  destruct (err_code e) as [c |], (err_response e) as [[status statusText] |];
    try reflexivity.
  - literal_cases c.
  - literal_cases c.
Qed.

(** What [check_response] lets through. *)
Lemma check_response_ok (response : axios_response) (a : accessibility) :
  check_response response = Ok a ->
  ac_accessible a = true
  /\ ac_error a = None
  /\ (exists c, rs_headers response "content-type" = Some c
                /\ ac_contentType a = Some c
                /\ startsWith c "image/" = true)
  /\ ac_contentLength a
     = parseInt_str (match rs_headers response "content-length" with
                     | Some l => if l ==? "" then "0" else l
                     | None => "0"
                     end) None
  /\ (ac_contentLength a = NaN
      \/ exists n, ac_contentLength a = of_Z n /\ 1024 <= n <= 10 * 1024 * 1024).
Proof.
  unfold check_response.
  destruct (rs_headers response "content-type") as [c |] eqn:Hc;
    cbn [option_truthy]; [| discriminate].
  destruct (c ==? "") eqn:Hempty; cbn [negb orb]; [discriminate |].
  destruct (startsWith c "image/") eqn:Himg; cbn [negb]; [| discriminate].
  set (len := parseInt_str _ None).
  assert (Hlen : len = parseInt_str
                         (match rs_headers response "content-length" with
                          | Some l => if l ==? "" then "0" else l
                          | None => "0"
                          end) None).
  { subst len. destruct (rs_headers response "content-length") as [l |];
      cbn [option_truthy]; [| reflexivity].
    destruct (l ==? ""); reflexivity. }
  clearbody len.
  destruct (num_eq len (of_Z 0)) eqn:Hzero; [discriminate |].
  destruct (lt len (of_Z 1024) || gt len (of_Z (10 * 1024 * 1024))) eqn:Hrange;
    [discriminate |].
  intros [= <-]. cbn [ac_accessible ac_error ac_contentType ac_contentLength].
  split; [reflexivity |]. split; [reflexivity |].
  split; [exists c; auto |]. split; [exact Hlen |].
  apply orb_false_elim in Hrange. destruct Hrange as [Hlo Hhi].
  destruct (parseInt_str_cases
              (match rs_headers response "content-length" with
               | Some l => if l ==? "" then "0" else l
               | None => "0"
               end) None) as [Hnan | [n Hn]];
    rewrite <- Hlen in *; [left; exact Hnan |].
  right. exists n. split; [exact Hn |].
  rewrite Hn, lt_of_Z in Hlo. rewrite Hn, gt_of_Z in Hhi.
  apply Z.ltb_ge in Hlo, Hhi. lia.
Qed.


Lemma check_response_throw (response : axios_response) (e : error) :
  check_response response = Throw e ->
  err_code e = None /\ err_response e = None
  /\ (String.prefix "Invalid content type: " (err_message e) = true
      \/ err_message e = "Image file appears to be empty"
      \/ String.prefix "Image file size out of range: " (err_message e) = true).
Proof.
  unfold check_response.
  destruct (negb _ || negb _).
  { intros [= <-]. unfold Error. cbn [err_code err_response err_message].
    split; [reflexivity |]. split; [reflexivity |]. left.
    exact (prefix_append "Invalid content type: " _). }
  destruct (num_eq _ _).
  { intros [= <-]. unfold Error. cbn [err_code err_response err_message]. auto. }
  destruct (lt _ _ || gt _ _); [| discriminate].
  intros [= <-]. unfold Error. cbn [err_code err_response err_message].
  split; [reflexivity |]. split; [reflexivity |]. right. right.
  exact (prefix_append "Image file size out of range: " _).
Qed.

Local Abbreviation probe := (verifyPhotoAccessibility axios_head).

(** The answer of [verifyPhotoAccessibility] in each case of the request. *)
Lemma verifyPhotoAccessibility_cases (photoUrl : string) (w : World) :
  let a := fst (probe photoUrl w) in
  snd (probe photoUrl w) = snd (axios_head photoUrl w)
  /\ match fst (axios_head photoUrl w) with
     | Responded response =>
         if (rs_status response >=? 200) && (rs_status response <? 300)
         then match check_response response with
              | Ok checked => a = checked
              | Throw e =>
                  a = mkAccessibility false None NaN None None (Some "NETWORK_ERROR")
                        None (err_message e)
              end
         else a = mkAccessibility false None NaN None None (Some "HTTP_ERROR")
                    (Some (rs_status response))
                    ("HTTP " ++ show (rs_status response) ++ ": "
                     ++ rs_statusText response)
     | Failed e =>
         a = if match err_code e with Some c => c ==? "ECONNABORTED" | None => false end
             then mkAccessibility false None NaN None None (Some "TIMEOUT") None
                    "Photo accessibility check timed out"
             else match err_response e with
                  | Some (status, statusText) =>
                      mkAccessibility false None NaN None None (Some "HTTP_ERROR")
                        (Some status) ("HTTP " ++ show status ++ ": " ++ statusText)
                  | None =>
                      mkAccessibility false None NaN None None (Some "NETWORK_ERROR")
                        None (err_message e)
                  end
     end.
Proof.
  cbv zeta. unfold verifyPhotoAccessibility, axios, mbind.
  destruct (axios_head photoUrl w) as [[response | e] w1]; cbn [fst snd].
  - destruct ((rs_status response >=? 200) && (rs_status response <? 300)).
    + change (ret World (Ok response) w1) with (Ok response, w1). cbn [bind].
      destruct (check_response response) as [a | e] eqn:Hr.
      * split; reflexivity.
      * pose proof (verifyPhotoAccessibility_catch e w1) as Hcatch.
        cbv zeta in Hcatch. cbn [bind] in Hcatch. rewrite Hcatch.
        destruct (check_response_throw response e Hr) as (Hc & Hrs & _).
        rewrite Hc, Hrs. split; reflexivity.
    + match goal with
      | |- context [ret World (Throw ?err) w1] =>
          change (ret World (Throw err) w1) with (@Throw axios_response err, w1);
          pose proof (verifyPhotoAccessibility_catch err w1) as Hcatch
      end.
      cbv zeta in Hcatch. cbn [bind] in Hcatch |- *. rewrite Hcatch.
      cbn [err_code err_response err_message fst snd].
      destruct (rs_status response <? 500); split; reflexivity.
  - change (ret World (Throw e) w1) with (@Throw axios_response e, w1).
    pose proof (verifyPhotoAccessibility_catch e w1) as Hcatch.
    cbv zeta in Hcatch. cbn [bind] in Hcatch |- *. rewrite Hcatch.
    split; reflexivity.
Qed.

(** What it takes for a photo to be found accessible. *)
Lemma probe_accessible (photoUrl : string) (w : World) :
  snd (probe photoUrl w) = snd (axios_head photoUrl w)
  /\ (ac_accessible (fst (probe photoUrl w)) = true ->
      exists response c,
        fst (axios_head photoUrl w) = Responded response
        /\ 200 <= rs_status response < 300
        /\ rs_headers response "content-type" = Some c
        /\ startsWith c "image/" = true
        /\ ac_contentType (fst (probe photoUrl w)) = Some c
        /\ ac_error (fst (probe photoUrl w)) = None
        /\ (ac_contentLength (fst (probe photoUrl w)) = NaN
            \/ exists n, ac_contentLength (fst (probe photoUrl w)) = of_Z n
                         /\ 1024 <= n <= 10485760)).
Proof.
  destruct (verifyPhotoAccessibility_cases photoUrl w) as [Hw Hcases].
  cbv zeta in Hcases. split; [exact Hw |].
  destruct (fst (axios_head photoUrl w)) as [response | e].
  - destruct (Z.geb_spec (rs_status response) 200) as [Hlo | Hlo];
      [destruct (Z.ltb_spec (rs_status response) 300) as [Hhi | Hhi] |];
      cbn [andb] in Hcases; try (rewrite Hcases; discriminate).
    destruct (check_response response) as [a | e] eqn:Hr;
      [| rewrite Hcases; discriminate].
    rewrite Hcases. intros _.
    destruct (check_response_ok response a Hr)
      as (_ & Herr & (c & Hc & Hac & Himg) & _ & Hlen).
    exists response, c. repeat split; auto; lia.
  - rewrite Hcases.
    destruct (match err_code e with Some c => c ==? "ECONNABORTED" | None => false end);
      [discriminate |].
    destruct (err_response e) as [[st tx] |]; discriminate.
Qed.

(** A content length that cannot be read is let through. *)
Lemma probe_unreadable_length (photoUrl : string) (w : World)
    (response : axios_response) (c : string) :
  fst (axios_head photoUrl w) = Responded response ->
  200 <= rs_status response < 300 ->
  rs_headers response "content-type" = Some c ->
  startsWith c "image/" = true ->
  parseInt_str (match rs_headers response "content-length" with
                | Some l => if l ==? "" then "0" else l
                | None => "0"
                end) None = NaN ->
  ac_accessible (fst (probe photoUrl w)) = true
  /\ ac_contentLength (fst (probe photoUrl w)) = NaN.
Proof.
  intros Hresponse Hstatus Htype Himage Hlength.
  destruct (verifyPhotoAccessibility_cases photoUrl w) as [_ Hcases].
  cbv zeta in Hcases. rewrite Hresponse in Hcases.
  destruct (Z.geb_spec (rs_status response) 200) as [_ | Hlo]; [| lia].
  destruct (Z.ltb_spec (rs_status response) 300) as [_ | Hhi]; [| lia].
  cbn [andb] in Hcases.
  assert (Hok : exists checked,
            check_response response = Ok checked
            /\ ac_accessible checked = true /\ ac_contentLength checked = NaN).
  { unfold check_response. rewrite Htype. cbn [option_truthy].
    assert (Hne : (c ==? "") = false) by (destruct c; [discriminate Himage | reflexivity]).
    rewrite Hne. unfold startsWith in Himage. unfold startsWith. rewrite Himage.
    cbn [negb orb].
    assert (Hlen : parseInt_str
                     (if option_truthy (rs_headers response "content-length")
                      then match rs_headers response "content-length" with
                           | Some l => l
                           | None => "0"
                           end
                      else "0") None = NaN).
    { rewrite <- Hlength.
      destruct (rs_headers response "content-length") as [l |];
        cbn [option_truthy]; [| reflexivity].
      destruct (l ==? ""); reflexivity. }
    rewrite Hlen. cbn [num_eq lt gt orb].
    eexists. split; [reflexivity |]. split; reflexivity. }
  destruct Hok as (checked & Hcheck & Hacc & Hnan).
  rewrite Hcheck in Hcases. rewrite Hcases. split; assumption.
Qed.

(** X13: a photo is found accessible only on a 2xx answer whose content
    type begins with image/ and whose content length, read as an
    integer, is between 1024 and 10485760 or cannot be read at all; and
    a content length that cannot be read does pass, as NaN.  One request
    is made, whatever the answer. *)
Theorem verifyPhotoAccessibility_accepts (photoUrl : string) (w : World) :
  snd (probe photoUrl w) = snd (axios_head photoUrl w)
  /\ (ac_accessible (fst (probe photoUrl w)) = true ->
      exists response c,
        fst (axios_head photoUrl w) = Responded response
        /\ 200 <= rs_status response < 300
        /\ rs_headers response "content-type" = Some c
        /\ startsWith c "image/" = true
        /\ ac_contentType (fst (probe photoUrl w)) = Some c
        /\ ac_error (fst (probe photoUrl w)) = None
        /\ (ac_contentLength (fst (probe photoUrl w)) = NaN
            \/ exists n, ac_contentLength (fst (probe photoUrl w)) = of_Z n
                         /\ 1024 <= n <= 10485760))
  /\ (forall response c,
        fst (axios_head photoUrl w) = Responded response ->
        200 <= rs_status response < 300 ->
        rs_headers response "content-type" = Some c ->
        startsWith c "image/" = true ->
        parseInt_str (match rs_headers response "content-length" with
                      | Some l => if l ==? "" then "0" else l
                      | None => "0"
                      end) None = NaN ->
        ac_accessible (fst (probe photoUrl w)) = true
        /\ ac_contentLength (fst (probe photoUrl w)) = NaN).
Proof.
  destruct (probe_accessible photoUrl w) as [Hworld Haccessible].
  split; [exact Hworld |]. split; [exact Haccessible |].
  exact (probe_unreadable_length photoUrl w).
Qed.

(** X14: why a photo is found inaccessible: a request that was aborted is a
    TIMEOUT; an answer outside 2xx, or any other failure that carries an
    answer, is an HTTP_ERROR with the status of that answer; everything
    else, a 2xx answer that fails the checks included, is a
    NETWORK_ERROR. *)
Theorem verifyPhotoAccessibility_rejects (photoUrl : string) (w : World) :
  let a := fst (probe photoUrl w) in
  ac_accessible a = false ->
  ac_contentType a = None /\ isNaN (ac_contentLength a) = true
  /\ match fst (axios_head photoUrl w) with
     | Responded response =>
         if (rs_status response >=? 200) && (rs_status response <? 300)
         then ac_error a = Some "NETWORK_ERROR" /\ ac_statusCode a = None
              /\ (String.prefix "Invalid content type: " (ac_message a) = true
                  \/ ac_message a = "Image file appears to be empty"
                  \/ String.prefix "Image file size out of range: " (ac_message a) = true)
         else ac_error a = Some "HTTP_ERROR"
              /\ ac_statusCode a = Some (rs_status response)
              /\ ac_message a = "HTTP " ++ show (rs_status response) ++ ": "
                                ++ rs_statusText response
     | Failed e =>
         if match err_code e with Some c => c ==? "ECONNABORTED" | None => false end
         then ac_error a = Some "TIMEOUT" /\ ac_statusCode a = None
         else match err_response e with
              | Some (status, statusText) =>
                  ac_error a = Some "HTTP_ERROR" /\ ac_statusCode a = Some status
              | None =>
                  ac_error a = Some "NETWORK_ERROR" /\ ac_message a = err_message e
              end
     end.
Proof.
  cbv zeta.
  destruct (verifyPhotoAccessibility_cases photoUrl w) as [_ Hcases].
  cbv zeta in Hcases.
  destruct (fst (axios_head photoUrl w)) as [response | e].
  - destruct ((rs_status response >=? 200) && (rs_status response <? 300)).
    + destruct (check_response response) as [a | e] eqn:Hr; rewrite Hcases.
      * destruct (check_response_ok response a Hr) as (Hacc & _). congruence.
      * intros _. destruct (check_response_throw response e Hr) as (_ & _ & Hm).
        cbn. auto.
    + rewrite Hcases. intros _. cbn. auto.
  - rewrite Hcases.
    destruct (match err_code e with Some c => c ==? "ECONNABORTED" | None => false end).
    + intros _. cbn. auto.
    + destruct (err_response e) as [[st tx] |]; intros _; cbn; auto.
Qed.

End Probe.

(** A PNG that is served without a readable length. *)
Lemma verifyPhotoAccessibility_accepts_witness :
  let a := fst (PhotoAnalyzer.verifyPhotoAccessibility sample_axios_unsized
                  "https://cdn.example.com/face.png" 0%nat) in
  PhotoAnalyzer.ac_accessible a = true /\ PhotoAnalyzer.ac_contentLength a = NaN.
Proof.
  apply (proj2 (proj2 (verifyPhotoAccessibility_accepts nat sample_axios_unsized
                         "https://cdn.example.com/face.png" 0%nat))
           (PhotoAnalyzer.mkResponse 200 "OK" (sample_headers "image/png" "unknown"))
           "image/png" eq_refl);
    [cbn; lia | reflexivity | reflexivity | reflexivity].
Defined.

(** A photo that answers 404. *)
Lemma verifyPhotoAccessibility_rejects_witness :
  let a := fst (PhotoAnalyzer.verifyPhotoAccessibility sample_axios_head
                  "https://cdn.example.com/missing.png" 0%nat) in
  PhotoAnalyzer.ac_error a = Some "HTTP_ERROR"
  /\ PhotoAnalyzer.ac_statusCode a = Some 404
  /\ PhotoAnalyzer.ac_message a = "HTTP 404: Not Found".
Proof.
  pose proof (verifyPhotoAccessibility_rejects nat sample_axios_head
                "https://cdn.example.com/missing.png" 0%nat eq_refl) as H.
  cbv zeta in H. destruct H as (_ & _ & H). exact H.
Defined.

(** ** Metadata of a photo *)

Section Metadata.
Import PhotoAnalyzer.

Variable World : Type.
Variable axios_head : string -> World -> axios_outcome * World.
Variable Date_now : World -> Z * World.
Variable Date_toISOString : World -> string * World.

Local Abbreviation probe := (verifyPhotoAccessibility axios_head).
Local Abbreviation extract := (extractPhotoMetadata axios_head Date_toISOString).
Local Abbreviation process := (process_photo axios_head Date_now Date_toISOString).
Local Abbreviation flags := (accessible_flags axios_head Date_now Date_toISOString).
Local Abbreviation each := (format_each axios_head Date_now Date_toISOString).

(** X15: the metadata of a photo are extracted exactly when its probe
    succeeds.  They hold the format detected from the URL, the content
    length as the file size, dimensions estimated from that size unless
    it could not be read, and the quality assessed from all of these.
    When the probe fails, the clock is not read. *)
Theorem extractPhotoMetadata_outcome (photoUrl : string) (w : World) :
  let a := fst (probe photoUrl w) in
  let r := fst (extract photoUrl w) in
  mr_success r = ac_accessible a
  /\ if ac_accessible a
     then exists md,
            mr_metadata r = Some md /\ mr_error r = None
            /\ md_url md = photoUrl
            /\ md_format md = detectImageFormat photoUrl
            /\ md_fileSize md = ac_contentLength a
            /\ md_dimensions md
               = (if isNaN (ac_contentLength a) then None
                  else Some (estimateDimensions (ac_contentLength a)
                               (detectImageFormat photoUrl)))
            /\ md_quality md = Some (assessImageQuality md)
            /\ md_timestamp md = fst (Date_toISOString (snd (probe photoUrl w)))
     else mr_metadata r = None
          /\ mr_error r = Some "METADATA_EXTRACTION_FAILED"
          /\ mr_message r = "Photo not accessible: " ++ ac_message a
          /\ mr_url r = Some photoUrl
          /\ snd (extract photoUrl w) = snd (axios_head photoUrl w).
Proof.
  cbv zeta.
  pose proof (probe_accessible World axios_head photoUrl w) as [Hw Hacc].
  unfold extractPhotoMetadata, mbind.
  destruct (probe photoUrl w) as [a w1] eqn:Hp. cbn [fst snd] in *.
  destruct (ac_accessible a) eqn:Ha; cbn [negb].
  - destruct (Date_toISOString w1) as [t w2]. cbn [ret fst mr_success].
    split; [reflexivity |].
    destruct (Hacc eq_refl) as (response & c & _ & _ & _ & Himg & Hc & _ & Hlen).
    eexists. split; [reflexivity |]. cbn [md_url md_format md_fileSize md_dimensions
      md_quality md_timestamp mr_error].
    repeat split.
    rewrite Hc. cbn [option_truthy].
    assert (Hne : (c ==? "") = false).
    { destruct c; [discriminate Himg | reflexivity]. }
    rewrite Hne. cbn [negb].
    destruct Hlen as [-> | (n & -> & Hn)]; [reflexivity |].
    rewrite num_truthy_of_Z.
    destruct (Z.eqb_spec n 0); [lia |].
    destruct (of_Z_value n) as (m & e & -> & _). reflexivity.
  - cbn [ret fst snd mr_success mr_metadata mr_error mr_message mr_url].
    repeat split; auto.
Qed.

End Metadata.

(** ** The summary and the entries of the formatted photos *)

Section Formatting.
Import PhotoAnalyzer.

Variable World : Type.
Variable axios_head : string -> World -> axios_outcome * World.
Variable Date_now : World -> Z * World.
Variable Date_toISOString : World -> string * World.

Local Abbreviation probe := (verifyPhotoAccessibility axios_head).
Local Abbreviation extract := (extractPhotoMetadata axios_head Date_toISOString).
Local Abbreviation process := (process_photo axios_head Date_now Date_toISOString).
Local Abbreviation flags := (accessible_flags axios_head Date_now Date_toISOString).
Local Abbreviation each := (format_each axios_head Date_now Date_toISOString).
Local Abbreviation formatPhotos :=
  (formatPhotosForAI axios_head Date_now Date_toISOString).

(** What an entry of the formatted photos holds. *)
Lemma process_photo_entry (photo : validated_photo) (w : World) :
  match fst (process photo w) with
  | inl formatted =>
      fp_url formatted = originalUrl photo
      /\ fp_type formatted = "image_url"
      /\ fp_format formatted = detectImageFormat (originalUrl photo)
      /\ (exists md, fp_quality formatted = assessImageQuality md
                     /\ md_format md = fp_format formatted
                     /\ md_fileSize md = fp_fileSize formatted
                     /\ md_dimensions md = fp_dimensions formatted)
      /\ aiCompatible formatted = suitable (fp_quality formatted)
      /\ processingNotes formatted
         = ((if score (fp_quality formatted) <? 50
             then ["Low quality image - analysis may be limited"] else [])
            ++ issues (fp_quality formatted))%list
      /\ (exists now,
            fp_id formatted = "photo_" ++ show now ++ "_" ++ show (index photo))
  | inr _ => True
  end.
Proof.
  unfold process_photo, extractPhotoMetadata, mbind, ret.
  destruct (probe (originalUrl photo) w) as [a w1]; cbn [fst snd].
  destruct (ac_accessible a); cbn [negb]; [| exact I].
  destruct (Date_toISOString w1) as [t w2].
  cbn [mr_success mr_metadata md_quality].
  destruct (Date_now w2) as [n w3]; cbn [fst].
  match goal with |- context [assessImageQuality ?m] =>
    set (q := assessImageQuality m) end.
  cbn [fp_url fp_type fp_format fp_quality aiCompatible processingNotes fp_id
       fp_fileSize fp_dimensions md_format md_fileSize md_dimensions].
  split; [reflexivity |]. split; [reflexivity |]. split; [reflexivity |].
  split; [eexists; split; [reflexivity |]; cbn; auto |].
  split; [reflexivity |]. split; [| eexists; reflexivity].
  clearbody q. unfold push, count.
  destruct (score q <? 50), (issues q); reflexivity.
Qed.

Lemma process_photo_formatted (photo : validated_photo) (w : World)
    (formatted : formatted_photo) :
  fst (process photo w) = inl formatted ->
  fp_url formatted = originalUrl photo
  /\ fp_type formatted = "image_url"
  /\ fp_format formatted = detectImageFormat (originalUrl photo)
  /\ (exists md, fp_quality formatted = assessImageQuality md
                 /\ md_format md = fp_format formatted
                 /\ md_fileSize md = fp_fileSize formatted
                 /\ md_dimensions md = fp_dimensions formatted)
  /\ aiCompatible formatted = suitable (fp_quality formatted)
  /\ processingNotes formatted
     = ((if score (fp_quality formatted) <? 50
         then ["Low quality image - analysis may be limited"] else [])
        ++ issues (fp_quality formatted))%list
  /\ (exists now, fp_id formatted = "photo_" ++ show now ++ "_" ++ show (index photo)).
Proof.
  intros H. pose proof (process_photo_entry photo w) as Hentry.
  rewrite H in Hentry. exact Hentry.
Qed.

Lemma format_each_forall (P : validated_photo -> formatted_photo -> Prop)
    (all : list validated_photo) :
  (forall photo w f, fst (process photo w) = inl f -> P photo f) ->
  forall photos formatted failures w,
  incl photos all ->
  Forall (fun f => exists photo, In photo all /\ P photo f) formatted ->
  Forall (fun f => exists photo, In photo all /\ P photo f)
    (fst (fst (each photos (formatted, failures) w))).
Proof.
  intros HP photos.
  induction photos as [| photo rest IH]; intros formatted failures w Hincl Hall.
  - exact Hall.
  - cbn [format_each]. unfold mbind at 1. unfold format_one at 1. unfold mbind at 1.
    assert (Hrest : incl rest all) by (intros x Hx; apply Hincl; right; exact Hx).
    destruct (process photo w) as [[f | e] w'] eqn:Hp; unfold ret at 1.
    + apply IH; [exact Hrest |]. unfold push. apply Forall_app. split; [exact Hall |].
      constructor; [| constructor]. exists photo. split.
      * apply Hincl. left. reflexivity.
      * apply (HP photo w). rewrite Hp. reflexivity.
    + apply IH; [exact Hrest | exact Hall].
Qed.

Lemma formatPhotosForAI_entries (P : validated_photo -> formatted_photo -> Prop) :
  (forall photo w f, fst (process photo w) = inl f -> P photo f) ->
  forall photos w,
  Forall (fun f => exists photo, In photo photos /\ P photo f)
    (fr_photos (fst (formatPhotos photos w))).
Proof.
  intros HP photos w. unfold formatPhotosForAI.
  destruct (count photos =? 0); [constructor |].
  unfold mbind.
  pose proof (format_each_forall P photos HP photos [] [] w (incl_refl _)
                (Forall_nil _)) as H.
  destruct (each photos ([], []) w) as [[fs es] w1]. cbn [fst] in H.
  destruct (Date_toISOString w1) as [t w2]. exact H.
Qed.

Lemma sum_scores_bounds (l : list formatted_photo) :
  Forall (fun p => 15 <= score (fp_quality p) <= 100) l ->
  forall a,
  a + 15 * count l
  <= fold_left (fun sum p => sum + score (fp_quality p)) l a
  <= a + 100 * count l.
Proof.
  unfold count. induction 1 as [| p l Hp Hall IH]; intros a; cbn [fold_left List.length].
  - lia.
  - specialize (IH (a + score (fp_quality p))). lia.
Qed.

Lemma Math_round_div_bounds (a b lo hi : Z) :
  0 < b -> lo * b <= a <= hi * b -> lo <= Math_round_div a b <= hi.
Proof.
  intros Hb Ha. unfold Math_round_div. split.
  - apply Z.div_le_lower_bound; nia.
  - apply Z.lt_succ_r. apply Z.div_lt_upper_bound; nia.
Qed.

Lemma filter_length_le {A} (f : A -> bool) (l : list A) :
  (List.length (filter f l) <= List.length l)%nat.
Proof.
  induction l as [| x l IH]; cbn; [lia |]. destruct (f x); cbn; lia.
Qed.

(** X16: the summary adds up: every photo is counted once, as processed or
    as failed; a photo is AI-compatible exactly when its score is 80 or
    more, so the photos recommended for analysis are the AI-compatible
    ones and [readyForAI] says whether there is one; the average quality
    of the processed photos lies between 15 and 100. *)
Theorem formatPhotosForAI_summary_adds_up
    (photos : list validated_photo) (w : World) :
  photos <> [] ->
  let r := fst (formatPhotos photos w) in
  Forall (fun p => aiCompatible p = (score (fp_quality p) >=? 80)
                   /\ 15 <= score (fp_quality p) <= 100) (fr_photos r)
  /\ exists s,
       fr_summary r = Some s
       /\ totalPhotos s = count photos
       /\ processedPhotos s = count (fr_photos r)
       /\ processedPhotos s + failedPhotos s = totalPhotos s
       /\ 0 <= aiCompatiblePhotos s <= processedPhotos s
       /\ recommendedForAnalysis s = aiCompatiblePhotos s
       /\ readyForAI r = Some (0 <? aiCompatiblePhotos s)
       /\ (if processedPhotos s =? 0 then averageQuality s = 0
           else 15 <= averageQuality s <= 100).
Proof.
  intros Hne. cbv zeta.
  assert (Hentries :
    Forall (fun p => aiCompatible p = (score (fp_quality p) >=? 80)
                     /\ 15 <= score (fp_quality p) <= 100)
      (fr_photos (fst (formatPhotos photos w)))).
  { pose proof (formatPhotosForAI_entries
                  (fun _ p => aiCompatible p = (score (fp_quality p) >=? 80)
                              /\ 15 <= score (fp_quality p) <= 100)) as H.
    eapply Forall_impl; [| apply H].
    - cbn. intros p (_ & _ & Hp). exact Hp.
    - intros photo w0 f Hf.
      apply process_photo_formatted in Hf.
      destruct Hf as (_ & _ & _ & (md & Hq & _) & Hai & _).
      rewrite Hai, Hq. pose proof (assessImageQuality_facts md) as Hfacts.
      cbv zeta in Hfacts. tauto. }
  split; [exact Hentries |].
  pose proof (formatPhotosForAI_outcome World axios_head Date_now Date_toISOString
                photos w Hne) as H.
  cbv zeta in H.
  destruct H as (_ & _ & Hpassed & _ & Hsum & (s & Hs & Ht & Hp & Hf) & Hready).
  exists s. split; [exact Hs |].
  rewrite Hsum in Hs. injection Hs as <-.
  cbn [totalPhotos processedPhotos failedPhotos aiCompatiblePhotos
       recommendedForAnalysis averageQuality summarize] in *.
  set (F := fr_photos (fst (formatPhotos photos w))) in *.
  assert (Hrec : filter recommended F = filter aiCompatible F).
  { apply filter_ext_in. intros p Hin. unfold recommended.
    rewrite Forall_forall in Hentries. destruct (Hentries p Hin) as [Hai Hsc].
    rewrite Hai. destruct (Z.geb_spec (score (fp_quality p)) 80); [| reflexivity].
    cbn. apply Z.geb_le. lia. }
  split; [reflexivity |]. split; [reflexivity |].
  split.
  { pose proof (filter_partition_length (flags photos w)) as Hpart.
    rewrite flags_length in Hpart. unfold count in *. lia. }
  split.
  { pose proof (filter_length_le aiCompatible F). unfold count. lia. }
  split; [now rewrite Hrec |].
  split.
  { rewrite Hready. f_equal. rewrite <- count_filter_positive, Hrec.
    apply Z.gtb_ltb. }
  assert (Hb : Forall (fun p => 15 <= score (fp_quality p) <= 100) F).
  { eapply Forall_impl; [| exact Hentries]. cbn. tauto. }
  pose proof (sum_scores_bounds F Hb 0) as Hsumb.
  destruct (Z.eqb_spec (count F) 0) as [H0 | H0].
  - rewrite H0. reflexivity.
  - assert (Hpos : 0 < count F) by (unfold count in *; lia).
    destruct (Z.gtb_spec (count F) 0) as [_ | Hle]; [| lia].
    apply Math_round_div_bounds; [exact Hpos | lia].
Qed.

(** X17: every formatted entry stands for one of the photos given: it has
    that photo's URL, an id made of the time and the photo's index, and
    the format detected from the URL.  Its notes are the quality issues,
    preceded by a low-quality warning when the score is under 50; an
    AI-compatible entry has no warning and one note at most. *)
Theorem formatPhotosForAI_entry
    (photos : list validated_photo) (w : World) (p : formatted_photo) :
  In p (fr_photos (fst (formatPhotos photos w))) ->
  exists photo now,
    In photo photos
    /\ fp_url p = originalUrl photo
    /\ fp_id p = "photo_" ++ show now ++ "_" ++ show (index photo)
    /\ fp_type p = "image_url"
    /\ fp_format p = detectImageFormat (fp_url p)
    /\ processingNotes p
       = ((if score (fp_quality p) <? 50
           then ["Low quality image - analysis may be limited"] else [])
          ++ issues (fp_quality p))%list
    /\ (List.length (processingNotes p) <= 4)%nat
    /\ (aiCompatible p = true ->
        processingNotes p = issues (fp_quality p)
        /\ (List.length (processingNotes p) <= 1)%nat).
Proof.
  intros Hin.
  pose proof (formatPhotosForAI_entries
                (fun photo f =>
                   fp_url f = originalUrl photo
                   /\ fp_type f = "image_url"
                   /\ fp_format f = detectImageFormat (originalUrl photo)
                   /\ (exists md, fp_quality f = assessImageQuality md
                                  /\ md_format md = fp_format f
                                  /\ md_fileSize md = fp_fileSize f
                                  /\ md_dimensions md = fp_dimensions f)
                   /\ aiCompatible f = suitable (fp_quality f)
                   /\ processingNotes f
                      = ((if score (fp_quality f) <? 50
                          then ["Low quality image - analysis may be limited"] else [])
                         ++ issues (fp_quality f))%list
                   /\ (exists now,
                         fp_id f = "photo_" ++ show now ++ "_" ++ show (index photo)))
                process_photo_formatted photos w) as Hall.
  rewrite Forall_forall in Hall.
  destruct (Hall p Hin)
    as (photo & Hphoto & Hurl & Hty & Hfmt & (md & Hq & _) & Hai & Hnotes & now & Hid).
  exists photo, now.
  pose proof (assessImageQuality_facts md) as (Hscore & Hsuit & Hissues).
  pose proof (suitable_one_issue md) as Hone.
  rewrite <- Hq in *.
  repeat split; auto.
  - rewrite Hurl. exact Hfmt.
  - rewrite Hnotes, length_app.
    destruct (score (fp_quality p) <? 50); cbn [List.length]; lia.
  - rewrite Hnotes. rewrite Hai, Hsuit in H. apply Z.geb_le in H.
    destruct (Z.ltb_spec (score (fp_quality p)) 50); [lia | reflexivity].
  - rewrite Hnotes. rewrite Hai in H. specialize (Hone H).
    rewrite Hsuit in H. apply Z.geb_le in H.
    destruct (Z.ltb_spec (score (fp_quality p)) 50); [lia | exact Hone].
Qed.

End Formatting.

(** Three photos, the second of which answers 404. *)
Lemma formatPhotosForAI_summary_adds_up_witness :
  let r := fst (PhotoAnalyzer.formatPhotosForAI sample_axios_head sample_now
                  sample_iso sample_photos 0%nat) in
  exists s,
    PhotoAnalyzer.fr_summary r = Some s
    /\ PhotoAnalyzer.processedPhotos s + PhotoAnalyzer.failedPhotos s = 3
    /\ PhotoAnalyzer.recommendedForAnalysis s = PhotoAnalyzer.aiCompatiblePhotos s.
Proof.
  assert (Hne : sample_photos <> []) by discriminate.
  pose proof (formatPhotosForAI_summary_adds_up nat sample_axios_head sample_now
                sample_iso sample_photos 0%nat Hne) as H.
  cbv zeta in H. destruct H as (_ & s & Hs & Ht & _ & Hsum & _ & Hrec & _).
  exists s. split; [exact Hs |]. split; [| exact Hrec].
  rewrite Hsum, Ht. reflexivity.
Defined.

(** The first of the formatted entries of these photos. *)
Lemma formatPhotosForAI_entry_witness :
  match PhotoAnalyzer.fr_photos
          (fst (PhotoAnalyzer.formatPhotosForAI sample_axios_head sample_now
                  sample_iso sample_photos 0%nat)) with
  | p :: _ =>
      PhotoAnalyzer.fp_type p = "image_url"
      /\ PhotoAnalyzer.fp_format p
         = PhotoAnalyzer.detectImageFormat (PhotoAnalyzer.fp_url p)
  | [] => False
  end.
Proof.
  pose proof (formatPhotosForAI_entry nat sample_axios_head sample_now sample_iso
                sample_photos 0%nat) as H.
  destruct (PhotoAnalyzer.fr_photos _) as [| p rest] eqn:Hp.
  - vm_compute in Hp. discriminate Hp.
  - destruct (H p (or_introl eq_refl))
      as (photo & now & _ & _ & _ & Hty & Hfmt & _).
    split; [exact Hty | exact Hfmt].
Defined.

(** ** From validated URLs to formatted photos *)

Section ValidatedToFormatted.
Import PhotoAnalyzer.

Variable isURL : string -> result bool.
Variable World : Type.
Variable axios_head : string -> World -> axios_outcome * World.
Variable Date_now : World -> Z * World.
Variable Date_toISOString : World -> string * World.

Local Abbreviation formatPhotos :=
  (formatPhotosForAI axios_head Date_now Date_toISOString).

Local Abbreviation format_issue := "Image format may not be optimal for analysis".

Lemma recognized_format_no_issue (m : metadata) :
  In (md_format m) ["PNG"; "WebP"; "JPEG"] ->
  ~ In format_issue (issues (assessImageQuality m)).
Proof.
  intros Hf. unfold assessImageQuality. cbn [issues].
  unfold raw_quality, check_format, check_dimensions, check_file_size.
  assert (Hfmt : (md_format m ==? "JPEG") || (md_format m ==? "PNG") = true
                 \/ ((md_format m ==? "JPEG") || (md_format m ==? "PNG") = false
                     /\ (md_format m ==? "WebP") = true)).
  { cbn in Hf. destruct Hf as [<- | [<- | [<- | []]]]; cbn; auto. }
  destruct Hfmt as [-> | [-> ->]];
    (destruct (lt (md_fileSize m) (of_Z 100000));
     [| destruct (gt (md_fileSize m) (of_Z 5000000))]);
    (destruct (md_dimensions m) as [d |];
     [ destruct (lt (width d) (of_Z 300) || lt (height d) (of_Z 300));
       [| destruct (ge (width d) (of_Z 800) && ge (height d) (of_Z 600))] | ]);
    cbn; intuition discriminate.
Qed.

(** X18: the photos that [validatePhotoUrls] lets through keep their
    format when [formatPhotosForAI] processes them: every formatted
    entry has the URL and the format of one of them, PNG, WebP or JPEG,
    and is never marked down for its format. *)
Theorem validated_photos_keep_their_format
    (photoUrls : value) (V : list validated_photo) (w : World) (p : formatted_photo) :
  uv_validatedUrls (validatePhotoUrls isURL photoUrls) = Some V ->
  In p (fr_photos (fst (formatPhotos V w))) ->
  (exists photo, In photo V /\ fp_url p = originalUrl photo
                 /\ fp_format p = format photo)
  /\ In (fp_format p) ["PNG"; "WebP"; "JPEG"]
  /\ ~ In format_issue (issues (fp_quality p))
  /\ ~ In format_issue (processingNotes p).
Proof.
  intros HV Hin.
  pose proof (formatPhotosForAI_entries World axios_head Date_now Date_toISOString
                (fun photo f =>
                   fp_url f = originalUrl photo
                   /\ fp_type f = "image_url"
                   /\ fp_format f = detectImageFormat (originalUrl photo)
                   /\ (exists md, fp_quality f = assessImageQuality md
                                  /\ md_format md = fp_format f
                                  /\ md_fileSize md = fp_fileSize f
                                  /\ md_dimensions md = fp_dimensions f)
                   /\ aiCompatible f = suitable (fp_quality f)
                   /\ processingNotes f
                      = ((if score (fp_quality f) <? 50
                          then ["Low quality image - analysis may be limited"] else [])
                         ++ issues (fp_quality f))%list
                   /\ (exists now,
                         fp_id f = "photo_" ++ show now ++ "_" ++ show (index photo)))
                (process_photo_formatted World axios_head Date_now Date_toISOString)
                V w) as Hall.
  rewrite Forall_forall in Hall.
  destruct (Hall p Hin)
    as (photo & Hphoto & Hurl & _ & Hfmt & (md & Hq & Hmd & _) & _ & Hnotes & _).
  destruct (validated_entry isURL photoUrls V photo HV Hphoto)
    as (urls & u & _ & _ & _ & _ & _ & Hdetected & Hrecognized).
  assert (Hsame : fp_format p = format photo) by congruence.
  assert (Hissue : ~ In format_issue (issues (fp_quality p))).
  { rewrite Hq. apply recognized_format_no_issue. rewrite Hmd, Hsame.
    exact Hrecognized. }
  split; [exists photo; auto |]. split; [rewrite Hsame; exact Hrecognized |].
  split; [exact Hissue |].
  rewrite Hnotes. intros H. apply in_app_or in H. destruct H as [H | H];
    [| exact (Hissue H)].
  destruct (score (fp_quality p) <? 50); cbn in H; [| exact H].
  destruct H as [H | []]. discriminate H.
Qed.

End ValidatedToFormatted.

(** The two photos of three URLs that are let through, and the entry of
    the first. *)
Lemma validated_photos_keep_their_format_witness :
  let photoUrls := VArr [VStr "https://cdn.example.com/face.jpg"; VStr "not a url";
                         VStr "https://cdn.example.com/cheek.PNG"] in
  let V := [PhotoAnalyzer.mkPhoto "https://cdn.example.com/face.jpg" 0 "JPEG";
            PhotoAnalyzer.mkPhoto "https://cdn.example.com/cheek.PNG" 2 "PNG"] in
  match PhotoAnalyzer.fr_photos
          (fst (PhotoAnalyzer.formatPhotosForAI sample_axios_head sample_now
                  sample_iso V 0%nat)) with
  | p :: _ => In (PhotoAnalyzer.fp_format p) ["PNG"; "WebP"; "JPEG"]
  | [] => False
  end.
Proof.
  intros photoUrls V.
  pose proof (validated_photos_keep_their_format sample_isURL nat sample_axios_head
                sample_now sample_iso photoUrls V 0%nat) as H.
  destruct (PhotoAnalyzer.fr_photos _) as [| p rest] eqn:Hp.
  - vm_compute in Hp. discriminate Hp.
  - destruct (H p eq_refl (or_introl eq_refl)) as (_ & Hformat & _). exact Hformat.
Defined.

(** ** The recommendation engine *)

Section EngineErrors.
Import Effects RecommendationEngine.

Lemma handleAIError_without_status
    (name message : string) (code : option string) (response : option (Z * string)) :
  handleAIError (mkError name message code response None)
  = if match code with Some c => c ==? "ETIMEDOUT" | None => false end
    then Error "API_TIMEOUT: Response took too long"
    else Error ("API_ERROR: " ++ message).
Proof.
  unfold handleAIError. cbn [err_status err_code err_message].
  destruct code as [c |]; [| reflexivity]. literal_cases c.
Qed.

(** [handleAIError] with its tests written as comparisons. *)
Lemma handleAIError_cases (err : error) :
  handleAIError err
  = if match err_status err with Some st => st =? 429 | None => false end
    then Error "API_RATE_LIMIT: Please wait before making new requests"
    else if match err_code err with Some c => c ==? "ETIMEDOUT" | None => false end
    then Error "API_TIMEOUT: Response took too long"
    else Error ("API_ERROR: " ++ err_message err).
Proof.
  destruct err as [name message code response status].
  cbn [err_status err_code err_message].
  destruct status as [st |];
    [| exact (handleAIError_without_status name message code response)].
  destruct st as [| p | p];
    try exact (handleAIError_without_status name message code response).
  do 9 (destruct p as [p | p |];
        try exact (handleAIError_without_status name message code response)).
  all: reflexivity.
Qed.

Lemma handleAIError_message (err : error) :
  err_name (handleAIError err) = "Error"
  /\ (err_message (handleAIError err)
        = "API_RATE_LIMIT: Please wait before making new requests"
      \/ err_message (handleAIError err) = "API_TIMEOUT: Response took too long"
      \/ err_message (handleAIError err) = "API_ERROR: " ++ err_message err).
Proof.
  rewrite handleAIError_cases.
  destruct (match err_status err with Some st => st =? 429 | None => false end);
    [cbn; auto |].
  destruct (match err_code err with Some c => c ==? "ETIMEDOUT" | None => false end);
    cbn; auto.
Qed.

End EngineErrors.

Section Braces.
Import RecommendationEngine.

Lemma indexOf_range (s : string) (c : ascii) :
  -1 <= indexOf s c < str_length s.
Proof.
  unfold str_length. induction s as [| a s IH]; cbn [indexOf String.length]; [lia |].
  destruct (Ascii.eqb a c); [lia |].
  destruct (Z.ltb_spec (indexOf s c) 0); lia.
Qed.

(** The first occurrence of a character that the text before it lacks. *)
Lemma indexOf_append (pre rest : string) (c : ascii) :
  indexOf pre c = -1 ->
  indexOf (pre ++ String c rest) c = str_length pre.
Proof.
  unfold str_length. induction pre as [| a pre IH]; cbn [indexOf String.append].
  - intros _. rewrite Ascii.eqb_refl. reflexivity.
  - destruct (Ascii.eqb a c); [discriminate |].
    pose proof (indexOf_range pre c) as Hr.
    destruct (Z.ltb_spec (indexOf pre c) 0) as [Hneg | Hpos]; [| lia].
    intros _. rewrite IH by lia. cbn [String.length].
    destruct (Z.ltb_spec (Z.of_nat (String.length pre)) 0); lia.
Qed.

(** The last occurrence of a character that the text after it lacks. *)
Lemma lastIndexOf_append (s post : string) (c : ascii) :
  lastIndexOf post c = -1 ->
  lastIndexOf (s ++ String c post) c = str_length s.
Proof.
  intros Hpost. unfold str_length.
  induction s as [| a s IH]; cbn [lastIndexOf String.append String.length].
  - rewrite Hpost. cbn. rewrite Ascii.eqb_refl. reflexivity.
  - rewrite IH. destruct (Z.leb_spec 0 (Z.of_nat (String.length s))); lia.
Qed.


(** Between the first opening and the last closing brace. *)
Lemma slice_braces (pre body post : string) :
  indexOf pre "{" = -1 -> lastIndexOf post "}" = -1 ->
  let text := pre ++ "{" ++ body ++ "}" ++ post in
  slice text (indexOf text "{") (lastIndexOf text "}" + 1) = "{" ++ body ++ "}".
Proof.
  intros Hpre Hpost. cbv zeta.
  change (pre ++ "{" ++ body ++ "}" ++ post)
    with (pre ++ String "{" (body ++ String "}" post)).
  rewrite (indexOf_append pre _ "{" Hpre).
  replace (pre ++ String "{" (body ++ String "}" post))
    with ((pre ++ String "{" body) ++ String "}" post)
    by (rewrite append_assoc; reflexivity).
  rewrite (lastIndexOf_append _ post "}" Hpost).
  unfold slice, str_length.
  rewrite !string_length_append. cbn [String.length].
  destruct (Z.ltb_spec (Z.of_nat (String.length pre)) 0); [lia |].
  destruct (Z.ltb_spec (Z.of_nat (String.length pre + S (String.length body)) + 1) 0);
    [lia |].
  rewrite !Z.min_l by lia.
  rewrite Nat2Z.id.
  replace (Z.to_nat (Z.of_nat (String.length pre + S (String.length body)) + 1
                     - Z.of_nat (String.length pre)))
    with (String.length (String "{" (body ++ "}")))
    by (cbn [String.length]; rewrite string_length_append; cbn [String.length]; lia).
  replace ((pre ++ String "{" body) ++ String "}" post)
    with (pre ++ (String "{" (body ++ "}")) ++ post).
  - rewrite drop_append. apply take_append.
  - rewrite !append_assoc. cbn [String.append]. rewrite append_assoc. reflexivity.
Qed.

End Braces.

Section Engine.
Import Effects RecommendationEngine.

Variable World : Type.
Variable openai_create : string -> World -> result string * World.
Variable JSON_parse : string -> result value.

Local Abbreviation parse := (parseAIResponse JSON_parse).
Local Abbreviation generate := (generateRecommendations openai_create JSON_parse).

(** X19: text around the outermost braces of the completion does not change
    what [parseAIResponse] makes of it. *)
Theorem parseAIResponse_ignores_surrounding_text (pre body post : string) :
  indexOf pre "{" = -1 -> lastIndexOf post "}" = -1 ->
  parse (pre ++ "{" ++ body ++ "}" ++ post) = parse ("{" ++ body ++ "}").
Proof.
  intros Hpre Hpost. unfold parseAIResponse.
  pose proof (slice_braces pre body post Hpre Hpost) as H1.
  pose proof (slice_braces "" body "" eq_refl eq_refl) as H2.
  cbv zeta in H1, H2.
  change ("" ++ "{" ++ body ++ "}" ++ "") with ("{" ++ body ++ "}") in H2.
  rewrite H1, H2. reflexivity.
Qed.

Lemma parseAIResponse_result (responseText : string) :
  match parse responseText with
  | Ok result => isArray (get result "recommendations") = true
  | Throw e =>
      err_name e = "Error" /\ err_code e = None /\ err_status e = None
      /\ String.prefix "RESPONSE_PARSE_ERROR: " (err_message e) = true
  end.
Proof.
  unfold parseAIResponse.
  match goal with |- context [JSON_parse ?t] => destruct (JSON_parse t) as [v | e] end;
    cbn [bind].
  - destruct (get_prop v "recommendations") as [r | e] eqn:Hr; cbn [bind].
    + destruct (negb (truthy r) || negb (isArray r)) eqn:Hg.
      * repeat split; try exact (prefix_append "RESPONSE_PARSE_ERROR: " _).
      * apply orb_false_elim in Hg. destruct Hg as [_ Ha].
        apply negb_false_iff in Ha.
        destruct v; cbn in Hr; try discriminate; injection Hr as <-; exact Ha.
    + repeat split; try exact (prefix_append "RESPONSE_PARSE_ERROR: " _).
  - repeat split; try exact (prefix_append "RESPONSE_PARSE_ERROR: " _).
Qed.

(** Building the prompt fails only with a TypeError. *)
Lemma buildChainOfThoughtPrompt_throw (profile photos : value) (e : error) :
  buildChainOfThoughtPrompt profile photos = Throw e ->
  err_name e = "TypeError" /\ err_code e = None /\ err_status e = None.
Proof.
  assert (Hget : forall v k e, get_prop v k = Throw e ->
            err_name e = "TypeError" /\ err_code e = None /\ err_status e = None).
  { intros v k e0. destruct v; cbn; try discriminate; intros [= <-]; auto. }
  assert (Hstr : forall v e, ToString v = Throw e ->
            err_name e = "TypeError" /\ err_code e = None /\ err_status e = None).
  { intros v e0 H. apply ToString_throw in H. subst. auto. }
  assert (Hjoin : forall l e, join_values ", " l = Throw e ->
            err_name e = "TypeError" /\ err_code e = None /\ err_status e = None).
  { intros l e0 H. apply join_values_throw in H. destruct H as [-> _]. auto. }
  unfold buildChainOfThoughtPrompt.
  repeat match goal with
         | |- context [bind (get_prop ?v ?k) _] =>
             let H := fresh "H" in
             destruct (get_prop v k) as [? | ?] eqn:H; cbn [bind];
             [| intros [= <-]; exact (Hget _ _ _ H)]
         | |- context [bind (ToString ?v) _] =>
             let H := fresh "H" in
             destruct (ToString v) as [? | ?] eqn:H; cbn [bind];
             [| intros [= <-]; exact (Hstr _ _ H)]
         | |- context [bind (match ?c with VArr _ => _ | _ => _ end) _] =>
             destruct c; cbn [bind]; try (intros [= <-]; auto)
         | |- context [bind (join_values ?sep ?l) _] =>
             let H := fresh "H" in
             destruct (join_values sep l) as [? | ?] eqn:H; cbn [bind];
             [| intros [= <-]; exact (Hjoin _ _ H)]
         | |- context [bind (if ?c then _ else _) _] => destruct c; cbn [bind]
         end.
  all: discriminate.
Qed.

Lemma buildChainOfThoughtPrompt_without_photos (profile : value) :
  exists e, buildChainOfThoughtPrompt profile VUndefined = Throw e.
Proof.
  unfold buildChainOfThoughtPrompt.
  repeat match goal with
         | |- context [bind (get_prop VUndefined ?k) _] =>
             change (get_prop VUndefined k)
               with (@Throw value (TypeError
                       ("Cannot read properties of undefined (reading '" ++ k ++ "')")));
             cbn [bind]; eexists; reflexivity
         | |- context [bind (get_prop ?v ?k) _] =>
             destruct (get_prop v k) as [? | ?]; cbn [bind]; [| eexists; reflexivity]
         | |- context [bind (ToString ?v) _] =>
             destruct (ToString v) as [? | ?]; cbn [bind]; [| eexists; reflexivity]
         | |- context [bind (match ?c with VArr _ => _ | _ => _ end) _] =>
             destruct c; cbn [bind]; try (eexists; reflexivity)
         | |- context [bind (join_values ?sep ?l) _] =>
             destruct (join_values sep l) as [? | ?]; cbn [bind]; [| eexists; reflexivity]
         end.
Qed.

(** The two ways through [generateRecommendations]. *)
Lemma generateRecommendations_cases (userProfile photoAnalysis : value)
    (s : state World) :
  generate userProfile photoAnalysis s
  = match buildChainOfThoughtPrompt userProfile photoAnalysis with
    | Throw e =>
        (Throw (handleAIError e),
         mkState (world s)
           (calls s ++ [GenerateRecommendations userProfile photoAnalysis]))
    | Ok prompt =>
        (match (content <- fst (openai_create prompt (world s)) ;; parse content) with
         | Ok result => Ok result
         | Throw e => Throw (handleAIError e)
         end,
         mkState (snd (openai_create prompt (world s)))
           (calls s ++ [GenerateRecommendations userProfile photoAnalysis;
                        OpenAIChatCompletion prompt]))
    end.
Proof.
  unfold generateRecommendations, mbind, record, lift, ret, push.
  cbn [world calls].
  destruct (buildChainOfThoughtPrompt userProfile photoAnalysis) as [prompt | e];
    [| reflexivity].
  cbn [world calls]. rewrite <- app_assoc. cbn [app].
  destruct (openai_create prompt (world s)) as [response w']. cbn [fst snd].
  destruct (content <- response ;; parse content); reflexivity.
Qed.

End Engine.

(** A completion wrapped in a sentence. *)
Lemma parseAIResponse_ignores_surrounding_text_witness :
  RecommendationEngine.parseAIResponse sample_JSON_parse
    ("Here you are: " ++ "{" ++ " recommendations: [] " ++ "}" ++ " Enjoy.")
  = RecommendationEngine.parseAIResponse sample_JSON_parse
      ("{" ++ " recommendations: [] " ++ "}").
Proof.
  apply (parseAIResponse_ignores_surrounding_text sample_JSON_parse
           "Here you are: " " recommendations: [] " " Enjoy." eq_refl eq_refl).
Defined.


Section EngineTheorems.
Import Effects RecommendationEngine.

Variable World : Type.
Variable openai_create : string -> World -> result string * World.
Variable JSON_parse : string -> result value.

Local Abbreviation parse := (parseAIResponse JSON_parse).
Local Abbreviation generate := (generateRecommendations openai_create JSON_parse).

(** X20: [generateRecommendations] asks OpenAI once, and only when the prompt
    could be built.  What it returns has an array of recommendations;
    what it throws is an Error marked API_RATE_LIMIT, API_TIMEOUT or
    API_ERROR, and a completion that cannot be parsed is an API_ERROR
    that wraps a RESPONSE_PARSE_ERROR. *)
Theorem generateRecommendations_outcome
    (userProfile photoAnalysis : value) (s : state World) :
  let r := fst (generate userProfile photoAnalysis s) in
  let s' := snd (generate userProfile photoAnalysis s) in
  (match buildChainOfThoughtPrompt userProfile photoAnalysis with
   | Ok prompt =>
       calls s' = (calls s ++ [GenerateRecommendations userProfile photoAnalysis;
                               OpenAIChatCompletion prompt])%list
       /\ world s' = snd (openai_create prompt (world s))
       /\ (forall content,
             fst (openai_create prompt (world s)) = Ok content ->
             match parse content with
             | Ok result => r = Ok result
             | Throw e =>
                 exists reason,
                   err_message e = "RESPONSE_PARSE_ERROR: " ++ reason
                   /\ r = Throw (Error ("API_ERROR: RESPONSE_PARSE_ERROR: " ++ reason))
             end)
   | Throw e =>
       calls s' = (calls s ++ [GenerateRecommendations userProfile photoAnalysis])%list
       /\ world s' = world s
       /\ r = Throw (Error ("API_ERROR: " ++ err_message e))
   end)
  /\ match r with
     | Ok result => isArray (get result "recommendations") = true
     | Throw e =>
         err_name e = "Error"
         /\ (err_message e = "API_RATE_LIMIT: Please wait before making new requests"
             \/ err_message e = "API_TIMEOUT: Response took too long"
             \/ String.prefix "API_ERROR: " (err_message e) = true)
     end.
Proof.
  cbv zeta. rewrite generateRecommendations_cases.
  destruct (buildChainOfThoughtPrompt userProfile photoAnalysis) as [prompt | e] eqn:Hb.
  - cbn [fst snd calls world].
    destruct (openai_create prompt (world s)) as [[content | e] w'] eqn:Ho;
      cbn [fst snd bind].
    + pose proof (parseAIResponse_result JSON_parse content) as Hparse.
      destruct (parse content) as [result | e] eqn:Hp.
      * split; [| exact Hparse].
        split; [reflexivity |]. split; [reflexivity |].
        intros c [= <-]. rewrite Hp. reflexivity.
      * destruct Hparse as (Hname & Hcode & Hstatus & Hprefix).
        rewrite handleAIError_cases, Hcode, Hstatus.
        split.
        -- split; [reflexivity |]. split; [reflexivity |].
           intros c [= <-]. rewrite Hp.
           apply prefix_split in Hprefix. destruct Hprefix as [reason Hreason].
           exists reason. split; [exact Hreason |]. rewrite Hreason. reflexivity.
        -- split; [reflexivity |]. right. right.
           exact (prefix_append "API_ERROR: " _).
    + split.
      * split; [reflexivity |]. split; [reflexivity |]. discriminate.
      * destruct (handleAIError_message e) as (Hn & [Hm | [Hm | Hm]]).
        split; [exact Hn |]. rewrite Hm. auto.
        split; [exact Hn |]. rewrite Hm. auto.
        split; [exact Hn |]. rewrite Hm. right. right.
        exact (prefix_append "API_ERROR: " _).
  - cbn [fst snd calls world].
    destruct (buildChainOfThoughtPrompt_throw _ _ _ Hb) as (_ & Hcode & Hstatus).
    rewrite handleAIError_cases, Hcode, Hstatus.
    split; [repeat split |].
    split; [reflexivity |]. right. right. exact (prefix_append "API_ERROR: " _).
Qed.

(** X21: without a photo analysis the prompt cannot be built, whatever the
    profile is: the call fails with an API_ERROR and OpenAI is not
    asked. *)
Theorem generateRecommendations_without_photo_analysis
    (userProfile : value) (s : state World) :
  exists reason,
    generate userProfile VUndefined s
    = (Throw (Error ("API_ERROR: " ++ reason)),
       mkState (world s)
         (calls s ++ [GenerateRecommendations userProfile VUndefined])).
Proof.
  rewrite generateRecommendations_cases.
  destruct (buildChainOfThoughtPrompt_without_photos userProfile) as [e He].
  rewrite He.
  destruct (buildChainOfThoughtPrompt_throw _ _ _ He) as (_ & Hcode & Hstatus).
  rewrite handleAIError_cases, Hcode, Hstatus.
  exists (err_message e). reflexivity.
Qed.

End EngineTheorems.

Section AuthTheorems.
Import Effects AuthMiddleware Server.

Variable World : Type.
Variable verifyIdToken : string -> World -> result decoded_token * World.
Variable Joi_validate : DataValidator.schema -> value -> DataValidator.joi_result.
Variable isURL : string -> result bool.
Variable openai_create : string -> World -> result string * World.
Variable JSON_parse : string -> result value.

Local Abbreviation route :=
  (post_apirecommendations verifyIdToken Joi_validate isURL openai_create JSON_parse).

Local Abbreviation token_of := (fun authHeader => trim (split_second authHeader "Bearer ")).

(** What [requireAuth] does with a request. *)
Lemma requireAuth_cases (req : request) (s : state World) :
  requireAuth verifyIdToken req s
  = match authorization req with
    | Some authHeader =>
        if startsWith authHeader "Bearer "
        then
          let idToken := token_of authHeader in
          (match fst (verifyIdToken idToken (world s)) with
           | Ok decodedToken =>
               Next (mkRequest (authorization req) (body req)
                       (VObj [("uid", uid decodedToken);
                              ("email", email decodedToken);
                              ("authTime", auth_time decodedToken)]))
           | Throw _ => Respond (mkResponse 401 (VObj [("error", VStr "Invalid token")]))
           end,
           mkState (snd (verifyIdToken idToken (world s)))
             (calls s ++ [VerifyIdToken idToken]))
        else (Respond (mkResponse 401
                         (VObj [("error", VStr "Missing Authorization header")])), s)
    | None => (Respond (mkResponse 401
                          (VObj [("error", VStr "Missing Authorization header")])), s)
    end.
Proof.
  unfold requireAuth.
  destruct (authorization req) as [authHeader |]; [| reflexivity].
  destruct (startsWith authHeader "Bearer "); [| reflexivity].
  cbn [negb]. unfold mbind, record, lift, ret, push. cbn [world calls]. cbv zeta.
  destruct (verifyIdToken _ (world s)) as [[decoded | e] w']; reflexivity.
Qed.

(** X22: a request without a bearer token is answered 401 and the verifier
    is not asked; with one, the verifier is asked once about the token
    after the first "Bearer ", trimmed; the request is handed on only
    when the verifier accepts, with its body untouched and the user
    taken from the decoded token. *)
Theorem requireAuth_outcome (req : request) (s : state World) :
  match fst (requireAuth verifyIdToken req s) with
  | Next req' =>
      exists authHeader decodedToken,
        authorization req = Some authHeader
        /\ startsWith authHeader "Bearer " = true
        /\ fst (verifyIdToken (token_of authHeader) (world s)) = Ok decodedToken
        /\ body req' = body req
        /\ authorization req' = authorization req
        /\ user req' = VObj [("uid", uid decodedToken);
                             ("email", email decodedToken);
                             ("authTime", auth_time decodedToken)]
        /\ calls (snd (requireAuth verifyIdToken req s))
           = (calls s ++ [VerifyIdToken (token_of authHeader)])%list
  | Respond res =>
      status res = 401
      /\ match authorization req with
         | Some authHeader =>
             if startsWith authHeader "Bearer "
             then payload res = VObj [("error", VStr "Invalid token")]
                  /\ calls (snd (requireAuth verifyIdToken req s))
                     = (calls s ++ [VerifyIdToken (token_of authHeader)])%list
             else payload res = VObj [("error", VStr "Missing Authorization header")]
                  /\ snd (requireAuth verifyIdToken req s) = s
         | None =>
             payload res = VObj [("error", VStr "Missing Authorization header")]
             /\ snd (requireAuth verifyIdToken req s) = s
         end
  end.
Proof.
  rewrite requireAuth_cases.
  destruct (authorization req) as [authHeader |] eqn:Hauth; [| cbn; auto].
  destruct (startsWith authHeader "Bearer ") eqn:Hb; [| cbn; auto].
  cbv zeta. cbn [fst snd].
  destruct (fst (verifyIdToken _ (world s))) as [decoded | e] eqn:Hv.
  - exists authHeader, decoded. cbn. repeat split; auto.
  - cbn. auto.
Qed.

(** What the handler leaves behind: it always answers 500, after at most
    one call of the recommendation engine, which does not reach OpenAI. *)
Lemma handler_cases (req : request) (s : state World) :
  fst (handler isURL openai_create JSON_parse req s)
  = mkResponse 500 (VObj [("error", VStr "INTERNAL_ERROR")])
  /\ world (snd (handler isURL openai_create JSON_parse req s)) = world s
  /\ (calls (snd (handler isURL openai_create JSON_parse req s)) = calls s
      \/ exists userProfile,
           calls (snd (handler isURL openai_create JSON_parse req s))
           = (calls s ++ [GenerateRecommendations userProfile VUndefined])%list).
Proof.
  unfold handler.
  match goal with
  | |- context [match ?inputs with Ok _ => _ | Throw _ => _ end] =>
      destruct inputs as [userProfile | e]
  end.
  - unfold mbind.
    destruct (generateRecommendations_without_photo_analysis World openai_create
                JSON_parse userProfile s) as [reason ->].
    cbn. repeat split; eauto.
  - cbn. auto.
Qed.

(** The three answers of the route to a request that reaches it. *)
Lemma route_answers (req : request) (s : state World) :
  let res := fst (route req s) in
  let s' := snd (route req s) in
  (res = mkResponse 401 (VObj [("error", VStr "Missing Authorization header")])
   /\ s' = s)
  \/ (exists idToken,
        res = mkResponse 401 (VObj [("error", VStr "Invalid token")])
        /\ calls s' = (calls s ++ [VerifyIdToken idToken])%list)
  \/ (exists idToken,
        res = mkResponse 500 (VObj [("error", VStr "INTERNAL_ERROR")])
        /\ (calls s' = (calls s ++ [VerifyIdToken idToken])%list
            \/ exists userProfile,
                 calls s' = (calls s ++ [VerifyIdToken idToken;
                                         GenerateRecommendations userProfile VUndefined])%list)).
Proof.
  cbv zeta. unfold post_apirecommendations, mbind.
  rewrite requireAuth_cases.
  destruct (authorization req) as [authHeader |]; [| left; split; reflexivity].
  destruct (startsWith authHeader "Bearer "); [| left; split; reflexivity].
  cbv zeta.
  destruct (fst (verifyIdToken _ (world s))) as [decoded | e].
  - right. right. exists (token_of authHeader).
    rewrite validation_always_next.
    match goal with
    | |- context [handler _ _ _ ?r ?st] =>
        destruct (handler_cases r st) as (Hres & _ & [Hcalls | [up Hcalls]]);
        rewrite Hres, Hcalls; cbn [calls]
    end.
    + split; [reflexivity |]. left. reflexivity.
    + split; [reflexivity |]. right. exists up. rewrite <- app_assoc. reflexivity.
  - right. left. exists (token_of authHeader). split; reflexivity.
Qed.

Variable Incoming : Type.
Variable headers_authorization : Incoming -> option string.
Variable express_json : Incoming -> value + response.

Local Abbreviation app :=
  (app_post_apirecommendations verifyIdToken Joi_validate isURL openai_create
     JSON_parse headers_authorization express_json).

(** X23: a POST to [/apirecommendations] that [express.json()] ends, as
    it does a body that is not JSON, gets the answer of the body parser:
    the route is not reached and nobody is asked.  Every other request
    reaches the route with its body parsed and is answered in one of
    three ways: 401 for a missing bearer token, 401 for a token the
    verifier rejects, 500 otherwise.  The route itself never answers
    200 or 400, and OpenAI is never asked. *)
Theorem post_apirecommendations_answers (incoming : Incoming) (s : state World) :
  let res := fst (app incoming s) in
  let s' := snd (app incoming s) in
  match express_json incoming with
  | inr rejection => res = rejection /\ s' = s
  | inl parsed =>
      (res = mkResponse 401 (VObj [("error", VStr "Missing Authorization header")])
       /\ s' = s)
      \/ (exists idToken,
            res = mkResponse 401 (VObj [("error", VStr "Invalid token")])
            /\ calls s' = (calls s ++ [VerifyIdToken idToken])%list)
      \/ (exists idToken,
            res = mkResponse 500 (VObj [("error", VStr "INTERNAL_ERROR")])
            /\ (calls s' = (calls s ++ [VerifyIdToken idToken])%list
                \/ exists userProfile,
                     calls s' = (calls s ++ [VerifyIdToken idToken;
                                             GenerateRecommendations userProfile
                                               VUndefined])%list))
  end.
Proof.
  cbv zeta. unfold app_post_apirecommendations.
  destruct (express_json incoming) as [parsed | rejection].
  - exact (route_answers (mkRequest (headers_authorization incoming) parsed VUndefined) s).
  - split; reflexivity.
Qed.

End AuthTheorems.
(** ** Error responses of the photo analyzer *)

Section PhotoErrorResponses.
Import PhotoAnalyzer.

Variable World : Type.
Variable axios_head : string -> World -> axios_outcome * World.
Variable Date_toISOString : World -> string * World.
Variable NODE_ENV : option string.
Variable console_error : string -> error_response -> World -> World.

Local Abbreviation handle := (handlePhotoErrors Date_toISOString NODE_ENV console_error).
Local Abbreviation probe := (verifyPhotoAccessibility axios_head).

(** X24: every answer of [handlePhotoErrors] is a failure of the module with
    one of seven error names and details that are never null.  The
    stack of the error is passed on, and the answer logged, in
    development only. *)
Theorem handlePhotoErrors_response (caught : caught) (w : World) :
  let r := fst (handle caught w) in
  er_success r = false
  /\ er_module r = "photo-analyzer"
  /\ er_timestamp r = fst (Date_toISOString w)
  /\ In (er_error r)
       ["CONNECTION_REFUSED"; "URL_NOT_FOUND"; "REQUEST_TIMEOUT"; "HTTP_ERROR";
        "VALIDATION_ERROR"; "TYPE_ERROR"; "UNKNOWN_ERROR"]
  /\ er_details r <> NoDetails
  /\ (forall name stack,
        er_details r = Origin name stack ->
        er_error r = "UNKNOWN_ERROR" /\ er_message r <> ""
        /\ name = err_name (ct_error caught)
        /\ stack = (if development NODE_ENV then ct_stack caught else None))
  /\ snd (handle caught w)
     = (if development NODE_ENV
        then console_error "Photo Analyzer Error:" (fst (handle caught w))
               (snd (Date_toISOString w))
        else snd (Date_toISOString w)).
Proof.
  cbv zeta. unfold handlePhotoErrors.
  destruct (Date_toISOString w) as [timestamp w1]. cbn [fst snd].
  cbn [er_success er_timestamp er_module er_error].
  destruct (code_is (ct_error caught) "ECONNREFUSED");
    [| destruct (code_is (ct_error caught) "ENOTFOUND");
       [| destruct (code_is (ct_error caught) "ECONNABORTED");
          [| destruct (err_response (ct_error caught)) as [[status statusText] |];
             [| destruct (err_name (ct_error caught) ==? "ValidationError");
                [| destruct (err_name (ct_error caught) ==? "TypeError")]]]]];
    cbn [er_success er_timestamp er_module er_error er_details er_message];
    (split; [reflexivity |]); (split; [reflexivity |]); (split; [reflexivity |]);
    (split; [cbn; tauto |]); (split; [discriminate |]);
    (split; [| reflexivity]);
    intros name stack Hd; try discriminate Hd.
  injection Hd as <- <-. repeat split.
  destruct (err_message (ct_error caught) ==? "") eqn:Hm; [discriminate |].
  apply String.eqb_neq in Hm. exact Hm.
Qed.

(** X25: the two classifications of an error agree where they overlap.
    For the error that [verifyPhotoAccessibility] catches, be it a
    request that failed, an answer whose status is not 2xx, or one that
    the checks of the function refuse: what [handlePhotoErrors] calls a
    REQUEST_TIMEOUT is a TIMEOUT for [verifyPhotoAccessibility] and
    conversely; what it calls an HTTP_ERROR is one there too, with the
    same status and message; a refused connection or an unknown host,
    which it names, is a NETWORK_ERROR or an HTTP_ERROR there; and what
    it files under VALIDATION_ERROR, TYPE_ERROR or UNKNOWN_ERROR is a
    NETWORK_ERROR there, with the message of the error. *)
Theorem failed_request_classified_alike
    (photoUrl : string) (w w0 : World) (caught : caught) :
  (response <- fst (axios axios_head photoUrl w) ;; check_response response)
  = Throw (ct_error caught) ->
  let a := fst (probe photoUrl w) in
  let r := fst (handle caught w0) in
  (er_error r = "REQUEST_TIMEOUT" <-> ac_error a = Some "TIMEOUT")
  /\ (er_error r = "HTTP_ERROR" ->
      ac_error a = Some "HTTP_ERROR" /\ ac_message a = er_message r
      /\ exists status statusText,
           err_response (ct_error caught) = Some (status, statusText)
           /\ ac_statusCode a = Some status
           /\ er_details r = HttpDetails status statusText (ct_url caught))
  /\ (er_error r = "CONNECTION_REFUSED" \/ er_error r = "URL_NOT_FOUND" ->
      ac_error a = Some "NETWORK_ERROR" \/ ac_error a = Some "HTTP_ERROR")
  /\ (er_error r = "VALIDATION_ERROR" \/ er_error r = "TYPE_ERROR"
      \/ er_error r = "UNKNOWN_ERROR" ->
      ac_error a = Some "NETWORK_ERROR"
      /\ ac_message a = err_message (ct_error caught))
  /\ (ac_error a = Some "HTTP_ERROR" ->
      er_error r = "HTTP_ERROR" \/ er_error r = "CONNECTION_REFUSED"
      \/ er_error r = "URL_NOT_FOUND").
Proof.
  intros Hcaught. cbv zeta.
  assert (Hprobe :
    fst (probe photoUrl w)
    = if match err_code (ct_error caught) with
         | Some c => c ==? "ECONNABORTED"
         | None => false
         end
      then mkAccessibility false None NaN None None (Some "TIMEOUT") None
             "Photo accessibility check timed out"
      else match err_response (ct_error caught) with
           | Some (status, statusText) =>
               mkAccessibility false None NaN None None (Some "HTTP_ERROR")
                 (Some status) ("HTTP " ++ show status ++ ": " ++ statusText)
           | None =>
               mkAccessibility false None NaN None None (Some "NETWORK_ERROR")
                 None (err_message (ct_error caught))
           end).
  { unfold verifyPhotoAccessibility, mbind.
    destruct (axios axios_head photoUrl w) as [requested w1].
    cbn [fst] in Hcaught. rewrite Hcaught.
    pose proof (verifyPhotoAccessibility_catch World (ct_error caught) w1) as Hcatch.
    cbv zeta in Hcatch. cbn [bind] in Hcatch.
    rewrite Hcatch. reflexivity. }
  rewrite Hprobe. clear Hprobe Hcaught.
  unfold handlePhotoErrors, code_is.
  destruct (Date_toISOString w0) as [timestamp w1]. cbn [fst snd].
  cbn [er_success er_timestamp er_module er_error].
  destruct (err_code (ct_error caught)) as [c |];
    [ destruct (String.eqb_spec c "ECONNREFUSED") as [-> | Hrefused];
      [| destruct (String.eqb_spec c "ENOTFOUND") as [-> | Hnotfound];
         [| destruct (String.eqb_spec c "ECONNABORTED") as [-> | Haborted]]] |];
    (destruct (err_response (ct_error caught)) as [[status statusText] |];
     [| destruct (err_name (ct_error caught) ==? "ValidationError");
        [| destruct (err_name (ct_error caught) ==? "TypeError")]]);
    cbn; repeat split; try discriminate; eauto;
    try (intros [H | H]; discriminate H);
    repeat match goal with
           | H : _ \/ _ |- _ => destruct H as [H | H]
           end;
    try discriminate; reflexivity.
Qed.

End PhotoErrorResponses.

(** A photo that is not there: the 404 that axios turns into an error is
    an HTTP_ERROR for both, with the same message. *)
Lemma failed_request_classified_alike_witness :
  let photoUrl := "https://cdn.example.com/missing.jpg" in
  let caught :=
    PhotoAnalyzer.mkCaught
      (mkError "AxiosError" "Request failed with status code 404"
         (Some "ERR_BAD_REQUEST") (Some (404, "Not Found")) None)
      (Some photoUrl) None in
  let a := fst (PhotoAnalyzer.verifyPhotoAccessibility sample_axios_head photoUrl 0%nat) in
  let r := fst (PhotoAnalyzer.handlePhotoErrors sample_iso None sample_console_error
                  caught 0%nat) in
  PhotoAnalyzer.er_error r = "HTTP_ERROR"
  /\ PhotoAnalyzer.ac_error a = Some "HTTP_ERROR"
  /\ PhotoAnalyzer.ac_message a = PhotoAnalyzer.er_message r
  /\ PhotoAnalyzer.ac_message a = "HTTP 404: Not Found".
Proof.
  intros photoUrl caught a r.
  pose proof (failed_request_classified_alike nat sample_axios_head sample_iso None
                sample_console_error photoUrl 0%nat 0%nat caught eq_refl) as H.
  cbv zeta in H. destruct H as (_ & H & _).
  destruct (H eq_refl) as (Herror & Hmessage & _).
  split; [reflexivity |]. split; [exact Herror |]. split; [exact Hmessage |].
  vm_compute. reflexivity.
Defined.

(** ** The profile store *)

Section ProfileStore.
Import ProfileProcessor.

Variable World : Type.
Variable NODE_ENV : option string.
Variable profiles_set : value -> value -> World -> (unit + firestore_error) * World.
Variable profiles_get : string -> World -> (option value + firestore_error) * World.
Variable console_error : string -> firestore_error -> World -> World.

Local Abbreviation save := (saveProfileToFirestore NODE_ENV profiles_set console_error).
Local Abbreviation fetch := (getProfileFromFirestore NODE_ENV profiles_get console_error).
Local Abbreviation failure := (handleProfileError NODE_ENV console_error).

(** X26: a profile without a [userId] is refused and Firestore is left
    alone; with one, the profile is written once, under that id, and a
    rejected write comes back as an error object, not as an exception:
    its [code] is that of the rejection or 500, and its [message] is
    given in development only. *)
Theorem saveProfileToFirestore_outcome (profileData : value) (w : World) :
  let userId := get profileData "userId" in
  if truthy userId
  then match fst (profiles_set userId profileData w) with
       | inl _ =>
           save profileData w
           = (VObj [("success", VBool true)], snd (profiles_set userId profileData w))
       | inr error =>
           save profileData w = failure error (snd (profiles_set userId profileData w))
           /\ get (fst (save profileData w)) "error" = VStr "Profile processing error."
           /\ truthy (get (fst (save profileData w)) "code") = true
           /\ get (fst (save profileData w)) "message"
              = (if development NODE_ENV then VStr (fe_message error) else VUndefined)
       end
  else snd (save profileData w) = w
       /\ exists reason,
            fst (save profileData w) = VObj [("error", VStr reason)]
            /\ In reason ["Invalid profile data."; "Missing userId in profile data."].
Proof.
  cbv zeta. unfold saveProfileToFirestore.
  destruct (truthy (get profileData "userId")) eqn:Hid.
  - assert (Hobj : negb (truthy profileData) || negb (typeof profileData ==? "object")
                   = false).
    { destruct profileData; cbn in Hid; try discriminate. reflexivity. }
    rewrite Hobj. cbn [negb].
    destruct (profiles_set (get profileData "userId") profileData w)
      as [[[] | error] w1]; cbn [fst snd]; [reflexivity |].
    split; [reflexivity |]. unfold handleProfileError. cbn [fst].
    split; [reflexivity |]. split; [| reflexivity].
    cbn [get lookup String.eqb Ascii.eqb Bool.eqb].
    destruct (truthy (fe_code error)) eqn:Hc; [exact Hc | reflexivity].
  - cbn [negb].
    destruct (negb (truthy profileData) || negb (typeof profileData ==? "object"));
      cbn [fst snd]; (split; [reflexivity |]); eexists; (split; [reflexivity |]);
      cbn; tauto.
Qed.

(** X27: [getProfileFromFirestore] reads Firestore only for a [userId] that
    is a non-empty string, whereas [saveProfileToFirestore] attempts the
    write for any [userId] that is truthy: a profile written under an id
    that is not a string is refused when it is asked for by that id. *)
Theorem getProfileFromFirestore_needs_string_id (userId : value) (w : World) :
  (typeof userId <> "string" \/ userId = VStr "" ->
   fetch userId w = (VObj [("error", VStr "Invalid userId.")], w))
  /\ (forall id, userId = VStr id -> id <> "" ->
      fst (fetch userId w)
      = match fst (profiles_get id w) with
        | inl (Some data) => data
        | inl None => VNull
        | inr error => fst (failure error (snd (profiles_get id w)))
        end)
  /\ (forall profileData w0,
        get profileData "userId" = userId ->
        truthy userId = true -> typeof userId <> "string" ->
        snd (save profileData w0)
        = match fst (profiles_set userId profileData w0) with
          | inl _ => snd (profiles_set userId profileData w0)
          | inr error => snd (failure error (snd (profiles_set userId profileData w0)))
          end
        /\ fetch userId w = (VObj [("error", VStr "Invalid userId.")], w)).
Proof.
  assert (Hrefuse : typeof userId <> "string" \/ userId = VStr "" ->
            fetch userId w = (VObj [("error", VStr "Invalid userId.")], w)).
  { unfold getProfileFromFirestore.
    destruct userId as [ | | [|] | x | [| c id] | items | fields ];
      try reflexivity.
    - intros _. cbn [truthy typeof negb orb String.eqb Ascii.eqb Bool.eqb].
      destruct (num_truthy x); reflexivity.
    - intros [H | H]; [exfalso; apply H; reflexivity | discriminate H]. }
  split; [exact Hrefuse |]. split.
  - intros id -> Hid. unfold getProfileFromFirestore.
    destruct id as [| c id]; [congruence |].
    cbn [truthy typeof negb orb String.eqb Ascii.eqb Bool.eqb].
    destruct (profiles_get (String c id) w) as [[[data |] | error] w1];
      reflexivity.
  - intros profileData w0 Hget Htruthy Htype.
    split; [| apply Hrefuse; left; exact Htype].
    unfold saveProfileToFirestore. rewrite Hget, Htruthy.
    assert (Hobj : negb (truthy profileData) || negb (typeof profileData ==? "object")
                   = false).
    { destruct profileData; cbn in Hget; subst userId; cbn in Htruthy;
        try discriminate. reflexivity. }
    rewrite Hobj. cbn [negb].
    destruct (profiles_set userId profileData w0) as [[[] | error] w1]; reflexivity.
Qed.

(** X28: [validateProfileData] does not look at [userId]: a profile that it
    accepts and that has no [userId] is refused by
    [saveProfileToFirestore] for that reason, and nothing is written. *)
Theorem valid_profile_without_userId_is_not_saved (profileData : value) (w : World) :
  validateProfileData profileData = Ok Valid ->
  truthy (get profileData "userId") = false ->
  save profileData w
  = (VObj [("error", VStr "Missing userId in profile data.")], w).
Proof.
  intros Hvalid Hid. unfold saveProfileToFirestore. rewrite Hid.
  unfold validateProfileData in Hvalid.
  destruct (negb (truthy profileData) || negb (typeof profileData ==? "object"));
    [discriminate | reflexivity].
Qed.

End ProfileStore.

(** A profile that passes validation and names no user. *)
Lemma valid_profile_without_userId_is_not_saved_witness :
  let profileData :=
    VObj [("name", VStr "Ann"); ("age", VNum (of_Z 30)); ("skinType", VStr "dry");
          ("concerns", VArr [VStr "acne"]); ("location", VStr "Oslo")] in
  ProfileProcessor.saveProfileToFirestore None sample_profiles_set sample_console_error
    profileData 0%nat
  = (VObj [("error", VStr "Missing userId in profile data.")], 0%nat).
Proof.
  intros profileData.
  apply (valid_profile_without_userId_is_not_saved nat None sample_profiles_set
           sample_console_error profileData 0%nat eq_refl eq_refl).
Defined.

(** A numeric id. *)
Lemma getProfileFromFirestore_needs_string_id_witness :
  ProfileProcessor.getProfileFromFirestore None sample_profiles_get sample_console_error
    (VNum (of_Z 42)) 0%nat
  = (VObj [("error", VStr "Invalid userId.")], 0%nat).
Proof.
  apply (proj1 (getProfileFromFirestore_needs_string_id nat None sample_profiles_set
                  sample_profiles_get sample_console_error (VNum (of_Z 42)) 0%nat)).
  left. discriminate.
Defined.

(** ** Sanitizing and screening input *)

Section Sanitizing.
Import DataValidator.

Variable validator_escape : value -> result string.
Variable validator_normalizeEmail : value -> result value.
Variable validator_trim : value -> result string.

Local Abbreviation sanitize :=
  (sanitizeUserInput validator_escape validator_normalizeEmail validator_trim).

Lemma code_char_of_34 (c : ascii) : (code c =? 34) = false -> c <> char_of 34.
Proof.
  intros H ->. vm_compute in H. discriminate.
Qed.

Lemma replace_quotes_clean (s : string) :
  includes (replace_quotes s) quote = false.
Proof.
  induction s as [| c s IH]; [reflexivity |].
  cbn [replace_quotes].
  destruct (code c =? 34) eqn:Hc.
  - cbn -[replace_quotes]. rewrite IH.
    destruct (replace_quotes s); reflexivity.
  - apply code_char_of_34 in Hc. cbn [includes]. rewrite IH, orb_false_r.
    unfold quote. cbn [String.prefix].
    destruct (ascii_dec (char_of 34) c); [congruence | reflexivity].
Qed.

Lemma replace_quotes_unchanged (s : string) :
  includes s quote = false -> replace_quotes s = s.
Proof.
  induction s as [| c s IH]; [reflexivity |].
  cbn [includes replace_quotes]. intros H. apply orb_false_elim in H.
  destruct H as [Hp Hs]. rewrite (IH Hs).
  destruct (code c =? 34) eqn:Hc; [| reflexivity].
  apply Z.eqb_eq in Hc. exfalso.
  assert (c = char_of 34) as ->.
  { unfold code in Hc. unfold char_of.
    rewrite <- (ascii_N_embedding c). f_equal. lia. }
  unfold quote in Hp. cbn in Hp. destruct s; discriminate.
Qed.

(** X29: whatever the validator does, the string that [sanitizeUserInput]
    returns holds no double quote: it is the escaped string with every
    double quote replaced, and the escaped string itself when it has
    none.  Each of the three inputs reaches the validator as given, or as
    the empty string when it is missing or falsy; and an input that is
    null or undefined makes the function throw a TypeError. *)
Theorem sanitizeUserInput_result (input : value) :
  (forall out,
     sanitize input = Ok out ->
     includes (stringInput out) quote = false
     /\ exists escaped,
          validator_escape (or_empty (get input "stringInput")) = Ok escaped
          /\ stringInput out = replace_quotes escaped
          /\ (includes escaped quote = false -> stringInput out = escaped)
          /\ validator_normalizeEmail (or_empty (get input "emailInput"))
             = Ok (emailInput out)
          /\ validator_trim (or_empty (get input "urlInput")) = Ok (urlInput out))
  /\ (is_nullish input = true ->
      exists e, sanitize input = Throw e /\ err_name e = "TypeError").
Proof.
  split.
  - intros out. unfold sanitizeUserInput.
    destruct (get_prop input "stringInput") as [s |] eqn:Hs; [| discriminate].
    assert (Hget : forall k, get_prop input k = Ok (get input k)).
    { intros k. destruct input; try discriminate Hs; reflexivity. }
    rewrite Hget in Hs. injection Hs as <-. rewrite !Hget. cbn [bind].
    destruct (validator_escape _) as [escaped |] eqn:He; [| discriminate].
    cbn [bind].
    destruct (validator_normalizeEmail _) as [email |] eqn:Hm; [| discriminate].
    cbn [bind].
    destruct (validator_trim _) as [url |] eqn:Hu; [| discriminate].
    cbn [bind]. intros [= <-]. cbn [stringInput emailInput urlInput].
    split; [apply replace_quotes_clean |].
    exists escaped. repeat split; auto. apply replace_quotes_unchanged.
  - destruct input; try discriminate; intros _; eexists; split; reflexivity.
Qed.

End Sanitizing.

(** A string with two double quotes that the validator leaves alone. *)
Lemma sanitizeUserInput_result_witness :
  let input := VObj [("stringInput", VStr ("say " ++ DataValidator.quote ++ "hi"
                                           ++ DataValidator.quote))] in
  let out := DataValidator.mkSanitized "say &quot;hi&quot;" (VStr "") "" in
  DataValidator.sanitizeUserInput sample_string sample_normalizeEmail sample_string input
    = Ok out
  /\ includes (DataValidator.stringInput out) DataValidator.quote = false.
Proof.
  intros input out. split; [reflexivity |].
  apply (proj1 (sanitizeUserInput_result sample_string sample_normalizeEmail
                  sample_string input) out eq_refl).
Defined.

Section Injection.
Import DataValidator.

Lemma quote_body_append (a b : string) :
  quote_body (a ++ b) = quote_body a ++ quote_body b.
Proof.
  induction a as [| c a IH]; cbn [quote_body String.append]; [reflexivity |].
  rewrite IH, append_assoc. reflexivity.
Qed.

Lemma includes_split (s p : string) :
  includes s p = true -> exists a b, s = a ++ p ++ b.
Proof.
  induction s as [| c s IH]; cbn [includes].
  - rewrite orb_false_r. intros H. apply prefix_split in H.
    destruct H as [rest H]. exists "", rest. exact H.
  - intros H. apply orb_true_iff in H. destruct H as [H | H].
    + apply prefix_split in H. destruct H as [rest H]. exists "", rest. exact H.
    + destruct (IH H) as (a & b & ->). exists (String c a), b. reflexivity.
Qed.

Lemma includes_refl_append (p b : string) : includes (p ++ b) p = true.
Proof.
  destruct (p ++ b) eqn:E; cbn [includes].
  - destruct p; [reflexivity | discriminate E].
  - rewrite <- E, prefix_append. reflexivity.
Qed.

(** A text that needs no escape is printed as it is. *)
Lemma JSON_quote_includes (s p : string) :
  quote_body p = p -> includes s p = true -> includes (JSON_quote s) p = true.
Proof.
  intros Hp H. apply includes_split in H. destruct H as (a & b & ->).
  unfold JSON_quote. rewrite !quote_body_append, Hp.
  apply includes_append_r. rewrite !append_assoc.
  apply includes_append_r, includes_refl_append.
Qed.

Lemma join_split (sep y : string) (l : list string) :
  In y l -> exists a b, join sep l = a ++ y ++ b.
Proof.
  induction l as [| x l IH]; [contradiction |].
  intros [-> | Hin].
  - destruct l as [| z l].
    + exists "", "". cbn. now rewrite append_nil_r.
    + exists "", (sep ++ join sep (z :: l)). reflexivity.
  - destruct l as [| z l]; [contradiction |].
    destruct (IH Hin) as (a & b & Hj). exists (x ++ sep ++ a), b.
    cbn [join] in Hj |- *. rewrite Hj, !append_assoc. reflexivity.
Qed.

Lemma JSON_stringify_array (items : list value) :
  JSON_stringify (VArr items)
  = Some ("[" ++ join "," (map (fun x => match JSON_stringify x with
                                         | Some t => t
                                         | None => "null"
                                         end) items) ++ "]").
Proof.
  reflexivity.
Qed.

Lemma JSON_stringify_object (fields : list (string * value)) :
  JSON_stringify (VObj fields)
  = Some ("{" ++ join ","
                   (flat_map (fun kv => match JSON_stringify (snd kv) with
                                        | Some t => [JSON_quote (fst kv) ++ ":" ++ t]
                                        | None => []
                                        end) fields)
          ++ "}").
Proof.
  reflexivity.
Qed.

(** A string that is printed stands, quoted, in the text. *)
Lemma JSON_stringify_prints (P : string -> Prop) (v : value) :
  prints P v ->
  exists before s after,
    P s /\ JSON_stringify v = Some (before ++ JSON_quote s ++ after).
Proof.
  induction 1 as [s Hs | items x Hin _ IH | fields k x Hin Hx Hk
                  | fields k x Hin _ IH].
  - exists "", s, "". split; [exact Hs |]. cbn. now rewrite append_nil_r.
  - destruct IH as (before & s & after & Hs & Hout).
    rewrite JSON_stringify_array.
    destruct (join_split "," (before ++ JSON_quote s ++ after)
                (map (fun x => match JSON_stringify x with
                               | Some t => t
                               | None => "null"
                               end) items)) as (a & b & Hj).
    { apply in_map_iff. exists x. rewrite Hout. auto. }
    rewrite Hj. exists ("[" ++ a ++ before), s, (after ++ b ++ "]").
    split; [exact Hs |]. rewrite !append_assoc. reflexivity.
  - rewrite JSON_stringify_object.
    destruct (JSON_stringify x) as [t |] eqn:Ht; [| congruence].
    destruct (join_split "," (JSON_quote k ++ ":" ++ t)
                (flat_map (fun kv => match JSON_stringify (snd kv) with
                                     | Some t => [JSON_quote (fst kv) ++ ":" ++ t]
                                     | None => []
                                     end) fields)) as (a & b & Hj).
    { apply in_flat_map. exists (k, x). split; [exact Hin |].
      cbn [fst snd]. rewrite Ht. left. reflexivity. }
    rewrite Hj. exists ("{" ++ a), k, (":" ++ t ++ b ++ "}").
    split; [exact Hk |]. rewrite !append_assoc. reflexivity.
  - destruct IH as (before & s & after & Hs & Hout).
    rewrite JSON_stringify_object.
    destruct (join_split "," (JSON_quote k ++ ":" ++ before ++ JSON_quote s ++ after)
                (flat_map (fun kv => match JSON_stringify (snd kv) with
                                     | Some t => [JSON_quote (fst kv) ++ ":" ++ t]
                                     | None => []
                                     end) fields)) as (a & b & Hj).
    { apply in_flat_map. exists (k, x). split; [exact Hin |].
      cbn [fst snd]. rewrite Hout. left. reflexivity. }
    rewrite Hj.
    exists ("{" ++ a ++ JSON_quote k ++ ":" ++ before), s, (after ++ b ++ "}").
    split; [exact Hs |]. rewrite !append_assoc. reflexivity.
Qed.

Lemma banned_from_prefix (p : string) :
  (forall previous s, String.prefix p s = true -> banned_here previous s = true) ->
  forall s previous, includes s p = true -> banned_from previous s = true.
Proof.
  intros Hhere. induction s as [| c s IH]; intros previous; cbn [includes banned_from].
  - rewrite orb_false_r. intros H. now rewrite (Hhere previous "" H).
  - intros H. apply orb_true_iff in H. destruct H as [H | H].
    + now rewrite (Hhere previous _ H).
    + rewrite (IH (Some c) H). apply orb_true_r.
Qed.

Lemma banned_from_semicolon (s : string) (previous : option ascii) :
  includes s ";" = true -> banned_from previous s = true.
Proof.
  apply banned_from_prefix. intros prev t H. unfold banned_here.
  rewrite H. rewrite !orb_true_r. reflexivity.
Qed.

Lemma banned_from_dashes (s : string) (previous : option ascii) :
  includes s "--" = true -> banned_from previous s = true.
Proof.
  apply banned_from_prefix. intros prev t H. unfold banned_here.
  rewrite H. rewrite !orb_true_r. reflexivity.
Qed.

Lemma banned_from_later (before : string) :
  forall previous q rest,
  banned_here (Some q) rest = true ->
  banned_from previous (before ++ String q rest) = true.
Proof.
  induction before as [| c before IH]; intros previous q rest H;
    cbn [String.append banned_from].
  - destruct rest; cbn [banned_from]; rewrite H; cbn; apply orb_true_r.
  - rewrite (IH (Some c) q rest H). apply orb_true_r.
Qed.

Lemma after_word_lower (s rest : string) :
  after_word (toLowerCase s) (s ++ rest) = Some rest.
Proof.
  induction s as [| c s IH]; cbn [toLowerCase String.append after_word].
  - reflexivity.
  - rewrite Ascii.eqb_refl. exact IH.
Qed.

Lemma quote_char_letter (c : ascii) :
  (97 <=? code (lower_char c)) && (code (lower_char c) <=? 122) = true ->
  quote_char c = String c "".
Proof.
  destruct c as [[] [] [] [] [] [] [] []]; vm_compute; intros H;
    first [reflexivity | discriminate H].
Qed.

Lemma quote_body_letters (s : string) :
  forall word,
  toLowerCase s = word ->
  forallb (fun c => (97 <=? code c) && (code c <=? 122)) (list_ascii_of_string word)
  = true ->
  quote_body s = s.
Proof.
  induction s as [| c s IH]; intros word <-; [reflexivity |].
  cbn [toLowerCase list_ascii_of_string forallb quote_body].
  intros H. apply andb_prop in H. destruct H as [Hc Hs].
  rewrite (quote_char_letter c Hc), (IH _ eq_refl Hs). reflexivity.
Qed.

Lemma banned_keyword (word s before after : string) :
  In word ["select"; "insert"; "delete"] ->
  toLowerCase s = word ->
  banned_from None (before ++ JSON_quote s ++ after) = true.
Proof.
  intros Hword Hs.
  assert (Hplain : quote_body s = s).
  { apply (quote_body_letters s word Hs).
    cbn in Hword. destruct Hword as [Hw | [Hw | [Hw | []]]];
      rewrite <- Hw; reflexivity. }
  unfold JSON_quote, quote. rewrite Hplain.
  change (before ++ (String (char_of 34) "" ++ s ++ String (char_of 34) "") ++ after)
    with (before ++ String (char_of 34) ((s ++ String (char_of 34) "") ++ after)).
  apply banned_from_later. rewrite append_assoc.
  change (String (char_of 34) "" ++ after) with (String (char_of 34) after).
  assert (Hword' : whole_word word (Some (char_of 34)) (s ++ String (char_of 34) after)
                   = true).
  { unfold whole_word. rewrite <- Hs, after_word_lower. reflexivity. }
  unfold banned_here. cbn in Hword.
  destruct Hword as [<- | [<- | [<- | []]]]; rewrite Hword';
    rewrite ?orb_true_r; reflexivity.
Qed.

(** X30: an input is refused as soon as one of its strings, a value or the
    name of a property that is printed, at any depth, holds a semicolon
    or two dashes, or is SELECT, INSERT or DELETE in any case of
    letters. *)
Theorem preventInjectionAttacks_rejects (input : value) :
  prints (fun s => includes s ";" = true \/ includes s "--" = true
                   \/ In (toLowerCase s) ["select"; "insert"; "delete"]) input ->
  preventInjectionAttacks input = false.
Proof.
  intros H. apply JSON_stringify_prints in H.
  destruct H as (before & s & after & Hs & Hout).
  unfold preventInjectionAttacks. rewrite Hout. apply negb_false_iff.
  destruct Hs as [Hs | [Hs | Hs]].
  - apply banned_from_semicolon, includes_middle, JSON_quote_includes;
      [reflexivity | exact Hs].
  - apply banned_from_dashes, includes_middle, JSON_quote_includes;
      [reflexivity | exact Hs].
  - exact (banned_keyword _ s before after Hs eq_refl).
Qed.

End Injection.

(** A concern with a semicolon in it. *)
Lemma preventInjectionAttacks_rejects_witness :
  DataValidator.preventInjectionAttacks
    (VObj [("userId", VStr "u1"); ("concerns", VArr [VStr "acne; redness"])])
  = false.
Proof.
  apply preventInjectionAttacks_rejects.
  apply (DataValidator.prints_field _ _ "concerns" (VArr [VStr "acne; redness"]));
    [right; left; reflexivity |].
  apply (DataValidator.prints_item _ _ (VStr "acne; redness"));
    [left; reflexivity |].
  apply DataValidator.prints_string. left. reflexivity.
Defined.

